(** * Huddle: the audio-capture page (frontend/src/pages/CaptureAudio.js)

    A shallow embedding of the capture component: its React state, its
    refs, the browser objects it drives (media tracks, MediaRecorders,
    audio contexts, interval timers, animation frames) and the backend
    requests it issues, as an event-driven transition system.

    JavaScript is single threaded: every handler runs to its next
    [await] on I/O without interruption.  An [await] on an already
    settled promise (such as [await stopServerTranscription()]) only
    yields to the microtask queue, so no event handler can run in
    between; the model executes such code in one step.  An [await] on
    I/O (a permission prompt, a file reader, a network request) parks a
    continuation in the world; a later event resumes it.

    React closures: every function of the component is re-created at
    each render and sees the state values of that render.  A handler
    invoked from a button sees the latest render.  A callback stored in
    a browser object ([track.onended], the [setInterval] callback,
    [recorder.onstop]) or the continuation of an [async] function keeps
    the render in which it was created.  Closures therefore carry an
    [RState] snapshot.

    React commits: a state update made in a click handler is committed,
    effects included, before the next task.  An update made in any other
    task (a network continuation, [track.onended], a timer) is committed
    by a later task of the scheduler, the event [Commit]: the effect of
    the elapsed-time counter runs then, so until then the one-second
    interval of the previous commit is still scheduled and can tick.
    [st] holds the state with every update applied.

    The host: [App] renders the page while its view is 'capture-audio'.
    It replaces the page when the user navigates away and, through
    [onMeetingCreated], when a stop sequence has saved the meeting; React
    then runs the effect cleanups of the page, among them [cleanup].
    The life of the page, mounted, leaving and then gone, is [Life];
    [step] is one task of the page while it is mounted. *)

From Stdlib Require Import ZArith NArith QArith Qminmax Bool String Ascii List Lia.
From stdpp Require Import base numbers list option sets sorting pretty.
Import ListNotations.

Local Open Scope Z_scope.

(** ** JavaScript strings and values *)

(** A JS string is a sequence of UTF-16 code units. *)
Definition code_unit := N.
Definition jsstring := list code_unit.

Definition js (s : string) : jsstring :=
  map N_of_ascii (list_ascii_of_string s).

(** ECMAScript WhiteSpace and LineTerminator code points, the ones
    [String.prototype.trim] strips. *)
Definition isWhiteSpace (c : code_unit) : bool :=
  ((9 <=? c) && (c <=? 13) ||
   (c =? 32) || (c =? 160) || (c =? 5760) ||
   (8192 <=? c) && (c <=? 8202) ||
   (c =? 8232) || (c =? 8233) || (c =? 8239) || (c =? 8287) ||
   (c =? 12288) || (c =? 65279))%N.

Fixpoint trimStart (s : jsstring) : jsstring :=
  match s with
  | c :: s' => if isWhiteSpace c then trimStart s' else s
  | [] => []
  end.

Definition trimEnd (s : jsstring) : jsstring := rev (trimStart (rev s)).

Definition trim (s : jsstring) : jsstring := trimEnd (trimStart s).

(** The JSON values a response field can hold. *)
Inductive jsval :=
| JUndefined
| JNull
| JBool (b : bool)
| JNum (n : Z)
| JStr (s : jsstring)
| JObj.

(** [ToBoolean]. *)
Definition truthy (v : jsval) : bool :=
  match v with
  | JUndefined | JNull => false
  | JObj => true
  | JBool b => b
  | JNum n => negb (n =? 0)
  | JStr s => match s with [] => false | _ => true end
  end.

Definition strTruthy (s : jsstring) : bool :=
  match s with [] => false | _ => true end.

(** A thrown value: [err.name] and [err.message]. *)
Record JsError := { err_name : jsstring; err_message : jsstring }.

Definition mkError (msg : string) : JsError :=
  {| err_name := js "Error"; err_message := js msg |}.

(** ** Data model *)

Inductive CaptureSource := SrcSystem | SrcTab | SrcMicSystem.

(** [status]: 'idle' | 'requesting' | 'capturing' | 'stopping'. *)
Inductive Status := Idle | Requesting | Capturing | Stopping.

Record TranscriptEntry := {
  id : Z;
  speaker : jsstring;
  text : jsstring;
  timestamp : jsstring;
  confidence : Q
}.

(** The [useState] values of the component; also the snapshot a closure
    keeps of the render it was created in. *)
Record RState := {
  isCapturing : bool;
  isPaused : bool;
  recordingTime : Z;
  audioLevel : Q;
  captureSource : CaptureSource;
  meetingTitle : jsstring;
  meetingDescription : jsstring;
  selectedLanguage : jsstring;
  selectedFolder : jsval;
  meetingId : jsval;
  liveTranscript : list TranscriptEntry;
  currentSpeaker : jsstring;
  error : jsstring;
  status : Status;
  audioChunks : list Z
}.

(** Browser objects live in stores (lists); a handle is an index. *)
Inductive TrackKind := KAudio | KVideo.

Record Track := {
  kind : TrackKind;
  live : bool;                      (* readyState = 'live' *)
  onended : option RState           (* handler installed by startCapture *)
}.

(** A MediaStream: the handles of its tracks. *)
Definition Stream := list nat.

Inductive RecorderState := Inactive | Recording | Paused.

(** Which [onstop] handler a recorder carries: the archival recorder
    publishes its chunks, a cycling recorder hands its blob to
    [sendBlobForTranscription] of the render that created it. *)
Inductive RecorderRole := FullSession | Cycle (r : RState).

Record Recorder := {
  rec_stream : Stream;
  rec_state : RecorderState;
  rec_timeslice : Z;                (* argument of start(), milliseconds *)
  rec_chunks : list Z;              (* sizes pushed by ondataavailable *)
  rec_role : RecorderRole;
  rec_stopQueued : bool             (* final dataavailable + stop events queued *)
}.

Inductive CtxState := CtxRunning | CtxClosed.

Record Interval := {
  int_active : bool;
  int_period : Z;                   (* milliseconds *)
  int_closure : RState
}.

Record Browser := {
  tracks : list Track;
  recorders : list Recorder;
  contexts : list CtxState;
  intervals : list Interval;
  frames : list bool;               (* true: callback still pending *)
  encoderSupported : bool;          (* 'audio/webm;codecs=opus' available *)
  ticker : bool                     (* the one-second interval of the
                                       elapsed-time effect is scheduled *)
}.

(** The refs.  A timer or frame handle is a positive number in the
    browser, hence always truthy: [None] is null, [Some i] a handle. *)
Record Refs := {
  systemStreamRef : option Stream;
  micStreamRef : option Stream;
  combinedStreamRef : option Stream;
  audioContextRef : option nat;
  analyserRef : bool;
  mediaRecorderRef : option nat;
  animationFrameRef : option nat;
  isCapturingRef : bool;
  meetingIdRef : jsval;
  transcriptionRecorderRef : option nat;
  transcriptionTimerRef : option nat;
  isTranscribingRef : bool;
  activeStreamRef : option Stream
}.

(** ** Backend requests *)

Inductive Method := GET | POST | PUT.

(** The request paths; [${meetingId}] is kept as the value interpolated. *)
Inductive Endpoint :=
| RecordingStart                    (* /recording/start *)
| TranscribeAudio                   (* /recording/transcribe-audio *)
| Transcription (mid : jsval)       (* /transcription/${meetingId} *)
| Meetings (mid : jsval)            (* /meetings/${meetingId} *)
| RecordingStop (mid : jsval).      (* /recording/stop/${meetingId} *)

Inductive Body :=
| NoBody
| StartBody (title language : jsstring)
| TranscribeBody (audio_size : Z) (language : jsstring) (meeting_id : jsval)
    (speaker : jsstring)
| TranscriptBody (transcript : jsstring) (speakers : jsstring * nat)
    (language created_at updated_at : jsstring)
| MeetingBody (title description : jsstring) (folder_id : jsval)
    (status : jsstring).

Record Call := { c_method : Method; c_endpoint : Endpoint; c_body : Body }.

(** What [response.json()] yields, reduced to the fields the page reads;
    a missing field is [JUndefined]. *)
Record Data := { d_text : jsval; d_meeting_id : jsval }.

(** [resp_json = inl e]: [response.json()] rejects with [e]. *)
Record Response := { resp_ok : bool; resp_json : JsError + Data }.

(** [makeAuthenticatedRequest] comes from the auth context, which is not
    part of the page: it is taken as a parameter of the model.  Like
    [fetch] it either rejects (network failure) or resolves with a
    response whose [ok] flag the caller has to inspect, which is how the
    page uses it ([if (response.ok)], [if (!response.ok) throw]). *)
Inductive NetOutcome := Rejected (e : JsError) | Resolved (r : Response).

(** Continuations parked at an [await] on I/O, with the render of the
    function they belong to. *)
Inductive Cont :=
| KStartDisplay (r : RState)                  (* await getDisplayMedia *)
| KStartMic (r : RState) (sys : Stream)       (* await getUserMedia *)
| KStartReply (r : RState) (active : Stream)  (* await /recording/start *)
| KRead (r : RState) (blob : Z)               (* await FileReader *)
| KTranscribe (r : RState)                    (* await transcribe-audio *)
| KStopTranscript (r : RState)                (* await POST /transcription *)
| KStopMeeting (r : RState)                   (* await PUT /meetings *)
| KStopRecording (r : RState).                (* await POST /recording/stop *)

Record Net := {
  calls : list Call;                (* requests issued, oldest first *)
  inflight : list (option Cont)     (* pending I/O, by handle *)
}.

(** Observable outputs of the page, and two ghost counters used to state
    properties: how often the analyser was read and how often
    [stopCapture] was entered. *)
Record Obs := {
  notified : list jsval;            (* onMeetingCreated(meetingId) *)
  consoleErrors : list JsError;     (* console.error / console.warn *)
  levelReads : nat;
  stopRuns : nat
}.

Record World := {
  st : RState;
  refs : Refs;
  dom : Browser;
  net : Net;
  obs : Obs
}.

(** ** Field updates *)

Definition upd_isCapturing (v : bool) (x : RState) : RState :=
  {| isCapturing := v; isPaused := isPaused x; recordingTime :=
     recordingTime x; audioLevel := audioLevel x; captureSource :=
     captureSource x; meetingTitle := meetingTitle x; meetingDescription
     := meetingDescription x; selectedLanguage := selectedLanguage x;
     selectedFolder := selectedFolder x; meetingId := meetingId x;
     liveTranscript := liveTranscript x; currentSpeaker := currentSpeaker
     x; error := error x; status := status x; audioChunks := audioChunks x |}.

Definition upd_isPaused (v : bool) (x : RState) : RState :=
  {| isCapturing := isCapturing x; isPaused := v; recordingTime :=
     recordingTime x; audioLevel := audioLevel x; captureSource :=
     captureSource x; meetingTitle := meetingTitle x; meetingDescription
     := meetingDescription x; selectedLanguage := selectedLanguage x;
     selectedFolder := selectedFolder x; meetingId := meetingId x;
     liveTranscript := liveTranscript x; currentSpeaker := currentSpeaker
     x; error := error x; status := status x; audioChunks := audioChunks x |}.

Definition upd_recordingTime (v : Z) (x : RState) : RState :=
  {| isCapturing := isCapturing x; isPaused := isPaused x; recordingTime
     := v; audioLevel := audioLevel x; captureSource := captureSource x;
     meetingTitle := meetingTitle x; meetingDescription :=
     meetingDescription x; selectedLanguage := selectedLanguage x;
     selectedFolder := selectedFolder x; meetingId := meetingId x;
     liveTranscript := liveTranscript x; currentSpeaker := currentSpeaker
     x; error := error x; status := status x; audioChunks := audioChunks x |}.

Definition upd_audioLevel (v : Q) (x : RState) : RState :=
  {| isCapturing := isCapturing x; isPaused := isPaused x; recordingTime
     := recordingTime x; audioLevel := v; captureSource := captureSource
     x; meetingTitle := meetingTitle x; meetingDescription :=
     meetingDescription x; selectedLanguage := selectedLanguage x;
     selectedFolder := selectedFolder x; meetingId := meetingId x;
     liveTranscript := liveTranscript x; currentSpeaker := currentSpeaker
     x; error := error x; status := status x; audioChunks := audioChunks x |}.

Definition upd_captureSource (v : CaptureSource) (x : RState) : RState :=
  {| isCapturing := isCapturing x; isPaused := isPaused x; recordingTime
     := recordingTime x; audioLevel := audioLevel x; captureSource := v;
     meetingTitle := meetingTitle x; meetingDescription :=
     meetingDescription x; selectedLanguage := selectedLanguage x;
     selectedFolder := selectedFolder x; meetingId := meetingId x;
     liveTranscript := liveTranscript x; currentSpeaker := currentSpeaker
     x; error := error x; status := status x; audioChunks := audioChunks x |}.

Definition upd_meetingTitle (v : jsstring) (x : RState) : RState :=
  {| isCapturing := isCapturing x; isPaused := isPaused x; recordingTime
     := recordingTime x; audioLevel := audioLevel x; captureSource :=
     captureSource x; meetingTitle := v; meetingDescription :=
     meetingDescription x; selectedLanguage := selectedLanguage x;
     selectedFolder := selectedFolder x; meetingId := meetingId x;
     liveTranscript := liveTranscript x; currentSpeaker := currentSpeaker
     x; error := error x; status := status x; audioChunks := audioChunks x |}.

Definition upd_meetingDescription (v : jsstring) (x : RState) : RState :=
  {| isCapturing := isCapturing x; isPaused := isPaused x; recordingTime
     := recordingTime x; audioLevel := audioLevel x; captureSource :=
     captureSource x; meetingTitle := meetingTitle x; meetingDescription
     := v; selectedLanguage := selectedLanguage x; selectedFolder :=
     selectedFolder x; meetingId := meetingId x; liveTranscript :=
     liveTranscript x; currentSpeaker := currentSpeaker x; error := error
     x; status := status x; audioChunks := audioChunks x |}.

Definition upd_selectedLanguage (v : jsstring) (x : RState) : RState :=
  {| isCapturing := isCapturing x; isPaused := isPaused x; recordingTime
     := recordingTime x; audioLevel := audioLevel x; captureSource :=
     captureSource x; meetingTitle := meetingTitle x; meetingDescription
     := meetingDescription x; selectedLanguage := v; selectedFolder :=
     selectedFolder x; meetingId := meetingId x; liveTranscript :=
     liveTranscript x; currentSpeaker := currentSpeaker x; error := error
     x; status := status x; audioChunks := audioChunks x |}.

Definition upd_selectedFolder (v : jsval) (x : RState) : RState :=
  {| isCapturing := isCapturing x; isPaused := isPaused x; recordingTime
     := recordingTime x; audioLevel := audioLevel x; captureSource :=
     captureSource x; meetingTitle := meetingTitle x; meetingDescription
     := meetingDescription x; selectedLanguage := selectedLanguage x;
     selectedFolder := v; meetingId := meetingId x; liveTranscript :=
     liveTranscript x; currentSpeaker := currentSpeaker x; error := error
     x; status := status x; audioChunks := audioChunks x |}.

Definition upd_meetingId (v : jsval) (x : RState) : RState :=
  {| isCapturing := isCapturing x; isPaused := isPaused x; recordingTime
     := recordingTime x; audioLevel := audioLevel x; captureSource :=
     captureSource x; meetingTitle := meetingTitle x; meetingDescription
     := meetingDescription x; selectedLanguage := selectedLanguage x;
     selectedFolder := selectedFolder x; meetingId := v; liveTranscript :=
     liveTranscript x; currentSpeaker := currentSpeaker x; error := error
     x; status := status x; audioChunks := audioChunks x |}.

Definition upd_liveTranscript (v : list TranscriptEntry) (x : RState) : RState :=
  {| isCapturing := isCapturing x; isPaused := isPaused x; recordingTime
     := recordingTime x; audioLevel := audioLevel x; captureSource :=
     captureSource x; meetingTitle := meetingTitle x; meetingDescription
     := meetingDescription x; selectedLanguage := selectedLanguage x;
     selectedFolder := selectedFolder x; meetingId := meetingId x;
     liveTranscript := v; currentSpeaker := currentSpeaker x; error :=
     error x; status := status x; audioChunks := audioChunks x |}.

Definition upd_error (v : jsstring) (x : RState) : RState :=
  {| isCapturing := isCapturing x; isPaused := isPaused x; recordingTime
     := recordingTime x; audioLevel := audioLevel x; captureSource :=
     captureSource x; meetingTitle := meetingTitle x; meetingDescription
     := meetingDescription x; selectedLanguage := selectedLanguage x;
     selectedFolder := selectedFolder x; meetingId := meetingId x;
     liveTranscript := liveTranscript x; currentSpeaker := currentSpeaker
     x; error := v; status := status x; audioChunks := audioChunks x |}.

Definition upd_status (v : Status) (x : RState) : RState :=
  {| isCapturing := isCapturing x; isPaused := isPaused x; recordingTime
     := recordingTime x; audioLevel := audioLevel x; captureSource :=
     captureSource x; meetingTitle := meetingTitle x; meetingDescription
     := meetingDescription x; selectedLanguage := selectedLanguage x;
     selectedFolder := selectedFolder x; meetingId := meetingId x;
     liveTranscript := liveTranscript x; currentSpeaker := currentSpeaker
     x; error := error x; status := v; audioChunks := audioChunks x |}.

Definition upd_audioChunks (v : list Z) (x : RState) : RState :=
  {| isCapturing := isCapturing x; isPaused := isPaused x; recordingTime
     := recordingTime x; audioLevel := audioLevel x; captureSource :=
     captureSource x; meetingTitle := meetingTitle x; meetingDescription
     := meetingDescription x; selectedLanguage := selectedLanguage x;
     selectedFolder := selectedFolder x; meetingId := meetingId x;
     liveTranscript := liveTranscript x; currentSpeaker := currentSpeaker
     x; error := error x; status := status x; audioChunks := v |}.

Definition upd_systemStreamRef (v : option Stream) (x : Refs) : Refs :=
  {| systemStreamRef := v; micStreamRef := micStreamRef x;
     combinedStreamRef := combinedStreamRef x; audioContextRef :=
     audioContextRef x; analyserRef := analyserRef x; mediaRecorderRef :=
     mediaRecorderRef x; animationFrameRef := animationFrameRef x;
     isCapturingRef := isCapturingRef x; meetingIdRef := meetingIdRef x;
     transcriptionRecorderRef := transcriptionRecorderRef x;
     transcriptionTimerRef := transcriptionTimerRef x; isTranscribingRef
     := isTranscribingRef x; activeStreamRef := activeStreamRef x |}.

Definition upd_micStreamRef (v : option Stream) (x : Refs) : Refs :=
  {| systemStreamRef := systemStreamRef x; micStreamRef := v;
     combinedStreamRef := combinedStreamRef x; audioContextRef :=
     audioContextRef x; analyserRef := analyserRef x; mediaRecorderRef :=
     mediaRecorderRef x; animationFrameRef := animationFrameRef x;
     isCapturingRef := isCapturingRef x; meetingIdRef := meetingIdRef x;
     transcriptionRecorderRef := transcriptionRecorderRef x;
     transcriptionTimerRef := transcriptionTimerRef x; isTranscribingRef
     := isTranscribingRef x; activeStreamRef := activeStreamRef x |}.

Definition upd_combinedStreamRef (v : option Stream) (x : Refs) : Refs :=
  {| systemStreamRef := systemStreamRef x; micStreamRef := micStreamRef x;
     combinedStreamRef := v; audioContextRef := audioContextRef x;
     analyserRef := analyserRef x; mediaRecorderRef := mediaRecorderRef x;
     animationFrameRef := animationFrameRef x; isCapturingRef :=
     isCapturingRef x; meetingIdRef := meetingIdRef x;
     transcriptionRecorderRef := transcriptionRecorderRef x;
     transcriptionTimerRef := transcriptionTimerRef x; isTranscribingRef
     := isTranscribingRef x; activeStreamRef := activeStreamRef x |}.

Definition upd_audioContextRef (v : option nat) (x : Refs) : Refs :=
  {| systemStreamRef := systemStreamRef x; micStreamRef := micStreamRef x;
     combinedStreamRef := combinedStreamRef x; audioContextRef := v;
     analyserRef := analyserRef x; mediaRecorderRef := mediaRecorderRef x;
     animationFrameRef := animationFrameRef x; isCapturingRef :=
     isCapturingRef x; meetingIdRef := meetingIdRef x;
     transcriptionRecorderRef := transcriptionRecorderRef x;
     transcriptionTimerRef := transcriptionTimerRef x; isTranscribingRef
     := isTranscribingRef x; activeStreamRef := activeStreamRef x |}.

Definition upd_analyserRef (v : bool) (x : Refs) : Refs :=
  {| systemStreamRef := systemStreamRef x; micStreamRef := micStreamRef x;
     combinedStreamRef := combinedStreamRef x; audioContextRef :=
     audioContextRef x; analyserRef := v; mediaRecorderRef :=
     mediaRecorderRef x; animationFrameRef := animationFrameRef x;
     isCapturingRef := isCapturingRef x; meetingIdRef := meetingIdRef x;
     transcriptionRecorderRef := transcriptionRecorderRef x;
     transcriptionTimerRef := transcriptionTimerRef x; isTranscribingRef
     := isTranscribingRef x; activeStreamRef := activeStreamRef x |}.

Definition upd_mediaRecorderRef (v : option nat) (x : Refs) : Refs :=
  {| systemStreamRef := systemStreamRef x; micStreamRef := micStreamRef x;
     combinedStreamRef := combinedStreamRef x; audioContextRef :=
     audioContextRef x; analyserRef := analyserRef x; mediaRecorderRef :=
     v; animationFrameRef := animationFrameRef x; isCapturingRef :=
     isCapturingRef x; meetingIdRef := meetingIdRef x;
     transcriptionRecorderRef := transcriptionRecorderRef x;
     transcriptionTimerRef := transcriptionTimerRef x; isTranscribingRef
     := isTranscribingRef x; activeStreamRef := activeStreamRef x |}.

Definition upd_animationFrameRef (v : option nat) (x : Refs) : Refs :=
  {| systemStreamRef := systemStreamRef x; micStreamRef := micStreamRef x;
     combinedStreamRef := combinedStreamRef x; audioContextRef :=
     audioContextRef x; analyserRef := analyserRef x; mediaRecorderRef :=
     mediaRecorderRef x; animationFrameRef := v; isCapturingRef :=
     isCapturingRef x; meetingIdRef := meetingIdRef x;
     transcriptionRecorderRef := transcriptionRecorderRef x;
     transcriptionTimerRef := transcriptionTimerRef x; isTranscribingRef
     := isTranscribingRef x; activeStreamRef := activeStreamRef x |}.

Definition upd_isCapturingRef (v : bool) (x : Refs) : Refs :=
  {| systemStreamRef := systemStreamRef x; micStreamRef := micStreamRef x;
     combinedStreamRef := combinedStreamRef x; audioContextRef :=
     audioContextRef x; analyserRef := analyserRef x; mediaRecorderRef :=
     mediaRecorderRef x; animationFrameRef := animationFrameRef x;
     isCapturingRef := v; meetingIdRef := meetingIdRef x;
     transcriptionRecorderRef := transcriptionRecorderRef x;
     transcriptionTimerRef := transcriptionTimerRef x; isTranscribingRef
     := isTranscribingRef x; activeStreamRef := activeStreamRef x |}.

Definition upd_meetingIdRef (v : jsval) (x : Refs) : Refs :=
  {| systemStreamRef := systemStreamRef x; micStreamRef := micStreamRef x;
     combinedStreamRef := combinedStreamRef x; audioContextRef :=
     audioContextRef x; analyserRef := analyserRef x; mediaRecorderRef :=
     mediaRecorderRef x; animationFrameRef := animationFrameRef x;
     isCapturingRef := isCapturingRef x; meetingIdRef := v;
     transcriptionRecorderRef := transcriptionRecorderRef x;
     transcriptionTimerRef := transcriptionTimerRef x; isTranscribingRef
     := isTranscribingRef x; activeStreamRef := activeStreamRef x |}.

Definition upd_transcriptionRecorderRef (v : option nat) (x : Refs) : Refs :=
  {| systemStreamRef := systemStreamRef x; micStreamRef := micStreamRef x;
     combinedStreamRef := combinedStreamRef x; audioContextRef :=
     audioContextRef x; analyserRef := analyserRef x; mediaRecorderRef :=
     mediaRecorderRef x; animationFrameRef := animationFrameRef x;
     isCapturingRef := isCapturingRef x; meetingIdRef := meetingIdRef x;
     transcriptionRecorderRef := v; transcriptionTimerRef :=
     transcriptionTimerRef x; isTranscribingRef := isTranscribingRef x;
     activeStreamRef := activeStreamRef x |}.

Definition upd_transcriptionTimerRef (v : option nat) (x : Refs) : Refs :=
  {| systemStreamRef := systemStreamRef x; micStreamRef := micStreamRef x;
     combinedStreamRef := combinedStreamRef x; audioContextRef :=
     audioContextRef x; analyserRef := analyserRef x; mediaRecorderRef :=
     mediaRecorderRef x; animationFrameRef := animationFrameRef x;
     isCapturingRef := isCapturingRef x; meetingIdRef := meetingIdRef x;
     transcriptionRecorderRef := transcriptionRecorderRef x;
     transcriptionTimerRef := v; isTranscribingRef := isTranscribingRef x;
     activeStreamRef := activeStreamRef x |}.

Definition upd_isTranscribingRef (v : bool) (x : Refs) : Refs :=
  {| systemStreamRef := systemStreamRef x; micStreamRef := micStreamRef x;
     combinedStreamRef := combinedStreamRef x; audioContextRef :=
     audioContextRef x; analyserRef := analyserRef x; mediaRecorderRef :=
     mediaRecorderRef x; animationFrameRef := animationFrameRef x;
     isCapturingRef := isCapturingRef x; meetingIdRef := meetingIdRef x;
     transcriptionRecorderRef := transcriptionRecorderRef x;
     transcriptionTimerRef := transcriptionTimerRef x; isTranscribingRef
     := v; activeStreamRef := activeStreamRef x |}.

Definition upd_activeStreamRef (v : option Stream) (x : Refs) : Refs :=
  {| systemStreamRef := systemStreamRef x; micStreamRef := micStreamRef x;
     combinedStreamRef := combinedStreamRef x; audioContextRef :=
     audioContextRef x; analyserRef := analyserRef x; mediaRecorderRef :=
     mediaRecorderRef x; animationFrameRef := animationFrameRef x;
     isCapturingRef := isCapturingRef x; meetingIdRef := meetingIdRef x;
     transcriptionRecorderRef := transcriptionRecorderRef x;
     transcriptionTimerRef := transcriptionTimerRef x; isTranscribingRef
     := isTranscribingRef x; activeStreamRef := v |}.

Definition upd_tracks (v : list Track) (x : Browser) : Browser :=
  {| tracks := v; recorders := recorders x; contexts := contexts x;
     intervals := intervals x; frames := frames x; encoderSupported :=
     encoderSupported x; ticker := ticker x |}.

Definition upd_recorders (v : list Recorder) (x : Browser) : Browser :=
  {| tracks := tracks x; recorders := v; contexts := contexts x; intervals
     := intervals x; frames := frames x; encoderSupported :=
     encoderSupported x; ticker := ticker x |}.

Definition upd_contexts (v : list CtxState) (x : Browser) : Browser :=
  {| tracks := tracks x; recorders := recorders x; contexts := v;
     intervals := intervals x; frames := frames x; encoderSupported :=
     encoderSupported x; ticker := ticker x |}.

Definition upd_intervals (v : list Interval) (x : Browser) : Browser :=
  {| tracks := tracks x; recorders := recorders x; contexts := contexts x;
     intervals := v; frames := frames x; encoderSupported :=
     encoderSupported x; ticker := ticker x |}.

Definition upd_frames (v : list bool) (x : Browser) : Browser :=
  {| tracks := tracks x; recorders := recorders x; contexts := contexts x;
     intervals := intervals x; frames := v; encoderSupported :=
     encoderSupported x; ticker := ticker x |}.

Definition upd_ticker (v : bool) (x : Browser) : Browser :=
  {| tracks := tracks x; recorders := recorders x; contexts := contexts x;
     intervals := intervals x; frames := frames x; encoderSupported :=
     encoderSupported x; ticker := v |}.

Definition on_st (f : RState -> RState) (w : World) : World :=
  {| st := f (st w); refs := refs w; dom := dom w; net := net w; obs := obs w |}.

Definition on_refs (f : Refs -> Refs) (w : World) : World :=
  {| st := st w; refs := f (refs w); dom := dom w; net := net w; obs := obs w |}.

Definition on_dom (f : Browser -> Browser) (w : World) : World :=
  {| st := st w; refs := refs w; dom := f (dom w); net := net w; obs := obs w |}.

Definition on_net (f : Net -> Net) (w : World) : World :=
  {| st := st w; refs := refs w; dom := dom w; net := f (net w); obs := obs w |}.

Definition on_obs (f : Obs -> Obs) (w : World) : World :=
  {| st := st w; refs := refs w; dom := dom w; net := net w; obs := f (obs w) |}.

(** ** Browser primitives *)

(** [track.stop()]: the track ends; no 'ended' event is fired. *)
Definition endTrack (t : Track) : Track :=
  {| kind := kind t; live := false; onended := onended t |}.

Definition stopTrack (i : nat) (b : Browser) : Browser :=
  upd_tracks (alter endTrack i (tracks b)) b.

(** [stream.getTracks().forEach(track => track.stop())]. *)
Definition stopTracks (s : Stream) (b : Browser) : Browser :=
  foldl (fun b i => stopTrack i b) b s.

Definition hasKind (b : Browser) (k : TrackKind) (i : nat) : bool :=
  match tracks b !! i with
  | Some t => match kind t, k with
              | KAudio, KAudio | KVideo, KVideo => true
              | _, _ => false
              end
  | None => false
  end.

(** [stream.getAudioTracks()] and [stream.getVideoTracks()]: by kind,
    ended tracks included. *)
Definition getAudioTracks (b : Browser) (s : Stream) : Stream :=
  filter (fun i => hasKind b KAudio i = true) s.

Definition getVideoTracks (b : Browser) (s : Stream) : Stream :=
  filter (fun i => hasKind b KVideo i = true) s.

Definition isLive (b : Browser) (i : nat) : bool :=
  match tracks b !! i with Some t => live t | None => false end.

(** [stream.active]: some track has not ended. *)
Definition streamActive (b : Browser) (s : Stream) : bool :=
  existsb (isLive b) s.

Definition isInactive (s : RecorderState) : bool :=
  match s with Inactive => true | _ => false end.

(** [ref.current && ref.current.state !== 'inactive']. *)
Definition recorderActive (b : Browser) (ref : option nat) : bool :=
  match ref with
  | Some i => match recorders b !! i with
              | Some r => negb (isInactive (rec_state r))
              | None => false
              end
  | None => false
  end.

Definition recorderHasState (b : Browser) (ref : option nat)
    (s : RecorderState) : bool :=
  match ref with
  | Some i => match recorders b !! i with
              | Some r => match rec_state r, s with
                          | Inactive, Inactive | Recording, Recording
                          | Paused, Paused => true
                          | _, _ => false
                          end
              | None => false
              end
  | None => false
  end.

Definition withState (s : RecorderState) (queued : bool) (r : Recorder)
    : Recorder :=
  {| rec_stream := rec_stream r; rec_state := s;
     rec_timeslice := rec_timeslice r; rec_chunks := rec_chunks r;
     rec_role := rec_role r; rec_stopQueued := queued |}.

(** [recorder.stop()] on a recorder that is not inactive: the state
    becomes inactive at once; the final [dataavailable] and the [stop]
    event are queued and dispatched by a later task. *)
Definition recorderStop (i : nat) (b : Browser) : Browser :=
  upd_recorders (alter (withState Inactive true) i (recorders b)) b.

Definition recorderPause (i : nat) (b : Browser) : Browser :=
  upd_recorders
    (alter (fun r => withState Paused (rec_stopQueued r) r) i (recorders b)) b.

Definition recorderResume (i : nat) (b : Browser) : Browser :=
  upd_recorders
    (alter (fun r => withState Recording (rec_stopQueued r) r) i
       (recorders b)) b.

(** [new MediaRecorder(stream, {mimeType})] followed by
    [recorder.start(timeslice)].  The constructor throws
    [NotSupportedError] when the mime type is not supported, [start]
    throws it when the stream is inactive. *)
Definition canRecord (b : Browser) (s : Stream) : bool :=
  encoderSupported b && streamActive b s.

Definition newRecorder (s : Stream) (slice : Z) (role : RecorderRole)
    (b : Browser) : nat * Browser :=
  (length (recorders b),
   upd_recorders
     (recorders b ++
      [{| rec_stream := s; rec_state := Recording; rec_timeslice := slice;
          rec_chunks := []; rec_role := role; rec_stopQueued := false |}]) b).

Definition notSupported : JsError :=
  {| err_name := js "NotSupportedError";
     err_message := js "The recorder cannot be started" |}.

(** [setInterval(callback, period)]. *)
Definition setInterval (r : RState) (period : Z) (b : Browser)
    : nat * Browser :=
  (length (intervals b),
   upd_intervals
     (intervals b ++
      [{| int_active := true; int_period := period; int_closure := r |}]) b).

Definition clearInterval (i : nat) (b : Browser) : Browser :=
  upd_intervals
    (alter (fun t => {| int_active := false; int_period := int_period t;
                        int_closure := int_closure t |}) i (intervals b)) b.

Definition requestAnimationFrame (b : Browser) : nat * Browser :=
  (length (frames b), upd_frames (frames b ++ [true]) b).

Definition cancelAnimationFrame (i : nat) (b : Browser) : Browser :=
  upd_frames (alter (fun _ => false) i (frames b)) b.

Definition contextOpen (b : Browser) (ref : option nat) : bool :=
  match ref with
  | Some i => match contexts b !! i with
              | Some CtxRunning => true
              | _ => false
              end
  | None => false
  end.

Definition closeContext (i : nat) (b : Browser) : Browser :=
  upd_contexts (alter (fun _ => CtxClosed) i (contexts b)) b.

Definition newContext (b : Browser) : nat * Browser :=
  (length (contexts b), upd_contexts (contexts b ++ [CtxRunning]) b).

Definition newTracks (ks : list TrackKind) (b : Browser) : Stream * Browser :=
  (seq (length (tracks b)) (length ks),
   upd_tracks
     (tracks b ++
      map (fun k => {| kind := k; live := true; onended := None |}) ks) b).

(** ** The component *)

Definition setIsCapturing v := on_st (upd_isCapturing v).
Definition setIsPaused v := on_st (upd_isPaused v).
Definition setRecordingTime v := on_st (upd_recordingTime v).
Definition setAudioLevel v := on_st (upd_audioLevel v).
Definition setMeetingId v := on_st (upd_meetingId v).
Definition setLiveTranscript v := on_st (upd_liveTranscript v).
Definition setError v := on_st (upd_error v).
Definition setStatus v := on_st (upd_status v).
Definition setAudioChunks v := on_st (upd_audioChunks v).

Definition consoleError (e : JsError) : World -> World :=
  on_obs (fun o => {| notified := notified o;
                      consoleErrors := consoleErrors o ++ [e];
                      levelReads := levelReads o; stopRuns := stopRuns o |}).

Definition onMeetingCreated (v : jsval) : World -> World :=
  on_obs (fun o => {| notified := notified o ++ [v];
                      consoleErrors := consoleErrors o;
                      levelReads := levelReads o; stopRuns := stopRuns o |}).

Definition countLevelRead : World -> World :=
  on_obs (fun o => {| notified := notified o;
                      consoleErrors := consoleErrors o;
                      levelReads := S (levelReads o); stopRuns := stopRuns o |}).

Definition countStopRun : World -> World :=
  on_obs (fun o => {| notified := notified o;
                      consoleErrors := consoleErrors o;
                      levelReads := levelReads o; stopRuns := S (stopRuns o) |}).

(** [stream.getTracks().forEach(t => t.stop()); ref.current = null]
    under [if (ref.current)]. *)
Definition releaseStream (ref : Refs -> option Stream)
    (clear : Refs -> Refs) (w : World) : World :=
  match ref (refs w) with
  | Some s => on_refs clear (on_dom (stopTracks s) w)
  | None => w
  end.

(** [cleanup].  The animation-frame ref is not reset; the transcription
    recorder ref is reset only when that recorder was still active; the
    archival recorder ref is kept.  ([transcriptionChunksRef] is written
    here and read nowhere: it is left out.) *)
Definition cleanup (w : World) : World :=
  let w := match animationFrameRef (refs w) with
           | Some f => on_dom (cancelAnimationFrame f) w
           | None => w
           end in
  let w := match transcriptionTimerRef (refs w) with
           | Some t => on_refs (upd_transcriptionTimerRef None)
                         (on_dom (clearInterval t) w)
           | None => w
           end in
  let w := match transcriptionRecorderRef (refs w) with
           | Some i =>
               if recorderActive (dom w) (Some i)
               then on_refs (upd_transcriptionRecorderRef None)
                      (on_dom (recorderStop i) w)
               else w
           | None => w
           end in
  let w := match mediaRecorderRef (refs w) with
           | Some i =>
               if recorderActive (dom w) (Some i)
               then on_dom (recorderStop i) w else w
           | None => w
           end in
  let w := releaseStream systemStreamRef (upd_systemStreamRef None) w in
  let w := releaseStream micStreamRef (upd_micStreamRef None) w in
  let w := releaseStream combinedStreamRef (upd_combinedStreamRef None) w in
  match audioContextRef (refs w) with
  | Some c =>
      if contextOpen (dom w) (Some c)
      then on_refs (upd_audioContextRef None) (on_dom (closeContext c) w)
      else w
  | None => w
  end.

(** Answers of the permission prompts. *)
Inductive DisplayOutcome :=
| DisplayGranted (ks : list TrackKind)   (* the tracks of the stream *)
| DisplayFailed (e : JsError).

Inductive MicOutcome := MicGranted | MicFailed (e : JsError).

Definition quote : jsstring := [34%N].

Definition noAudioMessage : jsstring :=
  js "No audio captured. When selecting a screen/tab, make sure to check "
  ++ quote ++ js "Share audio" ++ quote ++ js " or " ++ quote
  ++ js "Share tab audio" ++ quote ++ js " at the bottom of the dialog.".

Definition noAudioError : JsError :=
  {| err_name := js "Error"; err_message := noAudioMessage |}.

Definition cancelledError : JsError :=
  mkError "Screen sharing was cancelled. Please try again and select a screen/tab with audio.".

(** The [catch] of [captureSystemAudio]. *)
Definition captureSystemAudio_catch (err : JsError) : JsError :=
  if bool_decide (err_name err = js "NotAllowedError")
  then cancelledError else err.

(** [captureSystemAudio], resumed with the answer of [getDisplayMedia]. *)
Definition captureSystemAudio (o : DisplayOutcome) (w : World)
    : World * (JsError + Stream) :=
  match o with
  | DisplayFailed e => (w, inl (captureSystemAudio_catch e))
  | DisplayGranted ks =>
      let '(displayStream, b) := newTracks ks (dom w) in
      let audioTracks := getAudioTracks b displayStream in
      match audioTracks with
      | [] =>
          (on_dom (fun _ => stopTracks displayStream b) w,
           inl (captureSystemAudio_catch noAudioError))
      | _ :: _ =>
          (on_dom (fun _ => stopTracks (getVideoTracks b displayStream) b) w,
           inr audioTracks)
      end
  end.

(** [captureMicAudio]: a granted microphone stream has one audio track. *)
Definition captureMicAudio (o : MicOutcome) (w : World)
    : World * (JsError + Stream) :=
  match o with
  | MicFailed e => (w, inl e)
  | MicGranted =>
      let '(s, b) := newTracks [KAudio] (dom w) in
      (on_dom (fun _ => b) w, inr s)
  end.

(** [combineStreams]: a new audio context whose destination node owns
    the one audio track of the returned stream.  (The gains, 1.0 for the
    system source and 0.8 for the microphone, do not influence control
    flow and are not represented.) *)
Definition combineStreams (w : World) : World * Stream :=
  let '(c, b) := newContext (dom w) in
  let '(s, b) := newTracks [KAudio] b in
  (on_refs (upd_audioContextRef (Some c)) (on_dom (fun _ => b) w), s).

(** *** Level monitor *)

(** [analyser.frequencyBinCount] for [fftSize = 256]. *)
Definition frequencyBinCount : Z := 128.

Definition sumZ (l : list Z) : Z := foldl Z.add 0 l.

(** [Math.min(100, (average / 128) * 100)]. *)
Definition levelOf (dataArray : list Z) : Q :=
  let average := (inject_Z (sumZ dataArray) / inject_Z frequencyBinCount)%Q in
  Qmin 100 ((average / 128) * 100)%Q.

(** [updateLevel]; [dataArray] is what [getByteFrequencyData] delivers. *)
Definition updateLevel (dataArray : list Z) (w : World) : World :=
  if negb (analyserRef (refs w)) || negb (isCapturingRef (refs w)) then w
  else
    let w := countLevelRead w in
    let w := setAudioLevel (levelOf dataArray) w in
    let '(f, b) := requestAnimationFrame (dom w) in
    on_refs (upd_animationFrameRef (Some f)) (on_dom (fun _ => b) w).

(** [setupAudioVisualization]: reuses the mixer's context or creates
    one, attaches the analyser, and calls [updateLevel] once. *)
Definition setupAudioVisualization (dataArray : list Z) (w : World) : World :=
  let w := match audioContextRef (refs w) with
           | Some _ => w
           | None =>
               let '(c, b) := newContext (dom w) in
               on_refs (upd_audioContextRef (Some c)) (on_dom (fun _ => b) w)
           end in
  let w := on_refs (upd_analyserRef true) w in
  updateLevel dataArray w.

(** *** Transcription uploader *)

Definition park (k : Cont) : World -> World :=
  on_net (fun n => {| calls := calls n; inflight := inflight n ++ [Some k] |}).

Definition request (c : Call) : World -> World :=
  on_net (fun n => {| calls := calls n ++ [c]; inflight := inflight n |}).

Definition settle (h : nat) : World -> World :=
  on_net (fun n => {| calls := calls n;
                      inflight := <[h := None]> (inflight n) |}).

(** [sendBlobForTranscription], up to the [await] on the file reader. *)
Definition sendBlobForTranscription (r : RState) (blobSize : Z) (w : World)
    : World :=
  if negb (truthy (meetingIdRef (refs w))) || negb (isCapturingRef (refs w))
  then w
  else if blobSize <? 1000 then w
  else park (KRead r blobSize) (on_refs (upd_isTranscribingRef true) w).

(** How a [try] body ends. *)
Inductive Completion := Normal (w : World) | Throw (w : World) (e : JsError).

(** [catch (err) { console.error(...) } finally { isTranscribingRef.current
    = false }] of [sendBlobForTranscription]: whatever the body did, the
    function returns normally. *)
Definition sendBlob_handlers (c : Completion) : Completion :=
  match c with
  | Normal w => Normal (on_refs (upd_isTranscribingRef false) w)
  | Throw w e => Normal (on_refs (upd_isTranscribingRef false) (consoleError e w))
  end.

(** After the file reader: it failed ([reject]), or the request is
    issued and awaited. *)
Definition sendBlob_afterRead (r : RState) (blobSize : Z) (readOk : bool)
    (readError : JsError) (w : World) : Completion :=
  if readOk
  then Normal
         (park (KTranscribe r)
            (request {| c_method := POST; c_endpoint := TranscribeAudio;
                        c_body := TranscribeBody blobSize (selectedLanguage r)
                                    (meetingIdRef (refs w)) (currentSpeaker r) |}
               w))
  else sendBlob_handlers (Throw w readError).

Definition typeError : JsError :=
  {| err_name := js "TypeError";
     err_message := js "data.text.trim is not a function" |}.

(** What the clock reads when an event is handled. *)
Record Clock := {
  now : Z;                          (* Date.now() *)
  localeTime : jsstring;            (* new Date().toLocaleTimeString() *)
  localeDate : jsstring;            (* new Date().toLocaleDateString() *)
  iso : jsstring                    (* new Date().toISOString() *)
}.

(** The [try] body after the request settled. *)
Definition sendBlob_body (clk : Clock) (r : RState) (o : NetOutcome)
    (w : World) : Completion :=
  match o with
  | Rejected e => Throw w e
  | Resolved resp =>
      if resp_ok resp then
        match resp_json resp with
        | inl e => Throw w e
        | inr data =>
            match d_text data with
            | JStr s =>
                (* data.text && data.text.trim() *)
                if strTruthy s && strTruthy (trim s) then
                  let entry := {| id := now clk;
                                  speaker := currentSpeaker r;
                                  text := trim s;
                                  timestamp := localeTime clk;
                                  confidence := 85 # 100 |} in
                  Normal (setLiveTranscript
                            (liveTranscript (st w) ++ [entry]) w)
                else Normal w
            | v => if truthy v then Throw w typeError else Normal w
            end
        end
      else Normal w
  end.

Definition sendBlob_afterReply (clk : Clock) (r : RState) (o : NetOutcome)
    (w : World) : Completion :=
  sendBlob_handlers (sendBlob_body clk r o w).

(** *** Cycling transcription recorder *)

(** [startTranscriptionRecorder], in render [r]. *)
Definition startTranscriptionRecorder (r : RState) (w : World) : World :=
  match activeStreamRef (refs w) with
  | None => w
  | Some stream =>
      match getAudioTracks (dom w) stream with
      | [] => w
      | _ :: _ =>
          if canRecord (dom w) stream then
            let '(i, b) := newRecorder stream 1000 (Cycle r) (dom w) in
            on_refs (upd_transcriptionRecorderRef (Some i))
              (on_dom (fun _ => b) w)
          else consoleError notSupported w
      end
  end.

(** [cycleTranscriptionRecorder]. *)
Definition cycleTranscriptionRecorder (r : RState) (w : World) : World :=
  let w := match transcriptionRecorderRef (refs w) with
           | Some i =>
               if recorderActive (dom w) (Some i)
               then on_dom (recorderStop i) w else w
           | None => w
           end in
  if isCapturingRef (refs w) then startTranscriptionRecorder r w else w.

(** [startServerTranscription]. *)
Definition startServerTranscription (r : RState) (w : World) : World :=
  let w := on_refs (upd_isTranscribingRef false) w in
  let w := startTranscriptionRecorder r w in
  let '(t, b) := setInterval r 10000 (dom w) in
  on_refs (upd_transcriptionTimerRef (Some t)) (on_dom (fun _ => b) w).

(** [stopServerTranscription]: an [async] function without [await]. *)
Definition stopServerTranscription (w : World) : World :=
  let w := match transcriptionTimerRef (refs w) with
           | Some t => on_refs (upd_transcriptionTimerRef None)
                         (on_dom (clearInterval t) w)
           | None => w
           end in
  let w := match transcriptionRecorderRef (refs w) with
           | Some i =>
               if recorderActive (dom w) (Some i)
               then on_dom (recorderStop i) w else w
           | None => w
           end in
  on_refs (upd_transcriptionRecorderRef None) w.

(** [recorder.ondataavailable] of either recorder. *)
Definition pushChunk (size : Z) (r : Recorder) : Recorder :=
  if 0 <? size then
    {| rec_stream := rec_stream r; rec_state := rec_state r;
       rec_timeslice := rec_timeslice r; rec_chunks := rec_chunks r ++ [size];
       rec_role := rec_role r; rec_stopQueued := rec_stopQueued r |}
  else r.

(** A [Blob] is known by its size, the sum of the sizes of its parts. *)
Definition blobOf (chunks : list Z) : Z := sumZ chunks.

(** [recorder.onstop], by role. *)
Definition onstop (rc : Recorder) (w : World) : World :=
  match rec_role rc with
  | Cycle r =>
      match rec_chunks rc with
      | [] => w
      | _ :: _ => sendBlobForTranscription r (blobOf (rec_chunks rc)) w
      end
  | FullSession => setAudioChunks (rec_chunks rc) w
  end.

(** *** Start *)

Record StartOracle := {
  so_display : DisplayOutcome;      (* answer of getDisplayMedia *)
  so_mic : MicOutcome;              (* answer of getUserMedia *)
  so_reply : NetOutcome;            (* answer of POST /recording/start *)
  so_level : list Z                 (* first analyser reading *)
}.

Definition captureFailedMessage : jsstring :=
  js "Failed to capture audio. Please try again.".

(** The [catch] of [startCapture]. *)
Definition startCapture_catch (err : JsError) (w : World) : World :=
  let w := consoleError err w in
  let w := setError (if strTruthy (err_message err) then err_message err
                     else captureFailedMessage) w in
  let w := setStatus Idle w in
  cleanup w.

Definition installOnended (r : RState) (t : Track) : Track :=
  {| kind := kind t; live := live t; onended := Some r |}.

(** [meetingTitle || `Captured Meeting ${new Date().toLocaleDateString()}`]. *)
Definition titleOrDefault (clk : Clock) (r : RState) : jsstring :=
  if strTruthy (meetingTitle r) then meetingTitle r
  else js "Captured Meeting " ++ localeDate clk.

(** The part of [startCapture] that follows the acquisition of the
    active stream. *)
Definition startCapture_session (clk : Clock) (r : RState)
    (o : StartOracle) (activeStream : Stream) (w : World) : World :=
  match getAudioTracks (dom w) activeStream with
  | [] =>
      startCapture_catch
        (mkError "No audio stream available. Please ensure you selected a source with audio.") w
  | audioTracks =>
      let w := on_dom (fun b =>
                 upd_tracks
                   (foldl (fun ts i => alter (installOnended r) i ts)
                      (tracks b) audioTracks) b) w in
      let w := setupAudioVisualization (so_level o) w in
      let w := request {| c_method := POST; c_endpoint := RecordingStart;
                          c_body := StartBody (titleOrDefault clk r)
                                      (selectedLanguage r) |} w in
      match so_reply o with
      | Rejected e => startCapture_catch e w
      | Resolved resp =>
          if negb (resp_ok resp)
          then startCapture_catch (mkError "Failed to start recording session") w
          else
            match resp_json resp with
            | inl e => startCapture_catch e w
            | inr data =>
                let w := setMeetingId (d_meeting_id data) w in
                let w := on_refs (upd_meetingIdRef (d_meeting_id data)) w in
                let w := on_refs (upd_activeStreamRef (Some activeStream)) w in
                let w := if canRecord (dom w) activeStream then
                           let '(i, b) :=
                             newRecorder activeStream 1000 FullSession (dom w) in
                           on_refs (upd_mediaRecorderRef (Some i))
                             (on_dom (fun _ => b) w)
                         else consoleError notSupported w in
                let w := setIsCapturing true w in
                let w := on_refs (upd_isCapturingRef true) w in
                let w := startServerTranscription r w in
                let w := setIsPaused false w in
                let w := setRecordingTime 0 w in
                let w := setLiveTranscript [] w in
                setStatus Capturing w
            end
      end
  end.

(** [startCapture], in render [r].  Its awaits (two permission prompts,
    one request) are answered by the oracle within this step: while the
    start sequence is suspended the page shows the setup form with the
    Start button disabled, and no recorder or timer of the new session
    exists yet. *)
Definition startCapture (clk : Clock) (r : RState) (o : StartOracle)
    (w : World) : World :=
  let w := setError [] w in
  let w := setStatus Requesting w in
  let '(w, res) := captureSystemAudio (so_display o) w in
  match res with
  | inl e => startCapture_catch e w
  | inr sysStream =>
      let w := on_refs (upd_systemStreamRef (Some sysStream)) w in
      match captureSource r with
      | SrcMicSystem =>
          let '(w, res) := captureMicAudio (so_mic o) w in
          match res with
          | inl e => startCapture_catch e w
          | inr micStream =>
              let w := on_refs (upd_micStreamRef (Some micStream)) w in
              let '(w, activeStream) := combineStreams w in
              let w := on_refs (upd_combinedStreamRef (Some activeStream)) w in
              startCapture_session clk r o activeStream w
          end
      | SrcSystem | SrcTab => startCapture_session clk r o sysStream w
      end
  end.

(** *** Pause and resume *)

(** [togglePause], in render [r]. *)
Definition togglePause (r : RState) (w : World) : World :=
  if isPaused r then
    let w := if recorderHasState (dom w) (mediaRecorderRef (refs w)) Paused
             then match mediaRecorderRef (refs w) with
                  | Some i => on_dom (recorderResume i) w
                  | None => w
                  end
             else w in
    let w := startServerTranscription r w in
    setIsPaused false w
  else
    let w := if recorderHasState (dom w) (mediaRecorderRef (refs w)) Recording
             then match mediaRecorderRef (refs w) with
                  | Some i => on_dom (recorderPause i) w
                  | None => w
                  end
             else w in
    let w := stopServerTranscription w in
    setIsPaused true w.

(** *** Stop *)

Definition formatEntry (e : TranscriptEntry) : jsstring :=
  speaker e ++ js " (" ++ timestamp e ++ js "): " ++ text e.

(** [Array.prototype.join]. *)
Fixpoint join (sep : jsstring) (l : list jsstring) : jsstring :=
  match l with
  | [] => []
  | [x] => x
  | x :: rest => x ++ sep ++ join sep rest
  end.

(** [liveTranscript.map(...).join('\n\n')]. *)
Definition fullTranscript (l : list TranscriptEntry) : jsstring :=
  join [10%N; 10%N] (map formatEntry l).

Definition saveFailedMessage : jsstring :=
  js "Failed to save recording. Please try again.".

(** The [catch] of [stopCapture]. *)
Definition stopCapture_catch (err : JsError) (w : World) : World :=
  let w := consoleError err w in
  let w := setError saveFailedMessage w in
  setStatus Idle w.

(** The "Reset state" block of [stopCapture]. *)
Definition stopCapture_reset (w : World) : World :=
  let w := setIsCapturing false w in
  let w := on_refs (upd_isCapturingRef false) w in
  let w := setIsPaused false w in
  let w := setRecordingTime 0 w in
  let w := setAudioLevel 0 w in
  let w := setMeetingId JNull w in
  let w := on_refs (upd_meetingIdRef JNull) w in
  setStatus Idle w.

Definition transcriptCall (clk : Clock) (r : RState) : Call :=
  {| c_method := POST; c_endpoint := Transcription (meetingId r);
     c_body := TranscriptBody (fullTranscript (liveTranscript r))
                 (currentSpeaker r, length (liveTranscript r))
                 (selectedLanguage r) (iso clk) (iso clk) |}.

Definition meetingCall (clk : Clock) (r : RState) : Call :=
  {| c_method := PUT; c_endpoint := Meetings (meetingId r);
     c_body := MeetingBody (titleOrDefault clk r) (meetingDescription r)
                 (selectedFolder r) (js "completed") |}.

Definition recordingStopCall (r : RState) : Call :=
  {| c_method := POST; c_endpoint := RecordingStop (meetingId r);
     c_body := NoBody |}.

(** [stopCapture], in render [r], up to its first [await] on the
    network.  [await stopServerTranscription()] only yields to the
    microtask queue. *)
Definition stopCapture (clk : Clock) (r : RState) (w : World) : World :=
  let w := countStopRun w in
  let w := setStatus Stopping w in
  let w := stopServerTranscription w in
  let w := match mediaRecorderRef (refs w) with
           | Some i =>
               if recorderActive (dom w) (Some i)
               then on_dom (recorderStop i) w else w
           | None => w
           end in
  let w := cleanup w in
  if truthy (meetingId r)
  then park (KStopTranscript r) (request (transcriptCall clk r) w)
  else stopCapture_reset w.

(** [stopCapture] resumed after one of its three requests settled.  The
    responses are not inspected. *)
Definition stopCapture_resume (clk : Clock) (k : Cont) (o : NetOutcome)
    (w : World) : World :=
  match o with
  | Rejected e => stopCapture_catch e w
  | Resolved _ =>
      match k with
      | KStopTranscript r => park (KStopMeeting r) (request (meetingCall clk r) w)
      | KStopMeeting r => park (KStopRecording r) (request (recordingStopCall r) w)
      | KStopRecording r =>
          stopCapture_reset (onMeetingCreated (meetingId r) w)
      | _ => w
      end
  end.

(** [track.onended], installed in render [r]. *)
Definition onendedHandler (clk : Clock) (r : RState) (w : World) : World :=
  if isCapturingRef (refs w) then stopCapture clk r w else w.

(** ** Events *)

Inductive Event :=
(* the setup form, rendered while [!isCapturing] *)
| SetMeetingTitle (s : jsstring)
| SetMeetingDescription (s : jsstring)
| SetCaptureSource (c : CaptureSource)
| SetSelectedLanguage (s : jsstring)
| SetSelectedFolder (v : jsval)
(* buttons *)
| ClickStart (o : StartOracle)
| ClickPause
| ClickStop
(* I/O completions *)
| ReaderDone (h : nat) (readOk : bool) (e : JsError)
| NetReply (h : nat) (o : NetOutcome)
(* browser callbacks *)
| TimerFired (t : nat)
| SecondElapsed
| DataAvailable (i : nat) (size : Z)
| RecorderStopped (i : nat) (size : Z)
| TrackEnded (t : nat)
| AnimationFrame (f : nat) (dataArray : list Z)
(* React *)
| Commit.

(** [disabled={!meetingTitle.trim() || status === 'requesting'}] on a
    button rendered under [!isCapturing]. *)
Definition startEnabled (s : RState) : bool :=
  negb (isCapturing s) &&
  negb (negb (strTruthy (trim (meetingTitle s))) ||
        match status s with Requesting => true | _ => false end).

(** The pause button is rendered under [isCapturing], never disabled. *)
Definition pauseEnabled (s : RState) : bool := isCapturing s.

(** [disabled={status === 'stopping'}] under [isCapturing]. *)
Definition stopEnabled (s : RState) : bool :=
  isCapturing s && negb match status s with Stopping => true | _ => false end.

Definition completed (c : Completion) : World :=
  match c with Normal w => w | Throw w _ => w end.

Definition formEdit (f : RState -> RState) (w : World) : World :=
  if isCapturing (st w) then w else on_st f w.

(** The effect of lines 82-90, run at a commit: its cleanup clears the
    interval of the previous commit, and a new one is scheduled while
    the page is capturing and not paused. *)
Definition commit (w : World) : World :=
  on_dom (upd_ticker (isCapturing (st w) && negb (isPaused (st w)))) w.

(** One task of the event loop.  A handler triggered from the page sees
    the current render [st w]; a stored callback sees its own.  The
    elapsed-time effect depends on [isCapturing] and [isPaused] only.
    [togglePause] sets [isPaused] inside the click handler, so the
    commit is part of its step; [startCapture] and [stopCapture] set
    the two after an [await], also when run from a callback, and the
    commit of such an update is the event [Commit], which may follow at
    once.  The tick of the elapsed-time interval is
    [setRecordingTime(prev => prev + 1)], whatever the state is by
    then. *)
Definition step (clk : Clock) (e : Event) (w : World) : World :=
  match e with
  | SetMeetingTitle s => formEdit (upd_meetingTitle s) w
  | SetMeetingDescription s => formEdit (upd_meetingDescription s) w
  | SetCaptureSource c => formEdit (upd_captureSource c) w
  | SetSelectedLanguage s => formEdit (upd_selectedLanguage s) w
  | SetSelectedFolder v => formEdit (upd_selectedFolder v) w
  | ClickStart o =>
      if startEnabled (st w) then startCapture clk (st w) o w else w
  | ClickPause =>
      if pauseEnabled (st w) then commit (togglePause (st w) w) else w
  | ClickStop =>
      if stopEnabled (st w) then stopCapture clk (st w) w else w
  | ReaderDone h readOk err =>
      match inflight (net w) !! h with
      | Some (Some (KRead r blobSize)) =>
          completed (sendBlob_afterRead r blobSize readOk err (settle h w))
      | _ => w
      end
  | NetReply h o =>
      match inflight (net w) !! h with
      | Some (Some (KTranscribe r)) =>
          completed (sendBlob_afterReply clk r o (settle h w))
      | Some (Some (KRead _ _)) => w
      | Some (Some k) => stopCapture_resume clk k o (settle h w)
      | _ => w
      end
  | TimerFired t =>
      match intervals (dom w) !! t with
      | Some i =>
          if int_active i then cycleTranscriptionRecorder (int_closure i) w
          else w
      | None => w
      end
  | SecondElapsed =>
      if ticker (dom w)
      then setRecordingTime (recordingTime (st w) + 1) w else w
  | DataAvailable i size =>
      match recorders (dom w) !! i with
      | Some rc =>
          match rec_state rc with
          | Recording =>
              on_dom (fun b => upd_recorders
                                 (alter (pushChunk size) i (recorders b)) b) w
          | _ => w
          end
      | None => w
      end
  | RecorderStopped i size =>
      match recorders (dom w) !! i with
      | Some rc =>
          if rec_stopQueued rc then
            let rc := pushChunk size (withState Inactive false rc) in
            onstop rc
              (on_dom (fun b => upd_recorders (<[i := rc]> (recorders b)) b) w)
          else w
      | None => w
      end
  | TrackEnded t =>
      match tracks (dom w) !! t with
      | Some tr =>
          if live tr then
            let w := on_dom (stopTrack t) w in
            match onended tr with
            | Some r => onendedHandler clk r w
            | None => w
            end
          else w
      | None => w
      end
  | AnimationFrame f dataArray =>
      match frames (dom w) !! f with
      | Some true =>
          updateLevel dataArray (on_dom (cancelAnimationFrame f) w)
      | _ => w
      end
  | Commit => commit w
  end.

Fixpoint run (tr : list (Clock * Event)) (w : World) : World :=
  match tr with
  | [] => w
  | (clk, e) :: tr' => run tr' (step clk e w)
  end.

(** The page as first rendered, in a browser that has (or lacks) the
    Opus-in-WebM encoder. *)
Definition initialState : RState :=
  {| isCapturing := false; isPaused := false; recordingTime := 0;
     audioLevel := 0; captureSource := SrcSystem; meetingTitle := [];
     meetingDescription := []; selectedLanguage := js "en-US";
     selectedFolder := JStr (js "recent"); meetingId := JNull;
     liveTranscript := []; currentSpeaker := js "Speaker"; error := [];
     status := Idle; audioChunks := [] |}.

Definition initialRefs : Refs :=
  {| systemStreamRef := None; micStreamRef := None; combinedStreamRef := None;
     audioContextRef := None; analyserRef := false; mediaRecorderRef := None;
     animationFrameRef := None; isCapturingRef := false; meetingIdRef := JNull;
     transcriptionRecorderRef := None; transcriptionTimerRef := None;
     isTranscribingRef := false; activeStreamRef := None |}.

Definition initial (encoder : bool) : World :=
  {| st := initialState; refs := initialRefs;
     dom := {| tracks := []; recorders := []; contexts := []; intervals := [];
               frames := []; encoderSupported := encoder; ticker := false |};
     net := {| calls := []; inflight := [] |};
     obs := {| notified := []; consoleErrors := []; levelReads := 0;
               stopRuns := 0 |} |}.

(** Worlds the page can be in. *)
Inductive reachable : World -> Prop :=
| reachable_initial encoder : reachable (initial encoder)
| reachable_step clk e w : reachable w -> reachable (step clk e w).

(** ** The life of the page *)

(** [onMeetingCreated] has been called: [App] has set its view to the
    meeting, and the commit that follows replaces the page. *)
Definition handedOver (w : World) : bool :=
  match notified (obs w) with [] => false | _ :: _ => true end.

(** The effect cleanups React runs when it removes the page: the
    elapsed-time interval is cleared (line 89) and [cleanup] runs
    (line 79). *)
Definition unmount (w : World) : World :=
  on_dom (upd_ticker false) (cleanup w).

(** The page is on screen; or it has handed its meeting to the host and
    awaits the commit that removes it; or it has been removed.  The
    browser objects, the refs and the pending I/O of a removed page
    live on. *)
Inductive Life := Mounted (w : World) | Leaving (w : World) | Gone (w : World).

Definition worldOf (l : Life) : World :=
  match l with Mounted w => w | Leaving w => w | Gone w => w end.

Inductive PageEvent :=
| Page (e : Event)
| Navigate.          (* the host shows another view: sidebar, back button *)

(** Completions of I/O and callbacks of browser objects: the events
    that do not come from the controls of the page. *)
Definition isCallback (e : Event) : bool :=
  match e with
  | ReaderDone _ _ _ | NetReply _ _ | TimerFired _ | SecondElapsed
  | DataAvailable _ _ | RecorderStopped _ _ | TrackEnded _
  | AnimationFrame _ _ => true
  | _ => false
  end.

(** React drops the state updates of a removed component. *)
Definition dropState (w w' : World) : World := on_st (fun _ => st w) w'.

(** One task in the life of the page.  A page that is leaving still
    shows the render of the stop sequence, and is removed by the next
    commit (the few milliseconds in between see callbacks, and no click
    is taken there); a removed page still receives the callbacks of its
    browser objects and the completions of its I/O. *)
Definition live_step (clk : Clock) (e : PageEvent) (l : Life) : Life :=
  match l with
  | Mounted w =>
      match e with
      | Navigate => Gone (unmount w)
      | Page e =>
          let w' := step clk e w in
          if handedOver w' then Leaving w' else Mounted w'
      end
  | Leaving w =>
      match e with
      | Navigate | Page Commit => Gone (unmount w)
      | Page e => if isCallback e then Leaving (step clk e w) else Leaving w
      end
  | Gone w =>
      match e with
      | Page e =>
          if isCallback e then Gone (dropState w (step clk e w)) else Gone w
      | Navigate => Gone w
      end
  end.

Fixpoint live_run (tr : list (Clock * PageEvent)) (l : Life) : Life :=
  match tr with
  | [] => l
  | (clk, e) :: tr' => live_run tr' (live_step clk e l)
  end.

Inductive alive : Life -> Prop :=
| alive_initial encoder : alive (Mounted (initial encoder))
| alive_step clk e l : alive l -> alive (live_step clk e l).

(** ** Scenarios used by the witnesses and counterexamples *)

Definition clockAt (t : Z) : Clock :=
  {| now := t; localeTime := js "10:00:00"; localeDate := js "1/1/2026";
     iso := js "2026-01-01T10:00:00.000Z" |}.

Definition replyOk (mid text : jsval) : NetOutcome :=
  Resolved {| resp_ok := true;
              resp_json := inr {| d_text := text; d_meeting_id := mid |} |}.

Definition replyStatus500 : NetOutcome :=
  Resolved {| resp_ok := false;
              resp_json := inr {| d_text := JUndefined;
                                  d_meeting_id := JUndefined |} |}.

(** The user shares a surface with tracks [ks]; the backend opens
    meeting [mid]. *)
Definition systemShare (ks : list TrackKind) (mid : jsval) : StartOracle :=
  {| so_display := DisplayGranted ks; so_mic := MicGranted;
     so_reply := replyOk mid JUndefined; so_level := [] |}.

(** A session titled "Standup" capturing one shared audio track (and a
    discarded video track), meeting 7. *)
Definition standup (encoder : bool) : World :=
  run [(clockAt 0, SetMeetingTitle (js "Standup"));
       (clockAt 1, ClickStart (systemShare [KVideo; KAudio] (JNum 7)))]
    (initial encoder).

(** The render in which [standup] was started. *)
Definition standupRender : RState :=
  st (step (clockAt 0) (SetMeetingTitle (js "Standup")) (initial true)).

Definition someError : JsError := mkError "Failed to fetch".

(** [standup] after its first cycle: the segment of the first recorder
    (2700 bytes) has been read and its upload is in flight (handle 1). *)
Definition uploading : World :=
  run [(clockAt 1500, DataAvailable 1 2400);
       (clockAt 10001, TimerFired 0);
       (clockAt 10002, RecorderStopped 1 300);
       (clockAt 10010, ReaderDone 0 true someError)] (standup true).

(** The response is successful and carries a text that is not empty
    after trimming; [s] is the trimmed text. *)
Definition successfulText (o : NetOutcome) (s : jsstring) : Prop :=
  exists resp data raw,
    o = Resolved resp /\ resp_ok resp = true /\ resp_json resp = inr data /\
    d_text data = JStr raw /\ s = trim raw /\ s <> [].

(** The entry built from the trimmed text [s] in render [r]. *)
Definition entryAt (clk : Clock) (r : RState) (s : jsstring)
    : TranscriptEntry :=
  {| id := now clk; speaker := currentSpeaker r; text := s;
     timestamp := localeTime clk; confidence := 85 # 100 |}.

(** An encoder can be created and started on the active stream: the
    guards of [startTranscriptionRecorder] pass and neither the
    constructor nor [start] throws. *)
Definition encoderCreatable (w : World) : bool :=
  match activeStreamRef (refs w) with
  | Some stream =>
      match getAudioTracks (dom w) stream with
      | [] => false
      | _ :: _ => canRecord (dom w) stream
      end
  | None => false
  end.

(** Between [w] and [w'] a fresh cycling encoder was started: a new
    recorder, recording with a one-second timeslice and no data yet,
    that [transcriptionRecorderRef] now designates. *)
Definition startedEncoder (w w' : World) : Prop :=
  exists rc,
    recorders (dom w') !! length (recorders (dom w)) = Some rc /\
    rec_state rc = Recording /\ rec_timeslice rc = 1000 /\
    rec_chunks rc = [] /\
    activeStreamRef (refs w) = Some (rec_stream rc) /\
    transcriptionRecorderRef (refs w') = Some (length (recorders (dom w))).

(** The guards of [startTranscriptionRecorder] pass, but the
    constructor or [start] throws: the [catch] logs the error. *)
Definition encoderRefused (w : World) : bool :=
  match activeStreamRef (refs w) with
  | Some stream =>
      match getAudioTracks (dom w) stream with
      | [] => false
      | _ :: _ => negb (canRecord (dom w) stream)
      end
  | None => false
  end.

(** The chunks of a recorder once its stop event, with [size] bytes of
    final data, has been handled. *)
Definition finalChunks (rc : Recorder) (size : Z) : list Z :=
  rec_chunks rc ++ (if 0 <? size then [size] else []).

(** No animation-frame callback is pending. *)
Definition noFramePending (b : Browser) : Prop :=
  Forall (fun pending => pending = false) (frames b).

(** The capturing flag mirrors the [isCapturing] state, no frame is
    pending and the analyser has never been read. *)
Definition monitorIdle (w : World) : Prop :=
  isCapturing (st w) = isCapturingRef (refs w) /\
  noFramePending (dom w) /\
  levelReads (obs w) = 0%nat.
(** The ids of the live transcript, oldest entry first. *)
Definition ids (w : World) : list Z := map id (liveTranscript (st w)).

(** Later entries have strictly greater ids; in particular no two
    entries share an id. *)
Definition idsIncrease (l : list TranscriptEntry) : Prop :=
  forall i j a b,
    (i < j)%nat -> l !! i = Some a -> l !! j = Some b -> id a < id b.

(** The clock readings at which the replies of a run are handled. *)
Fixpoint replyClocks (tr : list (Clock * Event)) : list Z :=
  match tr with
  | [] => []
  | (clk, NetReply _ _) :: tr' => now clk :: replyClocks tr'
  | _ :: tr' => replyClocks tr'
  end.

(** [uploading] one cycle later: a second upload is in flight (handle 3)
    while the first (handle 1) has not been answered yet. *)
Definition twoUploads : World :=
  run [(clockAt 11500, DataAvailable 2 2400);
       (clockAt 20001, TimerFired 0);
       (clockAt 20002, RecorderStopped 2 300);
       (clockAt 20010, ReaderDone 2 true someError)] uploading.

(** Both answers arrive after a network stall and are handled within
    the same millisecond. *)
Definition sameMillisecond : list (Clock * Event) :=
  [(clockAt 20500, NetReply 1 (replyOk JUndefined (JStr (js "good morning"))));
   (clockAt 20500, NetReply 3 (replyOk JUndefined (JStr (js "let us start"))))].

(** The same run from the first render on, the second answer one
    millisecond later. *)
Definition distinctMilliseconds : list (Clock * Event) :=
  [(clockAt 0, SetMeetingTitle (js "Standup"));
   (clockAt 1, ClickStart (systemShare [KVideo; KAudio] (JNum 7)));
   (clockAt 1500, DataAvailable 1 2400);
   (clockAt 10001, TimerFired 0);
   (clockAt 10002, RecorderStopped 1 300);
   (clockAt 10010, ReaderDone 0 true someError);
   (clockAt 11500, DataAvailable 2 2400);
   (clockAt 20001, TimerFired 0);
   (clockAt 20002, RecorderStopped 2 300);
   (clockAt 20010, ReaderDone 2 true someError);
   (clockAt 20500, NetReply 1 (replyOk JUndefined (JStr (js "good morning"))));
   (clockAt 20501, NetReply 3 (replyOk JUndefined (JStr (js "let us start"))))].

(** [standup] about to be stopped: the current cycling recorder holds
    2400 bytes of audio. *)
Definition beforeStop : World :=
  step (clockAt 1500) (DataAvailable 1 2400) (standup true).

(** [uploading] once its upload has been answered with a text: the
    transcript holds one entry, and the current cycling recorder
    (handle 2) holds 2400 bytes of audio. *)
Definition talking : World :=
  run [(clockAt 10500,
        NetReply 1 (replyOk JUndefined (JStr (js "let us start"))));
       (clockAt 11500, DataAvailable 2 2400)] uploading.

(** After Stop was clicked in [talking]: the stop event of the recorder
    delivers the last 300 bytes, the segment is read (handle 3) and its
    upload issued (handle 4). *)
Definition finalFlush : list (Clock * PageEvent) :=
  [(clockAt 15002, Page (RecorderStopped 2 300));
   (clockAt 15010, Page (ReaderDone 3 true someError))].

(** A session capturing two shared audio tracks, meeting 7. *)
Definition twoTracks : World :=
  run [(clockAt 0, SetMeetingTitle (js "Standup"));
       (clockAt 1, ClickStart (systemShare [KAudio; KAudio] (JNum 7)))]
    (initial true).

(** The user stops sharing: both tracks end. *)
Definition sharingStopped : list (Clock * Event) :=
  [(clockAt 5000, TrackEnded 0); (clockAt 5000, TrackEnded 1)].

(** Stop is clicked; the transcript is saved, the metadata update is
    answered with status 500, the recording is finalized. *)
Definition stopWith500 : list (Clock * Event) :=
  [(clockAt 5000, ClickStop);
   (clockAt 5100, NetReply 0 (replyOk JUndefined JUndefined));
   (clockAt 5200, NetReply 1 replyStatus500);
   (clockAt 5300, NetReply 2 (replyOk JUndefined JUndefined))].

(** Pause, Stop, then Resume while the stop sequence is still saving;
    the three requests then succeed. *)
Definition resumeWhileSaving : list (Clock * Event) :=
  [(clockAt 4000, ClickPause);
   (clockAt 5000, ClickStop);
   (clockAt 5050, ClickPause);
   (clockAt 5100, NetReply 0 (replyOk JUndefined JUndefined));
   (clockAt 5200, NetReply 1 (replyOk JUndefined JUndefined));
   (clockAt 5300, NetReply 2 (replyOk JUndefined JUndefined))].

(** Stop fails on the network; the page keeps its capture controls and
    the user clicks Pause, then Resume. *)
Definition resumeAfterFailedStop : list (Clock * Event) :=
  [(clockAt 5000, ClickStop);
   (clockAt 5100, NetReply 0 (Rejected someError));
   (clockAt 6000, ClickPause);
   (clockAt 7000, ClickPause)].

(** Some cycle timer is scheduled. *)
Definition timerScheduled (w : World) : bool :=
  existsb int_active (intervals (dom w)).

(** Some cycling recorder is active. *)
Definition cyclingRecorderActive (w : World) : bool :=
  existsb (fun rc => match rec_role rc with
                     | Cycle _ => negb (isInactive (rec_state rc))
                     | FullSession => false
                     end) (recorders (dom w)).

(** The eight steps of [cleanup], one after the other, named for the
    proofs ([cleanup_unfold]). *)
Definition cleanup_steps : list (World -> World) :=
  [ (fun w => match animationFrameRef (refs w) with
              | Some f => on_dom (cancelAnimationFrame f) w
              | None => w
              end);
    (fun w => match transcriptionTimerRef (refs w) with
              | Some t => on_refs (upd_transcriptionTimerRef None)
                            (on_dom (clearInterval t) w)
              | None => w
              end);
    (fun w => match transcriptionRecorderRef (refs w) with
              | Some i =>
                  if recorderActive (dom w) (Some i)
                  then on_refs (upd_transcriptionRecorderRef None)
                         (on_dom (recorderStop i) w)
                  else w
              | None => w
              end);
    (fun w => match mediaRecorderRef (refs w) with
              | Some i =>
                  if recorderActive (dom w) (Some i)
                  then on_dom (recorderStop i) w else w
              | None => w
              end);
    releaseStream systemStreamRef (upd_systemStreamRef None);
    releaseStream micStreamRef (upd_micStreamRef None);
    releaseStream combinedStreamRef (upd_combinedStreamRef None);
    (fun w => match audioContextRef (refs w) with
              | Some c =>
                  if contextOpen (dom w) (Some c)
                  then on_refs (upd_audioContextRef None)
                         (on_dom (closeContext c) w)
                  else w
              | None => w
              end) ].

(** ** The handlers in stages

    The same handlers, cut at their intermediate worlds, so that a
    property can be followed stage by stage. *)

Definition stopArchiveRecorder (w : World) : World :=
  match mediaRecorderRef (refs w) with
  | Some i =>
      if recorderActive (dom w) (Some i)
      then on_dom (recorderStop i) w else w
  | None => w
  end.

(** The steps of [cleanup] by name ([cleanup_stages]). *)
Definition cleanup_frame (w : World) : World :=
  match animationFrameRef (refs w) with
  | Some f => on_dom (cancelAnimationFrame f) w
  | None => w
  end.

Definition cleanup_timer (w : World) : World :=
  match transcriptionTimerRef (refs w) with
  | Some t => on_refs (upd_transcriptionTimerRef None)
                (on_dom (clearInterval t) w)
  | None => w
  end.

Definition cleanup_cycleRecorder (w : World) : World :=
  match transcriptionRecorderRef (refs w) with
  | Some i =>
      if recorderActive (dom w) (Some i)
      then on_refs (upd_transcriptionRecorderRef None)
             (on_dom (recorderStop i) w)
      else w
  | None => w
  end.

Definition cleanup_context (w : World) : World :=
  match audioContextRef (refs w) with
  | Some c =>
      if contextOpen (dom w) (Some c)
      then on_refs (upd_audioContextRef None) (on_dom (closeContext c) w)
      else w
  | None => w
  end.

(** The first half of [cycleTranscriptionRecorder] and the second step
    of [stopServerTranscription]: stop the current cycling recorder. *)
Definition stopCycleRecorder (w : World) : World :=
  match transcriptionRecorderRef (refs w) with
  | Some i =>
      if recorderActive (dom w) (Some i)
      then on_dom (recorderStop i) w else w
  | None => w
  end.

(** [stopCapture] before it turns to the backend. *)
Definition stopCapture_release (w : World) : World :=
  cleanup
    (stopArchiveRecorder
       (stopServerTranscription (setStatus Stopping (countStopRun w)))).

Definition stopCapture_persist (clk : Clock) (r : RState) (w : World) : World :=
  if truthy (meetingId r)
  then park (KStopTranscript r) (request (transcriptCall clk r) w)
  else stopCapture_reset w.

Definition installHandlers (r : RState) (audioTracks : Stream) (w : World)
    : World :=
  on_dom (fun b =>
            upd_tracks
              (foldl (fun ts i => alter (installOnended r) i ts)
                 (tracks b) audioTracks) b) w.

Definition startCall (clk : Clock) (r : RState) : Call :=
  {| c_method := POST; c_endpoint := RecordingStart;
     c_body := StartBody (titleOrDefault clk r) (selectedLanguage r) |}.

Definition startArchiveRecorder (activeStream : Stream) (w : World) : World :=
  if canRecord (dom w) activeStream then
    on_refs (upd_mediaRecorderRef (Some (length (recorders (dom w)))))
      (on_dom (fun _ => (newRecorder activeStream 1000 FullSession (dom w)).2) w)
  else consoleError notSupported w.

(** The end of [startCapture], once the backend has opened the meeting. *)
Definition startCapture_begin (r : RState) (data : Data)
    (activeStream : Stream) (w : World) : World :=
  setStatus Capturing
    (setLiveTranscript []
       (setRecordingTime 0
          (setIsPaused false
             (startServerTranscription r
                (on_refs (upd_isCapturingRef true)
                   (setIsCapturing true
                      (startArchiveRecorder activeStream
                         (on_refs (upd_activeStreamRef (Some activeStream))
                            (on_refs (upd_meetingIdRef (d_meeting_id data))
                               (setMeetingId (d_meeting_id data) w)))))))))).

Definition startCapture_reply (r : RState) (o : StartOracle)
    (activeStream : Stream) (w : World) : World :=
  match so_reply o with
  | Rejected e => startCapture_catch e w
  | Resolved resp =>
      if negb (resp_ok resp)
      then startCapture_catch (mkError "Failed to start recording session") w
      else match resp_json resp with
           | inl e => startCapture_catch e w
           | inr data => startCapture_begin r data activeStream w
           end
  end.

(** The request log only grows. *)
Definition extends (w w' : World) : Prop :=
  exists l, calls (net w') = calls (net w) ++ l.

(** ** The transcription cycle: timers and cycling recorders *)

(** A recorder of the transcription cycle that is recording or paused. *)
Definition isCycling (rc : Recorder) : bool :=
  match rec_role rc with
  | Cycle _ => negb (isInactive (rec_state rc))
  | FullSession => false
  end.

(** Which cycle timers are scheduled, with the ref that should name
    them; which recorders are cycling, with theirs. *)
Definition timerPart (w : World) : list bool * option nat :=
  (map int_active (intervals (dom w)), transcriptionTimerRef (refs w)).

Definition cyclerPart (w : World) : list bool * option nat :=
  (map isCycling (recorders (dom w)), transcriptionRecorderRef (refs w)).

(** Whatever is on is what the ref names. *)
Definition heldP (p : list bool * option nat) : Prop :=
  forall i, p.1 !! i = Some true -> p.2 = Some i.

Definition offP (p : list bool * option nat) : Prop :=
  forall i, p.1 !! i <> Some true.

Definition offAt (ref : option nat) (l : list bool) : list bool :=
  match ref with Some i => alter (fun _ => false) i l | None => l end.

(** Every scheduled cycle timer is the one [transcriptionTimerRef]
    names, every cycling recorder the one [transcriptionRecorderRef]
    names: there is at most one of each. *)
Definition cyclesHeld (w : World) : Prop :=
  heldP (timerPart w) /\ heldP (cyclerPart w).

(** No cycle timer is scheduled and no recorder is cycling. *)
Definition cyclesOff (w : World) : Prop :=
  offP (timerPart w) /\ offP (cyclerPart w).

(** The cycle invariant: at most one timer and one cycling recorder,
    those the refs name; none while the page is paused or not
    capturing. *)
Definition cycleInv (w : World) : Prop :=
  cyclesHeld w /\
  (isPaused (st w) = true \/ isCapturing (st w) = false -> cyclesOff w).

(** How a handler moves one part. *)
Definition calmer (p p' : list bool * option nat) : Prop :=
  (heldP p -> heldP p') /\ (offP p -> offP p').
Definition quencher (p p' : list bool * option nat) : Prop :=
  heldP p -> offP p'.
Definition starter (p p' : list bool * option nat) : Prop :=
  offP p -> heldP p'.

(** The pause and capture flags of the state. *)
Definition flagsOf (w : World) : bool * bool :=
  (isPaused (st w), isCapturing (st w)).

(** How a start ends, seen from the cycle: a page that had nothing
    scheduled either captures, with what it scheduled held by the refs,
    or it has nothing scheduled and its flags are as they were. *)
Definition startEnds (w w' : World) : Prop :=
  (cyclesHeld w' /\ flagsOf w' = (false, true)) \/
  (cyclesOff w' /\ flagsOf w' = flagsOf w).

(** The events that can only switch timers and recorders off: all but
    Start, Pause/Resume and the firing of the cycle timer. *)
Definition calmEvent (e : Event) : bool :=
  match e with
  | ClickStart _ | ClickPause | TimerFired _ => false
  | _ => true
  end.

(** The invariant along the life of the page. *)
Definition lifeInv (l : Life) : Prop :=
  match l with
  | Mounted w => handedOver w = false /\ cycleInv w
  | Leaving w => cyclesHeld w
  | Gone w => cyclesOff w
  end.

(** ** Further source functions *)

(** [Number.prototype.toString] of an integer. *)
Definition toString (n : Z) : jsstring := js (pretty n).

(** [s.padStart(2, '0')]. *)
Definition padStart2 (s : jsstring) : jsstring :=
  replicate (2 - length s) 48%N ++ s.

Definition colon : jsstring := [58%N].

(** [formatTime]: [Math.floor] of a quotient by a positive number is
    [Z.div], [%] is [Z.rem]. *)
Definition formatTime (seconds : Z) : jsstring :=
  let hrs := seconds / 3600 in
  let mins := Z.rem seconds 3600 / 60 in
  let secs := Z.rem seconds 60 in
  if 0 <? hrs
  then toString hrs ++ colon ++ padStart2 (toString mins) ++ colon
       ++ padStart2 (toString secs)
  else toString mins ++ colon ++ padStart2 (toString secs).

Definition timerActive (b : Browser) (ref : option nat) : bool :=
  match ref with
  | Some t => match intervals b !! t with
              | Some iv => int_active iv
              | None => false
              end
  | None => false
  end.

(** From [w] to [w'] browser resources were only released: whatever is
    live, active, open or scheduled in [w'] already was in [w]. *)
Definition releasesOnly (w w' : World) : Prop :=
  (forall i, isLive (dom w') i = true -> isLive (dom w) i = true) /\
  (forall ref, recorderActive (dom w') ref = true ->
               recorderActive (dom w) ref = true) /\
  (forall ref, contextOpen (dom w') ref = true ->
               contextOpen (dom w) ref = true) /\
  (forall ref, timerActive (dom w') ref = true ->
               timerActive (dom w) ref = true).

(** What the session invariant looks at: the session fields of the
    React state, the meeting id ref and the [onended] handler of every
    track. *)
Definition sessionView (w : World)
    : bool * bool * Z * jsval * jsval * list (option RState) :=
  (isCapturing (st w), isPaused (st w), recordingTime (st w),
   meetingId (st w), meetingIdRef (refs w), map onended (tracks (dom w))).

(** The meeting id ref mirrors the state; a page that is not capturing
    holds no meeting id and is not paused; the elapsed time is never
    negative; every [track.onended] closes over a render that holds no
    meeting id. *)
Definition sessionInv (w : World) : Prop :=
  meetingIdRef (refs w) = meetingId (st w) /\
  (isCapturing (st w) = false ->
   meetingId (st w) = JNull /\ isPaused (st w) = false) /\
  0 <= recordingTime (st w) /\
  Forall (fun h => forall r, h = Some r -> meetingId r = JNull)
    (map onended (tracks (dom w))).

(** The number a string of decimal digits denotes. *)
Definition valueOf (s : jsstring) : Z :=
  foldl (fun acc c => 10 * acc + (Z.of_N c - 48)) 0 s.

(** What [formatTime] shows of a number below 60: two characters that
    denote it, none of them a colon; and its [toString] has no colon. *)
Definition twoDigits (n : Z) : bool :=
  (length (padStart2 (toString n)) =? 2)%nat &&
  (valueOf (padStart2 (toString n)) =? n) &&
  forallb (fun c => negb (c =? 58)%N) (toString n).

(** A string that neither starts nor ends with white space and is not
    empty: what [data.text.trim()] yields when it is truthy. *)
Definition trimmed (s : jsstring) : Prop :=
  s <> [] /\ trim s = s /\
  (forall c, head s = Some c -> isWhiteSpace c = false) /\
  (forall c, last s = Some c -> isWhiteSpace c = false).

(** Track [i] belongs to a stream that one of the three stream refs
    holds. *)
Definition heldBy (w : World) (i : nat) : Prop :=
  exists s,
    (systemStreamRef (refs w) = Some s \/ micStreamRef (refs w) = Some s \/
     combinedStreamRef (refs w) = Some s) /\ i ∈ s.

(** From handle [n] on, no track is live. *)
Definition quietFrom (n : nat) (b : Browser) : Prop :=
  forall i, (n <= i)%nat -> isLive b i = false.

(** From handle [n] on, every live track is held by a stream ref. *)
Definition heldFrom (n : nat) (w : World) : Prop :=
  forall i, (n <= i)%nat -> isLive (dom w) i = true -> heldBy w i.

(** A parked continuation of the save sequence of [stopCapture]. *)
Definition isStopCont (k : option Cont) : bool :=
  match k with
  | Some (KStopTranscript _ | KStopMeeting _ | KStopRecording _) => true
  | _ => false
  end.

(** How many save sequences are awaiting the backend. *)
Definition savesInFlight (l : list (option Cont)) : nat :=
  length (filter (fun k => isStopCont k = true) l).

(** What the ownership invariant looks at. *)
Definition ownerView (w : World)
    : bool * Status * option Stream * option Stream * option Stream *
      list bool * list (option Cont) :=
  (isCapturing (st w), status (st w), systemStreamRef (refs w),
   micStreamRef (refs w), combinedStreamRef (refs w),
   map live (tracks (dom w)), inflight (net w)).

(** A continuation of the start sequence.  [startCapture] is run to its
    end within one step, so none is ever parked. *)
Definition isStartCont (k : option Cont) : bool :=
  match k with
  | Some (KStartDisplay _ | KStartMic _ _ | KStartReply _ _) => true
  | _ => false
  end.

(** Every live track is held by a stream ref; a page that is not
    capturing has no live track; at most one save sequence is in
    flight, and while it is the page is stopping, still marked as
    capturing, and has no live track. *)
Definition owned (w : World) : Prop :=
  heldFrom 0 w /\
  (isCapturing (st w) = false -> quietFrom 0 (dom w)) /\
  (savesInFlight (inflight (net w)) <= 1)%nat /\
  (savesInFlight (inflight (net w)) = 1%nat ->
   status (st w) = Stopping /\ isCapturing (st w) = true /\
   quietFrom 0 (dom w)) /\
  Forall (fun k => isStartCont k = false) (inflight (net w)).

(** From handle [n] on, every live track belongs to [s]. *)
Definition liveWithin (n : nat) (s : Stream) (b : Browser) : Prop :=
  forall i, (n <= i)%nat -> isLive b i = true -> i ∈ s.

(** How [startCapture] can end, seen from handle [n] on: capturing,
    with every live track held by a stream ref; or idle with a message,
    the capture flag as it was and no live track. *)
Definition startSucceeded (n : nat) (w' : World) : Prop :=
  status (st w') = Capturing /\ isCapturing (st w') = true /\ heldFrom n w'.

Definition startFailed (n : nat) (w w' : World) : Prop :=
  status (st w') = Idle /\ isCapturing (st w') = isCapturing (st w) /\
  meetingId (st w') = meetingId (st w) /\
  error (st w') <> [] /\ quietFrom n (dom w').

(** * Properties *)

(** Case analysis on the innermost [match] of the goal. *)
Ltac case_inner :=
  match goal with
  | |- context [match ?x with _ => _ end] =>
      lazymatch x with
      | context [match _ with _ => _ end] => fail
      | _ => destruct x eqn:?
      end
  end.

Ltac cases := repeat (cbn in *; try case_inner).

Lemma reachable_run tr w : reachable w -> reachable (run tr w).
Proof.
  revert w. induction tr as [|[clk e] tr IH]; intros w H; [assumption|].
  cbn [run]. apply IH. now constructor.
Qed.

(** Projections of an updated world. *)
Lemma st_on_st f w : st (on_st f w) = f (st w). Proof. reflexivity. Qed.
Lemma st_on_refs f w : st (on_refs f w) = st w. Proof. reflexivity. Qed.
Lemma st_on_dom f w : st (on_dom f w) = st w. Proof. reflexivity. Qed.
Lemma st_on_net f w : st (on_net f w) = st w. Proof. reflexivity. Qed.
Lemma st_on_obs f w : st (on_obs f w) = st w. Proof. reflexivity. Qed.
Lemma net_on_st f w : net (on_st f w) = net w. Proof. reflexivity. Qed.
Lemma net_on_refs f w : net (on_refs f w) = net w. Proof. reflexivity. Qed.
Lemma net_on_dom f w : net (on_dom f w) = net w. Proof. reflexivity. Qed.
Lemma net_on_net f w : net (on_net f w) = f (net w). Proof. reflexivity. Qed.
Lemma net_on_obs f w : net (on_obs f w) = net w. Proof. reflexivity. Qed.
Lemma refs_on_st f w : refs (on_st f w) = refs w. Proof. reflexivity. Qed.
Lemma refs_on_refs f w : refs (on_refs f w) = f (refs w). Proof. reflexivity. Qed.
Lemma refs_on_dom f w : refs (on_dom f w) = refs w. Proof. reflexivity. Qed.
Lemma refs_on_net f w : refs (on_net f w) = refs w. Proof. reflexivity. Qed.
Lemma refs_on_obs f w : refs (on_obs f w) = refs w. Proof. reflexivity. Qed.
Lemma dom_on_st f w : dom (on_st f w) = dom w. Proof. reflexivity. Qed.
Lemma dom_on_refs f w : dom (on_refs f w) = dom w. Proof. reflexivity. Qed.
Lemma dom_on_dom f w : dom (on_dom f w) = f (dom w). Proof. reflexivity. Qed.
Lemma dom_on_net f w : dom (on_net f w) = dom w. Proof. reflexivity. Qed.
Lemma dom_on_obs f w : dom (on_obs f w) = dom w. Proof. reflexivity. Qed.
Lemma obs_on_st f w : obs (on_st f w) = obs w. Proof. reflexivity. Qed.
Lemma obs_on_refs f w : obs (on_refs f w) = obs w. Proof. reflexivity. Qed.
Lemma obs_on_dom f w : obs (on_dom f w) = obs w. Proof. reflexivity. Qed.
Lemma obs_on_net f w : obs (on_net f w) = obs w. Proof. reflexivity. Qed.
Lemma obs_on_obs f w : obs (on_obs f w) = f (obs w). Proof. reflexivity. Qed.

Create Rewrite HintDb world.
Hint Rewrite st_on_st st_on_refs st_on_dom st_on_net st_on_obs
  net_on_st net_on_refs net_on_dom net_on_net net_on_obs
  refs_on_st refs_on_refs refs_on_dom refs_on_net refs_on_obs
  dom_on_st dom_on_refs dom_on_dom dom_on_net dom_on_obs
  obs_on_st obs_on_refs obs_on_dom obs_on_net obs_on_obs : world.

Ltac simpl_world :=
  unfold setIsCapturing, setIsPaused, setRecordingTime, setAudioLevel,
    setMeetingId, setLiveTranscript, setError, setStatus, setAudioChunks,
    consoleError, onMeetingCreated, countLevelRead, countStopRun,
    park, request, settle;
  autorewrite with world.

(** ** Browser primitives *)

Lemma stopTracks_other s b :
  recorders (stopTracks s b) = recorders b /\
  contexts (stopTracks s b) = contexts b /\
  intervals (stopTracks s b) = intervals b /\
  frames (stopTracks s b) = frames b /\
  encoderSupported (stopTracks s b) = encoderSupported b.
Proof.
  unfold stopTracks. revert b.
  induction s as [|i s IH]; intros b; cbn [foldl]; [easy|].
  destruct (IH (stopTrack i b)) as (-> & -> & -> & -> & ->). easy.
Qed.

Lemma stopTracks_lookup s b i :
  tracks (stopTracks s b) !! i =
  if bool_decide (i ∈ s) then endTrack <$> tracks b !! i else tracks b !! i.
Proof.
  unfold stopTracks. revert b.
  induction s as [|j s IH]; intros b; cbn [foldl].
  - rewrite bool_decide_eq_false_2; [easy | apply not_elem_of_nil].
  - rewrite IH. cbn [stopTrack upd_tracks tracks].
    destruct (decide (i = j)) as [->|Hne].
    + rewrite list_lookup_alter_eq.
      rewrite (bool_decide_eq_true_2 (j ∈ j :: s)) by apply list_elem_of_here.
      destruct (tracks b !! j); destruct (bool_decide _); reflexivity.
    + rewrite list_lookup_alter_ne by congruence.
      repeat match goal with
             | |- context [bool_decide ?P] => destruct (bool_decide_reflect P)
             end; try reflexivity; set_solver.
Qed.

Lemma stopTracks_isLive s b i :
  isLive (stopTracks s b) i = isLive b i && negb (bool_decide (i ∈ s)).
Proof.
  unfold isLive. rewrite stopTracks_lookup.
  destruct (bool_decide _); destruct (tracks b !! i); cbn;
    now rewrite ?andb_false_r, ?andb_true_r.
Qed.

Lemma stopTracks_length s b :
  length (tracks (stopTracks s b)) = length (tracks b).
Proof.
  unfold stopTracks. revert b.
  induction s as [|i s IH]; intros b; cbn [foldl]; [easy|].
  rewrite IH. cbn. apply length_alter.
Qed.

Arguments isLive : simpl never.
Arguments stopTracks : simpl never.
Arguments cleanup : simpl never.
Arguments stopServerTranscription : simpl never.
Arguments startTranscriptionRecorder : simpl never.
Arguments startServerTranscription : simpl never.
Arguments cycleTranscriptionRecorder : simpl never.
Arguments updateLevel : simpl never.
Arguments setupAudioVisualization : simpl never.
Arguments sendBlobForTranscription : simpl never.
Arguments togglePause : simpl never.
Arguments stopCapture : simpl never.
Arguments stopCapture_resume : simpl never.
Arguments stopCapture_reset : simpl never.
Arguments stopCapture_catch : simpl never.
Arguments startCapture : simpl never.
Arguments startCapture_session : simpl never.
Arguments startCapture_catch : simpl never.
Arguments captureSystemAudio : simpl never.
Arguments captureMicAudio : simpl never.
Arguments combineStreams : simpl never.
Arguments onstop : simpl never.
Arguments onendedHandler : simpl never.

Create Rewrite HintDb live.

Lemma filter_none {A} (P : A -> Prop) `{forall x, Decision (P x)} (l : list A) :
  (forall x, x ∈ l -> ~ P x) -> filter P l = [].
Proof.
  induction l as [|a l IH]; intros Hl; [reflexivity|].
  rewrite filter_cons_False by (apply Hl; left).
  apply IH. intros x Hx. apply Hl. now right.
Qed.

Lemma newTracks_lookup ks b k :
  tracks (newTracks ks b).2 !! (length (tracks b) + k)%nat =
  (fun kd => {| kind := kd; live := true; onended := None |}) <$> ks !! k.
Proof.
  cbn. rewrite lookup_app_r by lia.
  replace (length (tracks b) + k - length (tracks b))%nat with k by lia.
  apply list_lookup_fmap.
Qed.

Lemma newTracks_noAudio ks b :
  Forall (fun k => k = KVideo) ks ->
  getAudioTracks (newTracks ks b).2 (newTracks ks b).1 = [].
Proof.
  intros Hks. unfold getAudioTracks. apply filter_none.
  intros i [Hlo Hhi]%elem_of_seq.
  replace i with (length (tracks b) + (i - length (tracks b)))%nat by lia.
  unfold hasKind. rewrite newTracks_lookup.
  destruct (ks !! (i - length (tracks b))%nat) as [kd|] eqn:Hk; cbn; [|easy].
  rewrite Forall_lookup in Hks. rewrite (Hks _ _ Hk). easy.
Qed.

Lemma cleanup_unfold w :
  cleanup w = foldl (fun w step => step w) w cleanup_steps.
Proof. reflexivity. Qed.

(** A property kept by each step of [cleanup] is kept by [cleanup]. *)
Lemma cleanup_ind (P : World -> Prop) w :
  Forall (fun step => forall w, P w -> P (step w)) cleanup_steps ->
  P w -> P (cleanup w).
Proof.
  rewrite cleanup_unfold. generalize cleanup_steps. intros steps Hsteps.
  revert w. induction Hsteps as [|step steps Hstep _ IH]; intros w Hw;
    cbn [foldl]; [assumption|].
  apply IH, Hstep, Hw.
Qed.

Ltac cleanup_steps P w :=
  apply (cleanup_ind P w);
  [unfold cleanup_steps; repeat apply Forall_cons_2; try apply Forall_nil_2;
   intros ? ?; unfold releaseStream; cases |].

Lemma cleanup_stages w :
  cleanup w =
  cleanup_context
    (releaseStream combinedStreamRef (upd_combinedStreamRef None)
       (releaseStream micStreamRef (upd_micStreamRef None)
          (releaseStream systemStreamRef (upd_systemStreamRef None)
             (stopArchiveRecorder
                (cleanup_cycleRecorder (cleanup_timer (cleanup_frame w))))))).
Proof.
  unfold cleanup, cleanup_context, stopArchiveRecorder, cleanup_cycleRecorder,
    cleanup_timer, cleanup_frame.
  cbv zeta. reflexivity.
Qed.

Lemma stopServerTranscription_stages w :
  stopServerTranscription w =
  on_refs (upd_transcriptionRecorderRef None)
    (stopCycleRecorder (cleanup_timer w)).
Proof.
  unfold stopServerTranscription, stopCycleRecorder, cleanup_timer.
  cbv zeta. reflexivity.
Qed.

Lemma cleanup_st w : st (cleanup w) = st w.
Proof. cleanup_steps (fun w' => st w' = st w) w; easy. Qed.

Lemma cleanup_net w : net (cleanup w) = net w.
Proof. cleanup_steps (fun w' => net w' = net w) w; easy. Qed.

Lemma cleanup_obs w : obs (cleanup w) = obs w.
Proof. cleanup_steps (fun w' => obs w' = obs w) w; easy. Qed.

Lemma isLive_untouched b b' i : tracks b' = tracks b -> isLive b' i = isLive b i.
Proof. unfold isLive. now intros ->. Qed.

Lemma isLive_closeContext c b i : isLive (closeContext c b) i = isLive b i.
Proof. now apply isLive_untouched. Qed.
Lemma isLive_recorderStop r b i : isLive (recorderStop r b) i = isLive b i.
Proof. now apply isLive_untouched. Qed.
Lemma isLive_clearInterval t b i : isLive (clearInterval t b) i = isLive b i.
Proof. now apply isLive_untouched. Qed.
Lemma isLive_cancelAnimationFrame f b i :
  isLive (cancelAnimationFrame f b) i = isLive b i.
Proof. now apply isLive_untouched. Qed.

Hint Rewrite stopTracks_isLive isLive_closeContext isLive_recorderStop
  isLive_clearInterval isLive_cancelAnimationFrame : live.

Lemma cleanup_isLive w i :
  isLive (dom (cleanup w)) i = true -> isLive (dom w) i = true.
Proof.
  cleanup_steps
    (fun w' => isLive (dom w') i = true -> isLive (dom w) i = true) w;
    autorewrite with live; rewrite ?andb_true_iff; tauto.
Qed.

(** ** Start *)

Lemma catch_noAudio : captureSystemAudio_catch noAudioError = noAudioError.
Proof. reflexivity. Qed.

(** ** C4: a display stream without audio

    C4. When the acquired display stream has no audio track, the start
    sequence fails with the no-audio error, every track of the acquired
    stream is stopped, the status is back to idle, and no request (in
    particular none to /recording/start) has been issued or is pending. *)
Theorem no_audio_start_fails clk r o w ks :
  so_display o = DisplayGranted ks ->
  Forall (fun k => k = KVideo) ks ->
  let w' := startCapture clk r o w in
  error (st w') = noAudioMessage /\
  status (st w') = Idle /\
  (forall i, (length (tracks (dom w)) <= i < length (tracks (dom w)) + length ks)%nat ->
             isLive (dom w') i = false) /\
  net w' = net w.
Proof.
  intros Ho Hks w'. subst w'. unfold startCapture, captureSystemAudio.
  rewrite Ho.
  pose proof (newTracks_noAudio ks (dom (setStatus Requesting (setError [] w))) Hks) as Hnone.
  destruct (newTracks ks (dom (setStatus Requesting (setError [] w)))) as [ds b] eqn:Hnew.
  cbn [fst snd] in Hnone. rewrite Hnone, catch_noAudio.
  unfold startCapture_catch.
  rewrite cleanup_st, cleanup_net. repeat split; try reflexivity.
  intros i Hi. apply not_true_is_false. intros Hlive%cleanup_isLive.
  cbn in Hlive. injection Hnew as <- <-.
  rewrite stopTracks_isLive in Hlive.
  apply andb_true_iff in Hlive as [_ Hout].
  apply negb_true_iff, bool_decide_eq_false in Hout.
  apply Hout, elem_of_seq. cbn. lia.
Qed.

Lemma no_audio_start_fails_witness :
  let o := systemShare [KVideo; KVideo] (JNum 7) in
  let w := step (clockAt 0) (SetMeetingTitle (js "Standup")) (initial true) in
  let w' := startCapture (clockAt 1) (st w) o w in
  so_display o = DisplayGranted [KVideo; KVideo] /\
  Forall (fun k => k = KVideo) [KVideo; KVideo] /\
  error (st w') = noAudioMessage /\
  status (st w') = Idle /\
  (forall i, (length (tracks (dom w)) <= i
              < length (tracks (dom w)) + length [KVideo; KVideo])%nat ->
             isLive (dom w') i = false) /\
  net w' = net w.
Proof.
  intros o w w'.
  split; [reflexivity|].
  split; [repeat constructor|].
  apply (no_audio_start_fails (clockAt 1) (st w) o w [KVideo; KVideo]);
    [reflexivity | repeat constructor].
Defined.

(** ** C9: the Start button

    C9. The start action does nothing at all (no stream is acquired, no
    request is issued, the world is unchanged) while the trimmed meeting
    title is empty: the Start button is disabled. *)
Theorem start_requires_title clk o w :
  trim (meetingTitle (st w)) = [] ->
  step clk (ClickStart o) w = w.
Proof.
  intros Htitle. cbn [step]. unfold startEnabled. rewrite Htitle. cbn.
  now rewrite andb_false_r.
Qed.

Lemma start_requires_title_witness :
  let w := step (clockAt 0) (SetMeetingTitle (js "   ")) (initial true) in
  trim (meetingTitle (st w)) = [] /\
  step (clockAt 1) (ClickStart (systemShare [KAudio] (JNum 7))) w = w.
Proof.
  split; [reflexivity | apply start_requires_title; reflexivity].
Defined.

(** ** C5: completion of an upload *)

Lemma strTruthy_true s : strTruthy s = true <-> s <> [].
Proof. destruct s; cbn; split; congruence. Qed.

Lemma trim_nil : trim [] = [].
Proof. reflexivity. Qed.

Lemma sendBlob_body_cases clk r o w :
  (exists s, successfulText o s /\
     sendBlob_body clk r o w =
     Normal (setLiveTranscript (liveTranscript (st w) ++ [entryAt clk r s]) w)) \/
  ((forall s, ~ successfulText o s) /\
   (sendBlob_body clk r o w = Normal w \/
    exists e, sendBlob_body clk r o w = Throw w e)).
Proof.
  unfold sendBlob_body.
  destruct o as [e|resp].
  { right. split; [intros s (? & ? & ? & ? & _); congruence | eauto]. }
  destruct (resp_ok resp) eqn:Hok.
  2:{ right. split; [intros s (? & ? & ? & [= <-] & ? & _); congruence | eauto]. }
  destruct (resp_json resp) as [e|data] eqn:Hjson.
  { right. split; [intros s (? & ? & ? & [= <-] & _ & ? & _); congruence | eauto]. }
  destruct (d_text data) as [| |b|n|raw|] eqn:Htext.
  5:{ destruct (strTruthy raw && strTruthy (trim raw)) eqn:Hs.
      - left. exists (trim raw). split; [|reflexivity].
        exists resp, data, raw. repeat split; try assumption.
        apply andb_true_iff in Hs as [_ Hs]. now apply strTruthy_true.
      - right. split; [|eauto].
        intros s (? & ? & ? & [= <-] & _ & Hj & Ht & -> & Hne).
        rewrite Hjson in Hj. injection Hj as <-. rewrite Htext in Ht.
        injection Ht as <-.
        apply andb_false_iff in Hs as [Hs|Hs].
        + destruct raw; [now apply Hne | discriminate].
        + apply strTruthy_true in Hne. congruence. }
  all: right; split;
    [ intros s (? & ? & ? & [= <-] & _ & Hj & Ht & _);
      rewrite Hjson in Hj; injection Hj as <-; congruence
    | cbn; try destruct b; try destruct (negb (n =? 0)); eauto ].
Qed.

Lemma successfulText_unique o s s' :
  successfulText o s -> successfulText o s' -> s = s'.
Proof.
  intros (? & ? & ? & -> & _ & Hj & Ht & -> & _)
    (? & ? & ? & [= <-] & _ & Hj' & Ht' & -> & _). congruence.
Qed.

Lemma reply_appends clk w h r o s :
  inflight (net w) !! h = Some (Some (KTranscribe r)) ->
  successfulText o s ->
  liveTranscript (st (step clk (NetReply h o) w)) =
  liveTranscript (st w) ++ [entryAt clk r s].
Proof.
  intros Hk Hs. cbn [step]. rewrite Hk. unfold sendBlob_afterReply.
  destruct (sendBlob_body_cases clk r o (settle h w))
    as [(s' & Hs' & ->) | (Hn & _)]; [|now destruct (Hn s)].
  cbn. now rewrite (successfulText_unique _ _ _ Hs Hs').
Qed.

Lemma reply_obs clk w h r o s :
  inflight (net w) !! h = Some (Some (KTranscribe r)) ->
  successfulText o s ->
  obs (step clk (NetReply h o) w) = obs w.
Proof.
  intros Hk Hs. cbn [step]. rewrite Hk. unfold sendBlob_afterReply.
  destruct (sendBlob_body_cases clk r o (settle h w))
    as [(s' & Hs' & ->) | (Hn & _)]; [|now destruct (Hn s)].
  reflexivity.
Qed.



(** ** C1: the ten-second cycle *)

Lemma startTranscriptionRecorder_recorders r w :
  recorders (dom (startTranscriptionRecorder r w)) =
  if encoderCreatable w then
    recorders (dom w) ++
    [{| rec_stream := default [] (activeStreamRef (refs w));
        rec_state := Recording; rec_timeslice := 1000; rec_chunks := [];
        rec_role := Cycle r; rec_stopQueued := false |}]
  else recorders (dom w).
Proof.
  unfold startTranscriptionRecorder, encoderCreatable.
  destruct (activeStreamRef (refs w)) as [stream|]; [|reflexivity].
  destruct (getAudioTracks (dom w) stream); [reflexivity|].
  destruct (canRecord (dom w) stream); reflexivity.
Qed.

Lemma startTranscriptionRecorder_ref r w :
  transcriptionRecorderRef (refs (startTranscriptionRecorder r w)) =
  if encoderCreatable w then Some (length (recorders (dom w)))
  else transcriptionRecorderRef (refs w).
Proof.
  unfold startTranscriptionRecorder, encoderCreatable.
  destruct (activeStreamRef (refs w)) as [stream|]; [|reflexivity].
  destruct (getAudioTracks (dom w) stream); [reflexivity|].
  destruct (canRecord (dom w) stream); reflexivity.
Qed.

Lemma startTranscriptionRecorder_intervals r w :
  intervals (dom (startTranscriptionRecorder r w)) = intervals (dom w).
Proof.
  unfold startTranscriptionRecorder.
  destruct (activeStreamRef (refs w)) as [stream|]; [|reflexivity].
  destruct (getAudioTracks (dom w) stream); [reflexivity|].
  destruct (canRecord (dom w) stream); reflexivity.
Qed.

Lemma startedEncoder_iff r w0 w :
  length (recorders (dom w)) = length (recorders (dom w0)) ->
  activeStreamRef (refs w) = activeStreamRef (refs w0) ->
  startedEncoder w0 (startTranscriptionRecorder r w) <->
  encoderCreatable w = true.
Proof.
  intros Hlen Hstream. unfold startedEncoder.
  rewrite startTranscriptionRecorder_recorders, startTranscriptionRecorder_ref.
  destruct (encoderCreatable w) eqn:Hc; split; try easy.
  - intros _. eexists. rewrite <- Hlen, list_lookup_middle by reflexivity.
    repeat split. cbn. rewrite <- Hstream.
    unfold encoderCreatable in Hc.
    now destruct (activeStreamRef (refs w)).
  - intros (rc & Hrc & _). rewrite <- Hlen in Hrc.
    apply lookup_lt_Some in Hrc. lia.
Qed.

Lemma encoderCreatable_recorderStop i w :
  encoderCreatable (on_dom (recorderStop i) w) = encoderCreatable w.
Proof. reflexivity. Qed.

(** ** How the handlers act on the parts of the world *)

Create Rewrite HintDb view.

Lemma cleanup_flags w :
  isCapturingRef (refs (cleanup w)) = isCapturingRef (refs w) /\
  meetingIdRef (refs (cleanup w)) = meetingIdRef (refs w) /\
  analyserRef (refs (cleanup w)) = analyserRef (refs w) /\
  activeStreamRef (refs (cleanup w)) = activeStreamRef (refs w).
Proof.
  cleanup_steps
    (fun w' =>
       isCapturingRef (refs w') = isCapturingRef (refs w) /\
       meetingIdRef (refs w') = meetingIdRef (refs w) /\
       analyserRef (refs w') = analyserRef (refs w) /\
       activeStreamRef (refs w') = activeStreamRef (refs w)) w;
    easy.
Qed.

Lemma stopServerTranscription_st w : st (stopServerTranscription w) = st w.
Proof. unfold stopServerTranscription. cases; reflexivity. Qed.

Lemma stopServerTranscription_net w : net (stopServerTranscription w) = net w.
Proof. unfold stopServerTranscription. cases; reflexivity. Qed.

Lemma stopServerTranscription_obs w : obs (stopServerTranscription w) = obs w.
Proof. unfold stopServerTranscription. cases; reflexivity. Qed.

Lemma stopServerTranscription_flags w :
  isCapturingRef (refs (stopServerTranscription w)) = isCapturingRef (refs w) /\
  meetingIdRef (refs (stopServerTranscription w)) = meetingIdRef (refs w) /\
  analyserRef (refs (stopServerTranscription w)) = analyserRef (refs w) /\
  mediaRecorderRef (refs (stopServerTranscription w)) =
    mediaRecorderRef (refs w).
Proof. unfold stopServerTranscription. cases; easy. Qed.

Lemma stopServerTranscription_frames w :
  frames (dom (stopServerTranscription w)) = frames (dom w).
Proof. unfold stopServerTranscription. cases; reflexivity. Qed.

Lemma startTranscriptionRecorder_st r w :
  st (startTranscriptionRecorder r w) = st w.
Proof. unfold startTranscriptionRecorder. cases; reflexivity. Qed.

Lemma startTranscriptionRecorder_net r w :
  net (startTranscriptionRecorder r w) = net w.
Proof. unfold startTranscriptionRecorder. cases; reflexivity. Qed.

Lemma startTranscriptionRecorder_flags r w :
  isCapturingRef (refs (startTranscriptionRecorder r w)) =
    isCapturingRef (refs w) /\
  frames (dom (startTranscriptionRecorder r w)) = frames (dom w) /\
  levelReads (obs (startTranscriptionRecorder r w)) = levelReads (obs w).
Proof. unfold startTranscriptionRecorder. cases; easy. Qed.

Lemma startServerTranscription_st r w :
  st (startServerTranscription r w) = st w.
Proof.
  unfold startServerTranscription. cbn.
  now rewrite startTranscriptionRecorder_st.
Qed.

Lemma startServerTranscription_net r w :
  net (startServerTranscription r w) = net w.
Proof.
  unfold startServerTranscription. cbn.
  now rewrite startTranscriptionRecorder_net.
Qed.

Lemma startServerTranscription_flags r w :
  isCapturingRef (refs (startServerTranscription r w)) =
    isCapturingRef (refs w) /\
  frames (dom (startServerTranscription r w)) = frames (dom w) /\
  levelReads (obs (startServerTranscription r w)) = levelReads (obs w).
Proof.
  unfold startServerTranscription. cbn.
  destruct (startTranscriptionRecorder_flags r
              (on_refs (upd_isTranscribingRef false) w)) as (-> & -> & ->).
  easy.
Qed.

Lemma cycleTranscriptionRecorder_st r w :
  st (cycleTranscriptionRecorder r w) = st w.
Proof.
  unfold cycleTranscriptionRecorder.
  cases; rewrite ?startTranscriptionRecorder_st; reflexivity.
Qed.

Lemma cycleTranscriptionRecorder_net r w :
  net (cycleTranscriptionRecorder r w) = net w.
Proof.
  unfold cycleTranscriptionRecorder.
  cases; rewrite ?startTranscriptionRecorder_net; reflexivity.
Qed.

Lemma togglePause_liveTranscript r w :
  liveTranscript (st (togglePause r w)) = liveTranscript (st w).
Proof.
  unfold togglePause.
  cases; rewrite ?startServerTranscription_st, ?stopServerTranscription_st;
    reflexivity.
Qed.

Lemma togglePause_net r w : net (togglePause r w) = net w.
Proof.
  unfold togglePause.
  cases; rewrite ?startServerTranscription_net, ?stopServerTranscription_net;
    reflexivity.
Qed.

(** ** C1: what a firing of the cycle timer does *)

Lemma startTranscriptionRecorder_log r w :
  obs (startTranscriptionRecorder r w) =
  if encoderRefused w then obs (consoleError notSupported w) else obs w.
Proof.
  unfold startTranscriptionRecorder, encoderRefused.
  destruct (activeStreamRef (refs w)) as [stream|]; [|reflexivity].
  destruct (getAudioTracks (dom w) stream); [reflexivity|].
  destruct (canRecord (dom w) stream); reflexivity.
Qed.

Lemma startTranscriptionRecorder_refs r w :
  isCapturingRef (refs (startTranscriptionRecorder r w)) =
    isCapturingRef (refs w) /\
  meetingIdRef (refs (startTranscriptionRecorder r w)) = meetingIdRef (refs w).
Proof. unfold startTranscriptionRecorder. cases; easy. Qed.

Lemma blobOf_snoc l x : blobOf (l ++ [x]) = blobOf l + x.
Proof. unfold blobOf, sumZ. now rewrite foldl_app. Qed.

(** The stop event of a cycling recorder: its chunks, the final one
    included, are one segment, which goes to the uploader. *)
Lemma recorderStopped_cycle clk w i size rc r :
  recorders (dom w) !! i = Some rc ->
  rec_stopQueued rc = true ->
  rec_role rc = Cycle r ->
  let total := blobOf (finalChunks rc size) in
  let w' := step clk (RecorderStopped i size) w in
  inflight (net w') =
    inflight (net w) ++
    (if truthy (meetingIdRef (refs w)) && isCapturingRef (refs w) &&
        (1000 <=? total)
     then [Some (KRead r total)] else []) /\
  calls (net w') = calls (net w) /\
  recorders (dom w') !! i =
    Some {| rec_stream := rec_stream rc; rec_state := Inactive;
            rec_timeslice := rec_timeslice rc;
            rec_chunks := finalChunks rc size;
            rec_role := Cycle r; rec_stopQueued := false |}.
Proof.
  intros Hrc Hq Hrole total w'. subst w'. cbn [step]. rewrite Hrc, Hq.
  set (rc' := pushChunk size (withState Inactive false rc)).
  assert (Hrc' : rc' = {| rec_stream := rec_stream rc; rec_state := Inactive;
                          rec_timeslice := rec_timeslice rc;
                          rec_chunks := finalChunks rc size;
                          rec_role := Cycle r; rec_stopQueued := false |}).
  { subst rc'. unfold pushChunk, finalChunks, withState. cbn.
    rewrite Hrole. destruct (0 <? size); [reflexivity|].
    now rewrite app_nil_r. }
  assert (Hlook : <[i := rc']> (recorders (dom w)) !! i = Some rc').
  { apply list_lookup_insert_eq. now apply lookup_lt_Some in Hrc. }
  assert (Hrole' : rec_role rc' = Cycle r) by now rewrite Hrc'.
  assert (Hch : rec_chunks rc' = finalChunks rc size) by now rewrite Hrc'.
  unfold onstop. rewrite Hrole', Hch. fold total. rewrite <- Hrc'.
  set (w1 := on_dom _ w).
  assert (H1 : net w1 = net w /\ refs w1 = refs w /\
               recorders (dom w1) !! i = Some rc') by (now subst w1).
  destruct H1 as (Hn1 & Hr1 & Hl1). clearbody w1.
  assert (Hsend : forall w2, net w2 = net w1 -> dom w2 = dom w1 ->
            inflight (net w2) = inflight (net w) ++ [] /\
            calls (net w2) = calls (net w) /\
            recorders (dom w2) !! i = Some rc').
  { intros w2 -> ->. now rewrite app_nil_r, Hn1. }
  destruct (finalChunks rc size) as [|c cs] eqn:Hcs.
  { subst total. cbn. rewrite andb_false_r. now apply Hsend. }
  unfold sendBlobForTranscription. rewrite Hr1.
  destruct (truthy (meetingIdRef (refs w))),
    (isCapturingRef (refs w)); cbn [negb orb andb];
    try (now apply Hsend).
  rewrite Z.leb_antisym. destruct (total <? 1000); cbn [negb].
  - now apply Hsend.
  - cbn. now rewrite Hn1.
Qed.

(** C1, amended.  [startServerTranscription] schedules a repeating timer
    with a period of 10000 ms.  Each firing leaves that timer scheduled,
    stops the current encoder if it is active (its final data and stop
    event are queued), and starts a fresh encoder, with a timeslice of
    1000 ms, if and only if the capturing flag is set and an encoder can
    be created on the active stream.  The console gains an entry exactly
    when the flag is set and the creation is refused: the refusal, which
    is caught; state and requests are as before.  The stop event of the
    stopped encoder makes one segment of its chunks, the final data
    included, whose size is the sum of theirs; the segment is handed to
    the file reader, for upload, exactly when a meeting id and the
    capturing flag are set and it has at least 1000 bytes. *)
Theorem cycle_timer_fires clk w t iv :
  intervals (dom w) !! t = Some iv ->
  int_active iv = true ->
  let w' := step clk (TimerFired t) w in
  (forall r w0,
     exists h,
       transcriptionTimerRef (refs (startServerTranscription r w0)) = Some h /\
       intervals (dom (startServerTranscription r w0)) !! h =
       Some {| int_active := true; int_period := 10000; int_closure := r |}) /\
  intervals (dom w') = intervals (dom w) /\
  (forall i rc,
     transcriptionRecorderRef (refs w) = Some i ->
     recorders (dom w) !! i = Some rc ->
     rec_state rc <> Inactive ->
     recorders (dom w') !! i = Some (withState Inactive true rc)) /\
  (startedEncoder w w' <->
   isCapturingRef (refs w) = true /\ encoderCreatable w = true) /\
  (consoleErrors (obs w') =
     consoleErrors (obs w) ++
     (if isCapturingRef (refs w) && encoderRefused w
      then [notSupported] else []) /\
   st w' = st w /\ net w' = net w) /\
  (forall i rc r clk' size,
     transcriptionRecorderRef (refs w) = Some i ->
     recorders (dom w) !! i = Some rc ->
     rec_state rc <> Inactive ->
     rec_role rc = Cycle r ->
     let total := blobOf (finalChunks rc size) in
     let w'' := step clk' (RecorderStopped i size) w' in
     recorders (dom w'') !! i =
       Some {| rec_stream := rec_stream rc; rec_state := Inactive;
               rec_timeslice := rec_timeslice rc;
               rec_chunks := finalChunks rc size;
               rec_role := Cycle r; rec_stopQueued := false |} /\
     inflight (net w'') =
       inflight (net w) ++
       (if truthy (meetingIdRef (refs w)) && isCapturingRef (refs w) &&
           (1000 <=? total)
        then [Some (KRead r total)] else []) /\
     calls (net w'') = calls (net w)) /\
  (blobOf [] = 0 /\ forall l x, blobOf (l ++ [x]) = blobOf l + x).
Proof.
  intros Hiv Hact w'.
  assert (Hw' : w' = cycleTranscriptionRecorder (int_closure iv) w).
  { subst w'. cbn [step]. now rewrite Hiv, Hact. }
  split.
  { intros r w0. unfold startServerTranscription.
    exists (length (intervals (dom (startTranscriptionRecorder r
                      (on_refs (upd_isTranscribingRef false) w0))))).
    cbn. split; [reflexivity|]. now rewrite list_lookup_middle. }
  set (w1 := match transcriptionRecorderRef (refs w) with
             | Some i => if recorderActive (dom w) (Some i)
                         then on_dom (recorderStop i) w else w
             | None => w
             end).
  assert (Hw1 : refs w1 = refs w /\ intervals (dom w1) = intervals (dom w) /\
                length (recorders (dom w1)) = length (recorders (dom w)) /\
                encoderCreatable w1 = encoderCreatable w /\
                encoderRefused w1 = encoderRefused w /\
                obs w1 = obs w /\ st w1 = st w /\ net w1 = net w).
  { subst w1. destruct (transcriptionRecorderRef (refs w)) as [i|]; [|easy].
    destruct (recorderActive (dom w) (Some i)); [|easy].
    split_and!; try reflexivity. cbn. apply length_alter. }
  destruct Hw1 as (Hrefs & Hint & Hlen & Hcre & Hrefd & Hobs & Hst & Hnet).
  assert (Hstop : forall i rc,
             transcriptionRecorderRef (refs w) = Some i ->
             recorders (dom w) !! i = Some rc ->
             rec_state rc <> Inactive ->
             recorders (dom w1) !! i = Some (withState Inactive true rc)).
  { intros i rc Hi Hrc Hs. subst w1. rewrite Hi.
    unfold recorderActive. rewrite Hrc.
    destruct (rec_state rc) eqn:Hs'; [easy| |]; cbn;
      now rewrite list_lookup_alter_eq, Hrc. }
  assert (Hcyc : w' = if isCapturingRef (refs w)
                      then startTranscriptionRecorder (int_closure iv) w1
                      else w1).
  { rewrite Hw'. unfold cycleTranscriptionRecorder. fold w1. cbv zeta.
    now rewrite Hrefs. }
  assert (H2 : intervals (dom w') = intervals (dom w)).
  { rewrite Hcyc. destruct (isCapturingRef (refs w)); [|assumption].
    now rewrite startTranscriptionRecorder_intervals. }
  assert (H3 : forall i rc,
             transcriptionRecorderRef (refs w) = Some i ->
             recorders (dom w) !! i = Some rc ->
             rec_state rc <> Inactive ->
             recorders (dom w') !! i = Some (withState Inactive true rc)).
  { intros i rc Hi Hrc Hs. specialize (Hstop i rc Hi Hrc Hs).
    rewrite Hcyc. destruct (isCapturingRef (refs w)); [|assumption].
    rewrite startTranscriptionRecorder_recorders.
    destruct (encoderCreatable w1); [|assumption].
    now apply lookup_app_l_Some. }
  assert (H4 : startedEncoder w w' <->
               isCapturingRef (refs w) = true /\ encoderCreatable w = true).
  { rewrite Hcyc. destruct (isCapturingRef (refs w)).
    - rewrite startedEncoder_iff by (now rewrite ?Hrefs). rewrite Hcre. tauto.
    - split; [|intros [? _]; discriminate].
      intros (rc & Hrc & _). rewrite <- Hlen in Hrc.
      apply lookup_lt_Some in Hrc. lia. }
  assert (H5 : consoleErrors (obs w') =
                 consoleErrors (obs w) ++
                 (if isCapturingRef (refs w) && encoderRefused w
                  then [notSupported] else []) /\
               st w' = st w /\ net w' = net w).
  { rewrite Hcyc. destruct (isCapturingRef (refs w)); cbn [andb].
    - rewrite startTranscriptionRecorder_log, startTranscriptionRecorder_st,
        startTranscriptionRecorder_net, Hrefd, Hst, Hnet.
      split; [|easy].
      destruct (encoderRefused w); cbn; rewrite Hobs;
        [reflexivity | now rewrite app_nil_r].
    - rewrite Hobs, Hst, Hnet, app_nil_r. easy. }
  assert (Hflags : isCapturingRef (refs w') = isCapturingRef (refs w) /\
                   meetingIdRef (refs w') = meetingIdRef (refs w)).
  { rewrite Hcyc. destruct (isCapturingRef (refs w)) eqn:Hc.
    - destruct (startTranscriptionRecorder_refs (int_closure iv) w1)
        as [-> ->]. now rewrite Hrefs.
    - now rewrite Hrefs. }
  split_and!; try assumption; try reflexivity; try apply H5.
  - intros i rc r clk' size Hi Hrc Hs Hrole total w''.
    specialize (H3 i rc Hi Hrc Hs).
    destruct (recorderStopped_cycle clk' w' i size (withState Inactive true rc) r
                H3 eq_refl Hrole) as (Hin & Hcalls & Hlook).
    destruct Hflags as [Hf1 Hf2]. destruct H5 as (_ & _ & Hn).
    rewrite Hf1, Hf2, Hn in Hin. rewrite Hn in Hcalls.
    split_and!; assumption.
  - apply blobOf_snoc.
Qed.

Lemma cycle_timer_fires_witness :
  let w := beforeStop in
  let iv := {| int_active := true; int_period := 10000;
               int_closure := standupRender |} in
  let w' := step (clockAt 10001) (TimerFired 0) w in
  let w'' := step (clockAt 10002) (RecorderStopped 1 300) w' in
  intervals (dom w) !! 0%nat = Some iv /\
  int_active iv = true /\
  intervals (dom w') = intervals (dom w) /\
  map rec_state (recorders (dom w')) = [Recording; Inactive; Recording] /\
  (startedEncoder w w' <->
   isCapturingRef (refs w) = true /\ encoderCreatable w = true) /\
  consoleErrors (obs w') = [] /\
  (rec_chunks <$> recorders (dom w'') !! 1%nat) = Some [2400; 300] /\
  inflight (net w'') = [Some (KRead standupRender 2700)].
Proof.
  intros w iv w' w''.
  destruct (cycle_timer_fires (clockAt 10001) w 0 iv eq_refl eq_refl)
    as (_ & Hkeep & _ & Hiff & (Hlog & _) & Hseg & _).
  destruct (Hseg 1%nat
              {| rec_stream := [1%nat]; rec_state := Recording;
                 rec_timeslice := 1000; rec_chunks := [2400];
                 rec_role := Cycle standupRender; rec_stopQueued := false |}
              standupRender (clockAt 10002) 300 eq_refl eq_refl
              ltac:(discriminate) eq_refl) as (Hrec & Hin & _).
  split; [reflexivity|]. split; [reflexivity|]. split; [exact Hkeep|].
  split; [reflexivity|]. split; [exact Hiff|]. split; [exact Hlog|].
  split; [|exact Hin].
  exact (f_equal (fmap rec_chunks) Hrec).
Defined.

(** C1 as stated fails: in a browser without the Opus-in-WebM encoder
    the session captures, the timer fires with the capturing flag set,
    and no encoder is started; the refusal is logged. *)
Lemma cycle_without_encoder :
  let w := standup false in
  let w' := step (clockAt 10001) (TimerFired 0) w in
  reachable w /\
  status (st w) = Capturing /\
  timerScheduled w = true /\
  isCapturingRef (refs w) = true /\
  recorders (dom w') = [] /\
  ~ (startedEncoder w w' <-> isCapturingRef (refs w) = true).
Proof.
  intros w w'.
  split. { apply (reachable_run _ (initial false)), reachable_initial. }
  repeat split; try reflexivity.
  intros [_ H]. destruct (H eq_refl) as (rc & Hrc & _). discriminate.
Qed.

(** ** The level monitor never gets going *)

Lemma noFramePending_cancel f b :
  noFramePending b -> noFramePending (cancelAnimationFrame f b).
Proof.
  unfold noFramePending. cbn. intros H.
  apply Forall_alter; [assumption | reflexivity].
Qed.

Lemma noFramePending_same b b' :
  frames b' = frames b -> noFramePending b -> noFramePending b'.
Proof. unfold noFramePending. now intros ->. Qed.

Lemma stopTracks_frames s b : frames (stopTracks s b) = frames b.
Proof. apply stopTracks_other. Qed.

Lemma cleanup_noFramePending w :
  noFramePending (dom w) -> noFramePending (dom (cleanup w)).
Proof.
  intros H.
  cleanup_steps (fun w' => noFramePending (dom w')) w;
    unfold noFramePending in *; cbn; rewrite ?stopTracks_frames;
    try assumption; apply Forall_alter; auto.
Qed.

Lemma monitorIdle_cleanup w : monitorIdle w -> monitorIdle (cleanup w).
Proof.
  intros (Hf & Hq & Hr). unfold monitorIdle.
  rewrite cleanup_st, cleanup_obs.
  destruct (cleanup_flags w) as (-> & _).
  auto using cleanup_noFramePending.
Qed.

Lemma monitorIdle_stopServerTranscription w :
  monitorIdle w -> monitorIdle (stopServerTranscription w).
Proof.
  intros (Hf & Hq & Hr). unfold monitorIdle.
  rewrite stopServerTranscription_st, stopServerTranscription_obs.
  destruct (stopServerTranscription_flags w) as (-> & _).
  repeat split; try assumption.
  eapply noFramePending_same; [apply stopServerTranscription_frames | assumption].
Qed.

Lemma monitorIdle_startServerTranscription r w :
  monitorIdle w -> monitorIdle (startServerTranscription r w).
Proof.
  intros (Hf & Hq & Hr). unfold monitorIdle.
  rewrite startServerTranscription_st.
  destruct (startServerTranscription_flags r w) as (-> & Hfr & ->).
  repeat split; try assumption.
  eapply noFramePending_same; eassumption.
Qed.

(** A change that touches neither the flags, the frames nor the
    analyser counter. *)
Lemma monitorIdle_same w w' :
  isCapturing (st w') = isCapturing (st w) ->
  isCapturingRef (refs w') = isCapturingRef (refs w) ->
  frames (dom w') = frames (dom w) ->
  levelReads (obs w') = levelReads (obs w) ->
  monitorIdle w -> monitorIdle w'.
Proof.
  intros H1 H2 H3 H4 (Hf & Hq & Hr). unfold monitorIdle, noFramePending in *.
  now rewrite H1, H2, H3, H4.
Qed.

(** Peels a state update that does not concern the monitor. *)
Ltac peel :=
  lazymatch goal with
  | |- monitorIdle (?f ?w) =>
      let H := fresh in
      cut (monitorIdle w);
      [ generalize w; intros ? H;
        eapply monitorIdle_same; [..| exact H]; reflexivity
      | ]
  end.

Lemma monitorIdle_togglePause r w : monitorIdle w -> monitorIdle (togglePause r w).
Proof.
  intros H. unfold togglePause.
  destruct (isPaused r); cbv zeta; peel.
  - apply monitorIdle_startServerTranscription.
    cases; try assumption; peel; assumption.
  - apply monitorIdle_stopServerTranscription.
    cases; try assumption; peel; assumption.
Qed.

Lemma monitorIdle_reset w : monitorIdle w -> monitorIdle (stopCapture_reset w).
Proof. intros (Hf & Hq & Hr). unfold monitorIdle. now cbn. Qed.

Lemma stopCapture_unfold clk r w :
  stopCapture clk r w = stopCapture_persist clk r (stopCapture_release w).
Proof.
  unfold stopCapture, stopCapture_persist, stopCapture_release,
    stopArchiveRecorder.
  cbv zeta. reflexivity.
Qed.

Lemma startCapture_session_unfold clk r o s w :
  startCapture_session clk r o s w =
  match getAudioTracks (dom w) s with
  | [] =>
      startCapture_catch
        (mkError "No audio stream available. Please ensure you selected a source with audio.") w
  | a :: l =>
      startCapture_reply r o s
        (request (startCall clk r)
           (setupAudioVisualization (so_level o)
              (installHandlers r (a :: l) w)))
  end.
Proof.
  unfold startCapture_session, startCapture_reply, startCapture_begin,
    startArchiveRecorder, installHandlers, startCall, newRecorder.
  cbv zeta. destruct (getAudioTracks (dom w) s); reflexivity.
Qed.

Lemma monitorIdle_stopArchiveRecorder w :
  monitorIdle w -> monitorIdle (stopArchiveRecorder w).
Proof.
  intros H. unfold stopArchiveRecorder.
  destruct (mediaRecorderRef (refs w)); [|assumption].
  destruct (recorderActive _ _); [peel|]; assumption.
Qed.

Lemma monitorIdle_stopCapture clk r w :
  monitorIdle w -> monitorIdle (stopCapture clk r w).
Proof.
  intros H. rewrite stopCapture_unfold.
  assert (H1 : monitorIdle (stopCapture_release w)).
  { unfold stopCapture_release.
    apply monitorIdle_cleanup, monitorIdle_stopArchiveRecorder,
      monitorIdle_stopServerTranscription.
    do 2 peel. assumption. }
  revert H1. generalize (stopCapture_release w). intros w1 H1.
  unfold stopCapture_persist. destruct (truthy (meetingId r)).
  - do 2 peel. assumption.
  - now apply monitorIdle_reset.
Qed.

Lemma monitorIdle_stopCapture_resume clk k o w :
  monitorIdle w -> monitorIdle (stopCapture_resume clk k o w).
Proof.
  intros H. unfold stopCapture_resume.
  destruct o as [e|resp].
  - unfold stopCapture_catch. cbv zeta. do 3 peel. assumption.
  - destruct k; try assumption; try (do 2 peel; assumption).
    apply monitorIdle_reset. peel. assumption.
Qed.

Lemma monitorIdle_sendBlob r size w :
  monitorIdle w -> monitorIdle (sendBlobForTranscription r size w).
Proof.
  intros H. unfold sendBlobForTranscription.
  cases; assumption.
Qed.

Lemma monitorIdle_afterRead r size readOk e w :
  monitorIdle w ->
  monitorIdle (completed (sendBlob_afterRead r size readOk e w)).
Proof.
  intros H. unfold sendBlob_afterRead.
  destruct readOk; cbn [completed sendBlob_handlers]; do 2 peel; assumption.
Qed.

Lemma monitorIdle_afterReply clk r o w :
  monitorIdle w ->
  monitorIdle (completed (sendBlob_afterReply clk r o w)).
Proof.
  intros H. unfold sendBlob_afterReply.
  destruct (sendBlob_body_cases clk r o w)
    as [(s & _ & ->) | (_ & [-> | (e & ->)])];
    cbn [completed sendBlob_handlers]; repeat peel; assumption.
Qed.

Lemma monitorIdle_startTranscriptionRecorder r w :
  monitorIdle w -> monitorIdle (startTranscriptionRecorder r w).
Proof.
  intros H.
  destruct (startTranscriptionRecorder_flags r w) as (H2 & H3 & H4).
  eapply monitorIdle_same; try eassumption.
  now rewrite startTranscriptionRecorder_st.
Qed.

Lemma monitorIdle_cycle r w :
  monitorIdle w -> monitorIdle (cycleTranscriptionRecorder r w).
Proof.
  intros H. unfold cycleTranscriptionRecorder.
  cases; try apply monitorIdle_startTranscriptionRecorder;
    try assumption; peel; assumption.
Qed.

Lemma monitorIdle_onstop rc w : monitorIdle w -> monitorIdle (onstop rc w).
Proof.
  intros H. unfold onstop.
  destruct (rec_role rc); [peel; assumption|].
  destruct (rec_chunks rc); [assumption|].
  now apply monitorIdle_sendBlob.
Qed.

Lemma updateLevel_idle dataArray w :
  isCapturingRef (refs w) = false -> updateLevel dataArray w = w.
Proof.
  intros H. unfold updateLevel. rewrite H. now rewrite orb_true_r.
Qed.

Lemma monitorIdle_setupAudioVisualization dataArray w :
  isCapturingRef (refs w) = false ->
  monitorIdle w -> monitorIdle (setupAudioVisualization dataArray w).
Proof.
  intros Hflag H. unfold setupAudioVisualization. cbv zeta.
  rewrite updateLevel_idle.
  - peel. destruct (audioContextRef (refs w)); [assumption|].
    cbn. do 2 peel. assumption.
  - destruct (audioContextRef (refs w)); assumption.
Qed.

Lemma monitorIdle_startCapture_catch e w :
  monitorIdle w -> monitorIdle (startCapture_catch e w).
Proof.
  intros H. unfold startCapture_catch. cbv zeta.
  apply monitorIdle_cleanup. do 3 peel. assumption.
Qed.

Lemma captureSystemAudio_monitor o w :
  isCapturingRef (refs w) = false -> monitorIdle w ->
  isCapturingRef (refs (captureSystemAudio o w).1) = false /\
  monitorIdle (captureSystemAudio o w).1.
Proof.
  intros Hflag H. unfold captureSystemAudio.
  destruct o as [ks|e]; [|easy].
  destruct (newTracks ks (dom w)) as [ds b] eqn:Hnew.
  injection Hnew as <- <-.
  destruct (getAudioTracks _ _); cbn [fst]; (split; [assumption|]);
    (eapply monitorIdle_same; [..|eassumption]); try reflexivity;
    cbn; now rewrite stopTracks_frames.
Qed.

Lemma captureMicAudio_monitor o w :
  isCapturingRef (refs w) = false -> monitorIdle w ->
  isCapturingRef (refs (captureMicAudio o w).1) = false /\
  monitorIdle (captureMicAudio o w).1.
Proof.
  intros Hflag H. unfold captureMicAudio.
  destruct o as [|e]; [|easy]. cbn. split; [assumption|].
  eapply monitorIdle_same; [..|eassumption]; reflexivity.
Qed.

Lemma combineStreams_monitor w :
  isCapturingRef (refs w) = false -> monitorIdle w ->
  isCapturingRef (refs (combineStreams w).1) = false /\
  monitorIdle (combineStreams w).1.
Proof.
  intros Hflag H. unfold combineStreams. cbn. split; [assumption|].
  eapply monitorIdle_same; [..|eassumption]; reflexivity.
Qed.

Lemma monitorIdle_startArchiveRecorder s w :
  monitorIdle w -> monitorIdle (startArchiveRecorder s w).
Proof.
  intros H. unfold startArchiveRecorder.
  destruct (canRecord _ _); [do 2 peel | peel]; assumption.
Qed.

Lemma monitorIdle_startCapture_begin r data s w :
  monitorIdle w -> monitorIdle (startCapture_begin r data s w).
Proof.
  intros H. unfold startCapture_begin. do 4 peel.
  apply monitorIdle_startServerTranscription.
  assert (H1 : monitorIdle
                 (startArchiveRecorder s
                    (on_refs (upd_activeStreamRef (Some s))
                       (on_refs (upd_meetingIdRef (d_meeting_id data))
                          (setMeetingId (d_meeting_id data) w))))).
  { apply monitorIdle_startArchiveRecorder. do 3 peel. assumption. }
  revert H1. generalize (startArchiveRecorder s
                           (on_refs (upd_activeStreamRef (Some s))
                              (on_refs (upd_meetingIdRef (d_meeting_id data))
                                 (setMeetingId (d_meeting_id data) w)))).
  intros w1 (_ & Hq & Hr). now repeat split.
Qed.

Lemma monitorIdle_startCapture_reply r o s w :
  monitorIdle w -> monitorIdle (startCapture_reply r o s w).
Proof.
  intros H. unfold startCapture_reply.
  destruct (so_reply o) as [e|resp];
    [now apply monitorIdle_startCapture_catch|].
  destruct (negb (resp_ok resp));
    [now apply monitorIdle_startCapture_catch|].
  destruct (resp_json resp) as [e|data];
    [now apply monitorIdle_startCapture_catch|].
  now apply monitorIdle_startCapture_begin.
Qed.

Lemma monitorIdle_startCapture_session clk r o s w :
  isCapturingRef (refs w) = false -> monitorIdle w ->
  monitorIdle (startCapture_session clk r o s w).
Proof.
  intros Hflag H. rewrite startCapture_session_unfold.
  destruct (getAudioTracks (dom w) s) as [|a l].
  { now apply monitorIdle_startCapture_catch. }
  apply monitorIdle_startCapture_reply. peel.
  apply monitorIdle_setupAudioVisualization; [assumption|].
  unfold installHandlers. peel. assumption.
Qed.

Lemma monitorIdle_startCapture clk r o w :
  isCapturingRef (refs w) = false -> monitorIdle w ->
  monitorIdle (startCapture clk r o w).
Proof.
  intros Hflag H. unfold startCapture. cbv zeta.
  assert (H0 : monitorIdle (setStatus Requesting (setError [] w)))
    by (do 2 peel; assumption).
  destruct (captureSystemAudio_monitor (so_display o)
              (setStatus Requesting (setError [] w)) Hflag H0) as [Hf1 H1].
  destruct (captureSystemAudio _ _) as [w1 [e|sys]]; cbn [fst] in *.
  { now apply monitorIdle_startCapture_catch. }
  assert (H2 : monitorIdle (on_refs (upd_systemStreamRef (Some sys)) w1))
    by (peel; assumption).
  destruct (captureSource r);
    try (apply monitorIdle_startCapture_session; assumption).
  destruct (captureMicAudio_monitor (so_mic o)
              (on_refs (upd_systemStreamRef (Some sys)) w1) Hf1 H2)
    as [Hf3 H3].
  destruct (captureMicAudio _ _) as [w3 [e|mic]]; cbn [fst] in *.
  { now apply monitorIdle_startCapture_catch. }
  assert (H4 : monitorIdle (on_refs (upd_micStreamRef (Some mic)) w3))
    by (peel; assumption).
  destruct (combineStreams_monitor
              (on_refs (upd_micStreamRef (Some mic)) w3) Hf3 H4) as [Hf5 H5].
  destruct (combineStreams _) as [w5 active]; cbn [fst] in *.
  apply monitorIdle_startCapture_session; [assumption|].
  peel. assumption.
Qed.

Lemma monitorIdle_step clk e w : monitorIdle w -> monitorIdle (step clk e w).
Proof.
  intros H. destruct e; cbn [step].
  1-5: unfold formEdit; destruct (isCapturing (st w)); [assumption|peel; assumption].
  - destruct (startEnabled (st w)) eqn:Hen; [|assumption].
    apply monitorIdle_startCapture; [|assumption].
    destruct H as (<- & _). unfold startEnabled in Hen.
    now destruct (isCapturing (st w)).
  - destruct (pauseEnabled (st w)); [|assumption].
    unfold commit. peel. now apply monitorIdle_togglePause.
  - destruct (stopEnabled (st w)); [|assumption].
    now apply monitorIdle_stopCapture.
  - destruct (inflight (net w) !! h) as [[[]|]|]; try assumption.
    apply monitorIdle_afterRead. peel. assumption.
  - destruct (inflight (net w) !! h) as [[k|]|]; try assumption.
    destruct k; try assumption;
      try (apply monitorIdle_stopCapture_resume; peel; assumption).
    apply monitorIdle_afterReply. peel. assumption.
  - destruct (intervals (dom w) !! t) as [i|]; [|assumption].
    destruct (int_active i); [|assumption].
    now apply monitorIdle_cycle.
  - destruct (ticker (dom w)); [peel|]; assumption.
  - destruct (recorders (dom w) !! i) as [rc|]; [|assumption].
    destruct (rec_state rc); first [assumption | peel; assumption].
  - destruct (recorders (dom w) !! i) as [rc|]; [|assumption].
    destruct (rec_stopQueued rc); [|assumption].
    apply monitorIdle_onstop. peel. assumption.
  - destruct (tracks (dom w) !! t) as [tr|]; [|assumption].
    destruct (live tr); [|assumption]. cbv zeta.
    assert (H1 : monitorIdle (on_dom (stopTrack t) w)) by (peel; assumption).
    destruct (onended tr) as [r|]; [|assumption].
    unfold onendedHandler. destruct (isCapturingRef _); [|assumption].
    now apply monitorIdle_stopCapture.
  - destruct (frames (dom w) !! f) as [[]|] eqn:Hf; try assumption.
    destruct H as (_ & Hq & _). unfold noFramePending in Hq.
    rewrite Forall_lookup in Hq. now specialize (Hq _ _ Hf).
  - unfold commit. peel. assumption.
Qed.

Lemma monitor_never_runs w : reachable w -> monitorIdle w.
Proof.
  induction 1 as [encoder|clk e w _ IH].
  - repeat split. constructor.
  - now apply monitorIdle_step.
Qed.

Lemma togglePause_flags r w :
  isCapturingRef (refs (togglePause r w)) = isCapturingRef (refs w) /\
  analyserRef (refs (togglePause r w)) = analyserRef (refs w).
Proof.
  unfold togglePause. destruct (isPaused r); cbv zeta.
  - split.
    + cbn [setIsPaused refs on_st].
      destruct (startServerTranscription_flags r
        (if recorderHasState (dom w) (mediaRecorderRef (refs w)) Paused
         then match mediaRecorderRef (refs w) with
              | Some i => on_dom (recorderResume i) w
              | None => w
              end
         else w)) as (-> & _).
      now cases.
    + unfold startServerTranscription, startTranscriptionRecorder. now cases.
  - cbn [setIsPaused refs on_st].
    destruct (stopServerTranscription_flags
        (if recorderHasState (dom w) (mediaRecorderRef (refs w)) Recording
         then match mediaRecorderRef (refs w) with
              | Some i => on_dom (recorderPause i) w
              | None => w
              end
         else w)) as (-> & _ & -> & _).
    now cases.
Qed.

(** ** C7: the level monitor *)

(** C7 (defect).  The level monitor never samples.  [updateLevel] is
    guarded by the analyser and by the capturing flag only, and its one
    direct call, from [setupAudioVisualization], runs before
    [startCapture] sets the flag: in every world the page can reach the
    analyser has never been read and no animation frame is pending, so
    a frame tick changes nothing; a session that is capturing, with the
    analyser attached and the flag set, has requested no frame at all.
    Nor would the guard end the sampling at a pause: [togglePause]
    leaves the flag as it is, and [updateLevel], run in the paused
    session, samples and reschedules itself. *)
Theorem level_monitor_never_samples :
  (forall w, reachable w ->
     levelReads (obs w) = 0%nat /\ noFramePending (dom w) /\
     forall clk f d, step clk (AnimationFrame f d) w = w) /\
  (let w := standup true in
   reachable w /\
   status (st w) = Capturing /\ isCapturing (st w) = true /\
   analyserRef (refs w) = true /\ isCapturingRef (refs w) = true /\
   levelReads (obs w) = 0%nat /\ frames (dom w) = []) /\
  (forall d w,
     analyserRef (refs w) = false \/ isCapturingRef (refs w) = false ->
     updateLevel d w = w) /\
  (forall d w,
     analyserRef (refs w) = true -> isCapturingRef (refs w) = true ->
     levelReads (obs (updateLevel d w)) = S (levelReads (obs w)) /\
     audioLevel (st (updateLevel d w)) = levelOf d /\
     frames (dom (updateLevel d w)) = frames (dom w) ++ [true]) /\
  (forall r w,
     isCapturingRef (refs (togglePause r w)) = isCapturingRef (refs w) /\
     analyserRef (refs (togglePause r w)) = analyserRef (refs w)) /\
  (let p := step (clockAt 4000) ClickPause (standup true) in
   reachable p /\
   isPaused (st p) = true /\ isCapturingRef (refs p) = true /\
   levelReads (obs (updateLevel [128; 128] p)) = 1%nat /\
   frames (dom (updateLevel [128; 128] p)) = [true]).
Proof.
  assert (Hs : reachable (standup true)).
  { apply (reachable_run _ (initial true)), reachable_initial. }
  split_and!.
  - intros w Hw. destruct (monitor_never_runs w Hw) as (_ & Hq & Hr).
    split_and!; try assumption.
    intros clk f d. cbn [step].
    destruct (frames (dom w) !! f) as [[]|] eqn:Hf; try reflexivity.
    unfold noFramePending in Hq. rewrite Forall_lookup in Hq.
    now specialize (Hq _ _ Hf).
  - cbv zeta. split; [exact Hs|]. vm_compute. now split_and!.
  - intros d w [H|H]; unfold updateLevel; rewrite H; [reflexivity|].
    now rewrite orb_true_r.
  - intros d w Ha Hc. unfold updateLevel. rewrite Ha, Hc. now cbn.
  - apply togglePause_flags.
  - cbv zeta. split; [now apply reachable_step|]. vm_compute. now split_and!.
Qed.

(** ** The live transcript and the request log along a run *)

Lemma stopCapture_release_st w :
  st (stopCapture_release w) = upd_status Stopping (st w).
Proof.
  unfold stopCapture_release, stopArchiveRecorder.
  rewrite cleanup_st.
  generalize (stopServerTranscription_st (setStatus Stopping (countStopRun w))).
  generalize (stopServerTranscription (setStatus Stopping (countStopRun w))).
  intros w1 H1. cases; exact H1.
Qed.

Lemma stopCapture_release_net w : net (stopCapture_release w) = net w.
Proof.
  unfold stopCapture_release, stopArchiveRecorder.
  rewrite cleanup_net.
  generalize (stopServerTranscription_net (setStatus Stopping (countStopRun w))).
  generalize (stopServerTranscription (setStatus Stopping (countStopRun w))).
  intros w1 H1. cases; exact H1.
Qed.

Lemma stopCapture_liveTranscript clk r w :
  liveTranscript (st (stopCapture clk r w)) = liveTranscript (st w).
Proof.
  rewrite stopCapture_unfold.
  generalize (stopCapture_release_st w). generalize (stopCapture_release w).
  intros w1 H1. unfold stopCapture_persist, stopCapture_reset.
  destruct (truthy (meetingId r)); cbn; now rewrite H1.
Qed.

Lemma stopCapture_resume_liveTranscript clk k o w :
  liveTranscript (st (stopCapture_resume clk k o w)) = liveTranscript (st w).
Proof. unfold stopCapture_resume. now destruct o, k. Qed.

Lemma sendBlobForTranscription_st r size w :
  st (sendBlobForTranscription r size w) = st w.
Proof. unfold sendBlobForTranscription. cases; reflexivity. Qed.

Lemma onstop_liveTranscript rc w :
  liveTranscript (st (onstop rc w)) = liveTranscript (st w).
Proof.
  unfold onstop. cases; now rewrite ?sendBlobForTranscription_st.
Qed.

Lemma startCapture_catch_st_fields e w :
  liveTranscript (st (startCapture_catch e w)) = liveTranscript (st w).
Proof. unfold startCapture_catch. cbv zeta. now rewrite cleanup_st. Qed.

Lemma updateLevel_liveTranscript d w :
  liveTranscript (st (updateLevel d w)) = liveTranscript (st w).
Proof. unfold updateLevel. now cases. Qed.

Lemma setupAudioVisualization_liveTranscript d w :
  liveTranscript (st (setupAudioVisualization d w)) = liveTranscript (st w).
Proof.
  unfold setupAudioVisualization. cbv zeta.
  rewrite updateLevel_liveTranscript. now cases.
Qed.

Lemma startCapture_session_liveTranscript clk r o s w :
  liveTranscript (st (startCapture_session clk r o s w)) = liveTranscript (st w) \/
  liveTranscript (st (startCapture_session clk r o s w)) = [].
Proof.
  unfold startCapture_session.
  destruct (getAudioTracks (dom w) s);
    [left; apply startCapture_catch_st_fields|].
  destruct (so_reply o) as [e|resp].
  { left. rewrite startCapture_catch_st_fields. cbn.
    now rewrite setupAudioVisualization_liveTranscript. }
  destruct (negb (resp_ok resp)).
  { left. rewrite startCapture_catch_st_fields. cbn.
    now rewrite setupAudioVisualization_liveTranscript. }
  destruct (resp_json resp).
  { left. rewrite startCapture_catch_st_fields. cbn.
    now rewrite setupAudioVisualization_liveTranscript. }
  now right.
Qed.

Lemma captureSystemAudio_st o w : st (captureSystemAudio o w).1 = st w.
Proof. unfold captureSystemAudio. now cases. Qed.

Lemma captureMicAudio_st o w : st (captureMicAudio o w).1 = st w.
Proof. unfold captureMicAudio. now cases. Qed.

Lemma startCapture_liveTranscript clk r o w :
  liveTranscript (st (startCapture clk r o w)) = liveTranscript (st w) \/
  liveTranscript (st (startCapture clk r o w)) = [].
Proof.
  unfold startCapture. cbv zeta.
  pose proof (captureSystemAudio_st (so_display o)
                (setStatus Requesting (setError [] w))) as H1.
  destruct (captureSystemAudio _ _) as [w1 [e|sys]]; cbn [fst] in H1.
  { left. now rewrite startCapture_catch_st_fields, H1. }
  assert (Hs : forall s w',
             liveTranscript (st w') = liveTranscript (st w) ->
             liveTranscript (st (startCapture_session clk r o s w')) =
               liveTranscript (st w) \/
             liveTranscript (st (startCapture_session clk r o s w')) = []).
  { intros s w' <-. apply startCapture_session_liveTranscript. }
  destruct (captureSource r); try (apply Hs; cbn; now rewrite H1).
  pose proof (captureMicAudio_st (so_mic o)
                (on_refs (upd_systemStreamRef (Some sys)) w1)) as H3.
  destruct (captureMicAudio _ _) as [w3 [e|mic]]; cbn [fst] in H3.
  { left. rewrite startCapture_catch_st_fields, H3. cbn. now rewrite H1. }
  unfold combineStreams. cbn. apply Hs. cbn. rewrite H3. cbn. now rewrite H1.
Qed.

(** An event leaves the live transcript alone, clears it (a new session
    starts), or, when it is the completion of a request, appends one
    entry whose id is the clock reading of that event. *)
Lemma step_liveTranscript clk e w :
  liveTranscript (st (step clk e w)) = liveTranscript (st w) \/
  liveTranscript (st (step clk e w)) = [] \/
  exists h o en,
    e = NetReply h o /\ id en = now clk /\
    liveTranscript (st (step clk e w)) = liveTranscript (st w) ++ [en].
Proof.
  destruct e; cbn [step].
  1-5: left; unfold formEdit; now destruct (isCapturing (st w)).
  - destruct (startEnabled (st w)); [|now left].
    destruct (startCapture_liveTranscript clk (st w) o w); auto.
  - left. destruct (pauseEnabled (st w)); [|easy].
    apply (togglePause_liveTranscript (st w) w).
  - left. destruct (stopEnabled (st w)); [|easy].
    apply stopCapture_liveTranscript.
  - left. destruct (inflight (net w) !! h) as [[[]|]|]; try easy.
    unfold sendBlob_afterRead. now destruct readOk.
  - destruct (inflight (net w) !! h) as [[k|]|] eqn:Hk; try now left.
    destruct k; try (now left);
      try (left; now rewrite stopCapture_resume_liveTranscript).
    unfold sendBlob_afterReply.
    destruct (sendBlob_body_cases clk r o (settle h w))
      as [(s & _ & ->) | (_ & [-> | (e & ->)])]; cbn; try now left.
    right; right. exists h, o, (entryAt clk r s). easy.
  - left. destruct (intervals (dom w) !! t) as [i|]; [|easy].
    destruct (int_active i); [|easy].
    now rewrite cycleTranscriptionRecorder_st.
  - left. now destruct (ticker (dom w)).
  - left. destruct (recorders (dom w) !! i) as [rc|]; [|easy].
    now destruct (rec_state rc).
  - left. destruct (recorders (dom w) !! i) as [rc|]; [|easy].
    destruct (rec_stopQueued rc); [|easy].
    now rewrite onstop_liveTranscript.
  - left. destruct (tracks (dom w) !! t) as [tr|]; [|easy].
    destruct (live tr); [|easy]. cbv zeta.
    destruct (onended tr) as [r|]; [|easy].
    unfold onendedHandler. destruct (isCapturingRef _); [|easy].
    now rewrite stopCapture_liveTranscript.
  - left. destruct (frames (dom w) !! f) as [[]|]; try easy.
    now rewrite updateLevel_liveTranscript.
  - now left.
Qed.

(** ** C8: entry ids *)

Lemma StronglySorted_lookup_lt (l : list Z) i j a b :
  StronglySorted Z.lt l -> (i < j)%nat ->
  l !! i = Some a -> l !! j = Some b -> a < b.
Proof.
  intros Hs. revert i j. induction Hs as [|x l Hs IH Hall]; intros i j Hij Hi Hj.
  - discriminate.
  - destruct j as [|j]; [lia|]. destruct i as [|i]; cbn in Hi, Hj.
    + injection Hi as <-. rewrite Forall_lookup in Hall. eauto.
    + apply (IH i j); [lia | assumption..].
Qed.

Lemma StronglySorted_drop_middle (l1 l2 : list Z) x :
  StronglySorted Z.lt (l1 ++ x :: l2) -> StronglySorted Z.lt (l1 ++ l2).
Proof.
  rewrite !StronglySorted_app, StronglySorted_cons.
  intros (H12 & H1 & _ & H2). repeat split; try assumption.
  intros a b Ha Hb. apply H12; [assumption | now right].
Qed.

Lemma run_ids tr w :
  StronglySorted Z.lt (ids w ++ replyClocks tr) ->
  StronglySorted Z.lt (ids (run tr w)).
Proof.
  revert w. induction tr as [|[clk e] tr IH]; intros w Hs.
  { cbn in *. now rewrite app_nil_r in Hs. }
  cbn [run]. apply IH.
  assert (Hrest : StronglySorted Z.lt (ids w ++ replyClocks tr)).
  { destruct e; try exact Hs. cbn [replyClocks] in Hs.
    now apply StronglySorted_drop_middle in Hs. }
  unfold ids in *.
  destruct (step_liveTranscript clk e w)
    as [-> | [-> | (h & o & en & -> & Hid & ->)]].
  - assumption.
  - now apply StronglySorted_app_1_r in Hrest.
  - cbn [replyClocks] in Hs. rewrite map_app, <- app_assoc. cbn.
    now rewrite Hid.
Qed.

(** C8, amended.  The id of an entry is the clock reading taken when
    its reply is handled.  In every run in which the replies are
    handled at strictly increasing clock readings, the ids of the live
    transcript are strictly increasing in append order, hence pairwise
    distinct. *)
Theorem ids_increase_with_clock encoder tr :
  StronglySorted Z.lt (replyClocks tr) ->
  let l := liveTranscript (st (run tr (initial encoder))) in
  idsIncrease l /\
  (forall i j a b,
     i <> j -> l !! i = Some a -> l !! j = Some b -> id a <> id b).
Proof.
  intros Hs l.
  assert (Hl : StronglySorted Z.lt (map id l)) by now apply run_ids.
  assert (Hinc : idsIncrease l).
  { intros i j a b Hij Ha Hb.
    apply (StronglySorted_lookup_lt (map id l) i j); try assumption;
      rewrite list_lookup_fmap; [now rewrite Ha | now rewrite Hb]. }
  split; [assumption|].
  intros i j a b Hne Ha Hb.
  destruct (Nat.lt_total i j) as [Hlt | [-> | Hlt]]; [| congruence |].
  - specialize (Hinc i j a b Hlt Ha Hb). lia.
  - specialize (Hinc j i b a Hlt Hb Ha). lia.
Qed.

Lemma ids_increase_with_clock_witness :
  StronglySorted Z.lt (replyClocks distinctMilliseconds) /\
  ids (run distinctMilliseconds (initial true)) = [20500; 20501] /\
  idsIncrease (liveTranscript (st (run distinctMilliseconds (initial true)))).
Proof.
  assert (Hs : StronglySorted Z.lt (replyClocks distinctMilliseconds)).
  { cbn. repeat constructor. }
  split; [exact Hs|]. split; [reflexivity|].
  apply (ids_increase_with_clock true distinctMilliseconds Hs).
Defined.

(** C8 as stated fails: two replies handled within one millisecond give
    two entries with the same id. *)
Lemma same_millisecond_same_id :
  reachable (run sameMillisecond twoUploads) /\
  ids (run sameMillisecond twoUploads) = [20500; 20500] /\
  ~ idsIncrease (liveTranscript (st (run sameMillisecond twoUploads))).
Proof.
  split.
  { repeat apply reachable_run. apply (reachable_initial true). }
  split; [vm_compute; reflexivity|].
  remember (liveTranscript (st (run sameMillisecond twoUploads))) as l eqn:El.
  vm_compute in El. subst l. intros H.
  specialize (H 0%nat 1%nat _ _ (Nat.lt_0_1) eq_refl eq_refl).
  cbn in H. lia.
Qed.

(** ** C10: the persisted transcript *)

Lemma extends_refl w : extends w w.
Proof. exists []. now rewrite app_nil_r. Qed.

Lemma extends_trans w1 w2 w3 : extends w1 w2 -> extends w2 w3 -> extends w1 w3.
Proof. intros [l1 H1] [l2 H2]. exists (l1 ++ l2). now rewrite H2, H1, app_assoc. Qed.

Lemma extends_same w w' : net w' = net w -> extends w w'.
Proof. intros H. exists []. now rewrite H, app_nil_r. Qed.

Lemma extends_calls w w' : calls (net w') = calls (net w) -> extends w w'.
Proof. intros H. exists []. now rewrite H, app_nil_r. Qed.

Lemma stopCapture_calls clk r w :
  calls (net (stopCapture clk r w)) =
  calls (net w) ++ (if truthy (meetingId r) then [transcriptCall clk r] else []).
Proof.
  rewrite stopCapture_unfold.
  generalize (stopCapture_release_net w). generalize (stopCapture_release w).
  intros w1 H1. unfold stopCapture_persist, stopCapture_reset.
  destruct (truthy (meetingId r)); cbn; rewrite H1;
    [reflexivity | now rewrite app_nil_r].
Qed.

Lemma extends_stopCapture_resume clk k o w :
  extends w (stopCapture_resume clk k o w).
Proof.
  unfold stopCapture_resume.
  destruct o; [now apply extends_same|].
  destruct k; try apply extends_refl; try (eexists; reflexivity).
  now apply extends_same.
Qed.

Lemma sendBlobForTranscription_calls r size w :
  calls (net (sendBlobForTranscription r size w)) = calls (net w).
Proof. unfold sendBlobForTranscription. cases; reflexivity. Qed.

Lemma updateLevel_net d w : net (updateLevel d w) = net w.
Proof. unfold updateLevel. now cases. Qed.

Lemma startCapture_catch_net e w : net (startCapture_catch e w) = net w.
Proof. unfold startCapture_catch. cbv zeta. now rewrite cleanup_net. Qed.

Lemma setupAudioVisualization_net d w :
  net (setupAudioVisualization d w) = net w.
Proof.
  unfold setupAudioVisualization. cbv zeta.
  rewrite updateLevel_net. now cases.
Qed.

Lemma startArchiveRecorder_net s w : net (startArchiveRecorder s w) = net w.
Proof. unfold startArchiveRecorder. now destruct (canRecord _ _). Qed.

Lemma startCapture_begin_net r data s w :
  net (startCapture_begin r data s w) = net w.
Proof.
  unfold startCapture_begin. simpl_world.
  rewrite startServerTranscription_net. simpl_world.
  now rewrite startArchiveRecorder_net.
Qed.

Lemma startCapture_reply_net r o s w : net (startCapture_reply r o s w) = net w.
Proof.
  unfold startCapture_reply.
  destruct (so_reply o) as [e|resp]; [apply startCapture_catch_net|].
  destruct (negb (resp_ok resp)); [apply startCapture_catch_net|].
  destruct (resp_json resp); [apply startCapture_catch_net|].
  apply startCapture_begin_net.
Qed.

(** The start sequence issues at most one request, the one to
    /recording/start. *)
Lemma startCapture_session_calls clk r o s w :
  calls (net (startCapture_session clk r o s w)) =
  calls (net w) ++
  match getAudioTracks (dom w) s with
  | [] => []
  | _ :: _ => [startCall clk r]
  end.
Proof.
  rewrite startCapture_session_unfold.
  destruct (getAudioTracks (dom w) s).
  - now rewrite startCapture_catch_net, app_nil_r.
  - rewrite startCapture_reply_net. cbn.
    now rewrite setupAudioVisualization_net.
Qed.

Lemma extends_startCapture_session clk r o s w :
  extends w (startCapture_session clk r o s w).
Proof. eexists. apply startCapture_session_calls. Qed.

Lemma captureSystemAudio_net o w : net (captureSystemAudio o w).1 = net w.
Proof. unfold captureSystemAudio. now cases. Qed.

Lemma captureMicAudio_net o w : net (captureMicAudio o w).1 = net w.
Proof. unfold captureMicAudio. now cases. Qed.

Lemma extends_startCapture clk r o w : extends w (startCapture clk r o w).
Proof.
  unfold startCapture. cbv zeta.
  pose proof (captureSystemAudio_net (so_display o)
                (setStatus Requesting (setError [] w))) as H1.
  destruct (captureSystemAudio _ _) as [w1 [e|sys]]; cbn [fst] in H1.
  { apply extends_same. now rewrite startCapture_catch_net. }
  destruct (captureSource r);
    try (eapply extends_trans; [|apply extends_startCapture_session];
         now apply extends_same).
  pose proof (captureMicAudio_net (so_mic o)
                (on_refs (upd_systemStreamRef (Some sys)) w1)) as H3.
  destruct (captureMicAudio _ _) as [w3 [e|mic]]; cbn [fst] in H3.
  { apply extends_same. rewrite startCapture_catch_net, H3. exact H1. }
  unfold combineStreams. cbn.
  eapply extends_trans; [|apply extends_startCapture_session].
  apply extends_same. cbn. rewrite H3. exact H1.
Qed.

Lemma extends_step clk e w : extends w (step clk e w).
Proof.
  destruct e; cbn [step].
  1-5: unfold formEdit; destruct (isCapturing (st w)); now apply extends_same.
  - destruct (startEnabled (st w)); [|apply extends_refl].
    apply extends_startCapture.
  - destruct (pauseEnabled (st w)); [|apply extends_refl].
    apply extends_same. apply (togglePause_net (st w) w).
  - destruct (stopEnabled (st w)); [|apply extends_refl].
    eexists. apply stopCapture_calls.
  - destruct (inflight (net w) !! h) as [[[]|]|]; try apply extends_refl.
    unfold sendBlob_afterRead. destruct readOk; [|now apply extends_calls].
    eexists. reflexivity.
  - destruct (inflight (net w) !! h) as [[k|]|] eqn:Hk; try apply extends_refl.
    destruct k; try apply extends_refl;
      try (apply (extends_trans _ (settle h w));
             [now apply extends_calls | apply extends_stopCapture_resume]).
    unfold sendBlob_afterReply.
    destruct (sendBlob_body_cases clk r o (settle h w))
      as [(s & _ & ->) | (_ & [-> | (e & ->)])]; now apply extends_calls.
  - destruct (intervals (dom w) !! t) as [i|]; [|apply extends_refl].
    destruct (int_active i); [|apply extends_refl].
    apply extends_same, cycleTranscriptionRecorder_net.
  - destruct (ticker (dom w)); now apply extends_same.
  - destruct (recorders (dom w) !! i) as [rc|]; [|apply extends_refl].
    destruct (rec_state rc); now apply extends_same.
  - destruct (recorders (dom w) !! i) as [rc|]; [|apply extends_refl].
    destruct (rec_stopQueued rc); [|apply extends_refl].
    apply extends_calls. unfold onstop.
    cases; now rewrite ?sendBlobForTranscription_calls.
  - destruct (tracks (dom w) !! t) as [tr|]; [|apply extends_refl].
    destruct (live tr); [|apply extends_refl]. cbv zeta.
    destruct (onended tr) as [r|]; [|now apply extends_same].
    unfold onendedHandler. destruct (isCapturingRef _);
      [|now apply extends_same].
    eexists. rewrite stopCapture_calls. reflexivity.
  - destruct (frames (dom w) !! f) as [[]|]; try apply extends_refl.
    apply extends_same. now rewrite updateLevel_net.
  - now apply extends_same.
Qed.

Lemma extends_run tr w : extends w (run tr w).
Proof.
  revert w. induction tr as [|[clk e] tr IH]; intros w; [apply extends_refl|].
  cbn [run]. eapply extends_trans; [apply extends_step | apply IH].
Qed.

Lemma extends_lookup w w' n c :
  extends w w' -> calls (net w) !! n = Some c -> calls (net w') !! n = Some c.
Proof. intros [l ->] H. now apply lookup_app_l_Some. Qed.

Lemma join_app sep (l1 l2 : list jsstring) :
  l1 <> [] -> l2 <> [] ->
  join sep (l1 ++ l2) = join sep l1 ++ sep ++ join sep l2.
Proof.
  intros H1 H2. induction l1 as [|x l1 IH]; [easy|].
  destruct l1 as [|y l1].
  - destruct l2; [easy|reflexivity].
  - change (join sep ((x :: y :: l1) ++ l2))
      with (x ++ sep ++ join sep ((y :: l1) ++ l2)).
    rewrite IH by easy. cbn [join]. now rewrite <- !app_assoc.
Qed.

Lemma fullTranscript_snoc l e :
  l <> [] ->
  fullTranscript (l ++ [e]) = fullTranscript l ++ [10%N; 10%N] ++ formatEntry e.
Proof.
  intros Hl. unfold fullTranscript. rewrite map_app.
  apply join_app; [now destruct l | easy].
Qed.

Lemma fullTranscript_snoc_neq l e :
  fullTranscript (l ++ [e]) <> fullTranscript l.
Proof.
  destruct l as [|a l].
  - unfold fullTranscript, formatEntry. cbn.
    intros H. apply (f_equal length) in H.
    rewrite !length_app in H. cbn in H. lia.
  - rewrite fullTranscript_snoc by easy.
    intros H. apply (f_equal length) in H.
    rewrite !length_app in H. cbn in H. lia.
Qed.

Lemma extends_live_step clk e l :
  extends (worldOf l) (worldOf (live_step clk e l)).
Proof.
  assert (Hu : forall w, extends w (unmount w)).
  { intros w. apply extends_same. unfold unmount.
    now rewrite net_on_dom, cleanup_net. }
  destruct l as [w|w|w]; cbn [live_step worldOf].
  - destruct e as [e|]; [|apply Hu]. cbv zeta.
    destruct (handedOver (step clk e w)); apply extends_step.
  - destruct e as [e|]; [|apply Hu].
    destruct e; cbn [isCallback worldOf];
      first [apply Hu | apply extends_step | apply extends_refl].
  - destruct e as [e|]; [|apply extends_refl].
    destruct (isCallback e); [|apply extends_refl].
    cbn [worldOf]. unfold dropState.
    destruct (extends_step clk e w) as [k Hk]. exists k.
    now rewrite net_on_st.
Qed.

Lemma extends_live_run tr l : extends (worldOf l) (worldOf (live_run tr l)).
Proof.
  revert l. induction tr as [|[clk e] tr IH]; intros l; [apply extends_refl|].
  cbn [live_run]. eapply extends_trans; [apply extends_live_step | apply IH].
Qed.



(** ** C6: tracks ended by the platform *)

(** C6 (defect).  When the platform ends the captured tracks, the
    handler runs the [stopCapture] of the render in which Start was
    clicked, whose [meetingId] is still null.  The stop runs once and
    releases everything, but none of the three persistence requests is
    issued and the host is not notified, although the session had an
    open meeting; the Stop button, from the same world, does issue
    them. *)
Theorem track_end_skips_persistence :
  let w := run sharingStopped twoTracks in
  meetingIdRef (refs twoTracks) = JNum 7 /\
  isCapturingRef (refs twoTracks) = true /\
  stopRuns (obs w) = 1%nat /\
  status (st w) = Idle /\ isCapturing (st w) = false /\
  calls (net w) = calls (net twoTracks) /\
  inflight (net w) = [] /\
  notified (obs w) = [] /\
  calls (net (step (clockAt 5000) ClickStop twoTracks)) =
    calls (net twoTracks) ++
    [transcriptCall (clockAt 5000) (st twoTracks)].
Proof. vm_compute. repeat split; reflexivity. Qed.

(** ** C3: persistence failures at stop *)

(** C3 (defect).  The three requests are issued in order, but their
    responses are never inspected: a metadata update answered with
    status 500 raises no error, the sequence goes on and reports
    success to the host. *)
Theorem stop_ignores_failed_response :
  let w := run stopWith500 (standup true) in
  map c_endpoint (calls (net w)) =
    [RecordingStart; Transcription (JNum 7); Meetings (JNum 7);
     RecordingStop (JNum 7)] /\
  error (st w) = [] /\
  consoleErrors (obs w) = [] /\
  notified (obs w) = [JNum 7] /\
  status (st w) = Idle /\
  Forall (fun i => isLive (dom w) i = false) [0; 1]%nat /\
  contextOpen (dom w) (Some 0%nat) = false.
Proof. vm_compute. repeat split; repeat constructor. Qed.

(** ** C2: one cycle at a time *)

Lemma offP_heldP p : offP p -> heldP p.
Proof. intros H i Hi. now destruct (H i). Qed.

Lemma calmer_refl p : calmer p p.
Proof. now split. Qed.

Lemma calmer_eq p p' : p' = p -> calmer p p'.
Proof. intros ->. apply calmer_refl. Qed.

Lemma calmer_trans p1 p2 p3 : calmer p1 p2 -> calmer p2 p3 -> calmer p1 p3.
Proof. intros [H1 H2] [H3 H4]. split; auto. Qed.

Lemma quencher_calmer p p' : quencher p p' -> calmer p p'.
Proof.
  intros H. split; intros Hp.
  - apply offP_heldP, H, Hp.
  - apply H, offP_heldP, Hp.
Qed.

Lemma quencher_then p1 p2 p3 : quencher p1 p2 -> calmer p2 p3 -> quencher p1 p3.
Proof. intros H1 [_ H2] Hp. auto. Qed.

Lemma then_quencher p1 p2 p3 : calmer p1 p2 -> quencher p2 p3 -> quencher p1 p3.
Proof. intros [H1 _] H2 Hp. auto. Qed.

Lemma starter_then p1 p2 p3 : starter p1 p2 -> calmer p2 p3 -> starter p1 p3.
Proof. intros H1 [H2 _] Hp. auto. Qed.

Lemma then_starter p1 p2 p3 : calmer p1 p2 -> starter p2 p3 -> starter p1 p3.
Proof. intros [_ H1] H2 Hp. auto. Qed.

Lemma lookup_offAt j l i :
  offAt j l !! i = Some true -> l !! i = Some true /\ j <> Some i.
Proof.
  destruct j as [j|]; cbn; [|intros H; split; [exact H | discriminate]].
  destruct (decide (j = i)) as [->|Hne].
  - rewrite list_lookup_alter_eq. now destruct (l !! i).
  - rewrite list_lookup_alter_ne by assumption. intros H.
    split; [exact H | congruence].
Qed.

(** Switching an entry off. *)
Lemma calmer_offAt j l r : calmer (l, r) (offAt j l, r).
Proof.
  split; intros H i Hi; cbn in *; apply lookup_offAt in Hi as [Hi _].
  - now apply H.
  - now apply (H i).
Qed.

(** Switching off the entry the ref names, whatever the ref becomes. *)
Lemma quencher_offAt l r r' : quencher (l, r) (offAt r l, r').
Proof.
  intros H i Hi. cbn in *. apply lookup_offAt in Hi as [Hi Hne].
  apply Hne, H, Hi.
Qed.

(** A new entry that is on, named by the ref. *)
Lemma starter_snoc l r : starter (l, r) (l ++ [true], Some (length l)).
Proof.
  intros H i Hi. cbn in *. f_equal.
  destruct (decide (i < length l)%nat) as [Hlt|Hge].
  - rewrite lookup_app_l in Hi by assumption. now destruct (H i).
  - apply lookup_lt_Some in Hi. rewrite length_app in Hi. cbn in Hi. lia.
Qed.

(** A new entry that is off. *)
Lemma calmer_snoc l r : calmer (l, r) (l ++ [false], r).
Proof.
  assert (Hl : forall i, (l ++ [false]) !! i = Some true -> l !! i = Some true).
  { intros i Hi. destruct (decide (i < length l)%nat) as [Hlt|Hge].
    - now rewrite lookup_app_l in Hi.
    - rewrite lookup_app_r in Hi by lia.
      destruct (i - length l)%nat; cbn in Hi; discriminate. }
  split; intros H i Hi; cbn in *; apply Hl in Hi.
  - now apply H.
  - now apply (H i).
Qed.

(** The parts under the browser primitives. *)
Lemma timers_clearInterval t b :
  map int_active (intervals (clearInterval t b)) =
  offAt (Some t) (map int_active (intervals b)).
Proof.
  unfold clearInterval. cbn. apply list_fmap_alter.
  apply Forall_forall. now intros.
Qed.

Lemma cyclers_recorderStop i b :
  map isCycling (recorders (recorderStop i b)) =
  offAt (Some i) (map isCycling (recorders b)).
Proof.
  unfold recorderStop. cbn. apply list_fmap_alter.
  apply Forall_forall. intros rc _. unfold isCycling. cbn.
  now destruct (rec_role rc).
Qed.

Lemma cyclers_alter_same (g : Recorder -> Recorder) i l :
  (forall rc, l !! i = Some rc -> isCycling (g rc) = isCycling rc) ->
  map isCycling (alter g i l) = map isCycling l.
Proof.
  intros H. apply list_eq. intros k. rewrite !list_lookup_fmap.
  destruct (decide (i = k)) as [->|Hne].
  - rewrite list_lookup_alter_eq. destruct (l !! k) as [rc|] eqn:Hk; [|easy].
    cbn. f_equal. now apply H.
  - now rewrite list_lookup_alter_ne.
Qed.

Lemma cyclers_insert_off i rc l :
  isCycling rc = false ->
  map isCycling (<[i := rc]> l) = offAt (Some i) (map isCycling l).
Proof.
  intros H. rewrite list_fmap_insert, H. cbn. apply list_insert_alter.
Qed.

Lemma cyclers_recorderPause i b :
  recorderHasState b (Some i) Recording = true ->
  map isCycling (recorders (recorderPause i b)) = map isCycling (recorders b).
Proof.
  intros H. unfold recorderPause. cbn. apply cyclers_alter_same.
  intros rc Hrc. unfold recorderHasState in H. rewrite Hrc in H.
  unfold isCycling. cbn. now destruct (rec_state rc), (rec_role rc).
Qed.

Lemma cyclers_recorderResume i b :
  recorderHasState b (Some i) Paused = true ->
  map isCycling (recorders (recorderResume i b)) = map isCycling (recorders b).
Proof.
  intros H. unfold recorderResume. cbn. apply cyclers_alter_same.
  intros rc Hrc. unfold recorderHasState in H. rewrite Hrc in H.
  unfold isCycling. cbn. now destruct (rec_state rc), (rec_role rc).
Qed.

Lemma cyclers_pushChunk size i l :
  map isCycling (alter (pushChunk size) i l) = map isCycling l.
Proof.
  apply cyclers_alter_same. intros rc _. unfold pushChunk, isCycling.
  now destruct (0 <? size).
Qed.

(** ** The handlers on the two parts *)

Lemma parts_cleanup_frame w :
  timerPart (cleanup_frame w) = timerPart w /\
  cyclerPart (cleanup_frame w) = cyclerPart w.
Proof. unfold cleanup_frame. now destruct (animationFrameRef (refs w)). Qed.

Lemma parts_cleanup_timer w :
  quencher (timerPart w) (timerPart (cleanup_timer w)) /\
  cyclerPart (cleanup_timer w) = cyclerPart w.
Proof.
  unfold cleanup_timer, timerPart.
  destruct (transcriptionTimerRef (refs w)) as [t|] eqn:Ht.
  - split; [|reflexivity]. cbn [refs dom on_refs on_dom upd_transcriptionTimerRef
      transcriptionTimerRef].
    rewrite timers_clearInterval. apply quencher_offAt.
  - split; [|reflexivity]. rewrite Ht.
    apply (quencher_offAt _ None None).
Qed.

Lemma parts_stopCycleRecorder w :
  timerPart (stopCycleRecorder w) = timerPart w /\
  exists j, cyclerPart (stopCycleRecorder w) =
            (offAt j (cyclerPart w).1, (cyclerPart w).2) /\
            (recorderActive (dom w) (transcriptionRecorderRef (refs w)) = true ->
             j = transcriptionRecorderRef (refs w)).
Proof.
  unfold stopCycleRecorder.
  unfold cyclerPart.
  destruct (transcriptionRecorderRef (refs w)) as [i|] eqn:Hi;
    [|split; [reflexivity|]; exists None; now rewrite Hi].
  destruct (recorderActive (dom w) (Some i)) eqn:Ha;
    [|split; [reflexivity|]; exists None; now rewrite Hi].
  split; [reflexivity|]. exists (Some i). split; [|easy].
  cbn [dom refs on_dom fst snd].
  now rewrite cyclers_recorderStop, Hi.
Qed.

(** A recorder that is not active is not cycling. *)
Lemma inactive_not_cycling b ref i :
  recorderActive b ref = false ->
  map isCycling (recorders b) !! i = Some true -> ref <> Some i.
Proof.
  intros Ha Hi ->. unfold recorderActive in Ha.
  rewrite list_lookup_fmap in Hi.
  destruct (recorders b !! i) as [rc|]; [|discriminate].
  cbn in Hi. injection Hi as Hi. unfold isCycling in Hi.
  destruct (rec_role rc); [discriminate|].
  now rewrite Hi in Ha.
Qed.

Lemma quencher_stopCycleRecorder w r' :
  quencher (cyclerPart w)
    ((cyclerPart (stopCycleRecorder w)).1, r').
Proof.
  destruct (parts_stopCycleRecorder w) as (_ & j & -> & Hj).
  cbn [fst]. intros H i Hi. cbn in Hi.
  apply lookup_offAt in Hi as [Hi Hne].
  pose proof (H i Hi) as Href. cbn in Href.
  destruct (recorderActive (dom w) (transcriptionRecorderRef (refs w))) eqn:Ha.
  - rewrite (Hj eq_refl) in Hne. contradiction.
  - now apply (inactive_not_cycling _ _ i Ha).
Qed.

Lemma parts_stopServerTranscription w :
  quencher (timerPart w) (timerPart (stopServerTranscription w)) /\
  quencher (cyclerPart w) (cyclerPart (stopServerTranscription w)).
Proof.
  rewrite stopServerTranscription_stages.
  destruct (parts_cleanup_timer w) as [Ht Hc].
  destruct (parts_stopCycleRecorder (cleanup_timer w)) as (Ht' & _).
  split.
  - unfold timerPart in *. cbn [refs dom on_refs]. cbn in *.
    injection Ht' as Ht1 Ht2. now rewrite Ht1, Ht2.
  - pose proof (quencher_stopCycleRecorder (cleanup_timer w) None) as Hq.
    unfold cyclerPart at 1 in Hq. unfold cyclerPart at 1.
    injection Hc as Hc1 Hc2. rewrite Hc1, Hc2 in Hq. exact Hq.
Qed.

Lemma parts_cleanup_cycleRecorder w :
  timerPart (cleanup_cycleRecorder w) = timerPart w /\
  quencher (cyclerPart w) (cyclerPart (cleanup_cycleRecorder w)).
Proof.
  unfold cleanup_cycleRecorder.
  destruct (transcriptionRecorderRef (refs w)) as [i|] eqn:Hi.
  - destruct (recorderActive (dom w) (Some i)) eqn:Ha.
    + split; [reflexivity|]. unfold cyclerPart.
      cbn [dom refs on_dom on_refs]. rewrite cyclers_recorderStop, Hi.
      apply quencher_offAt.
    + split; [reflexivity|]. intros H k Hk.
      pose proof (H k Hk) as Href. cbn in Href. rewrite Hi in Href.
      apply (inactive_not_cycling _ _ k Ha Hk). exact Href.
  - split; [reflexivity|]. intros H k Hk.
    pose proof (H k Hk) as Href. cbn in Href. now rewrite Hi in Href.
Qed.

Lemma parts_stopArchiveRecorder w :
  timerPart (stopArchiveRecorder w) = timerPart w /\
  calmer (cyclerPart w) (cyclerPart (stopArchiveRecorder w)).
Proof.
  unfold stopArchiveRecorder.
  destruct (mediaRecorderRef (refs w)) as [i|];
    [|split; [reflexivity | apply calmer_refl]].
  destruct (recorderActive (dom w) (Some i));
    [|split; [reflexivity | apply calmer_refl]].
  split; [reflexivity|]. unfold cyclerPart. cbn [dom refs on_dom].
  rewrite cyclers_recorderStop. apply calmer_offAt.
Qed.

Lemma parts_releaseStream ref clear w :
  (forall r, transcriptionTimerRef (clear r) = transcriptionTimerRef r) ->
  (forall r, transcriptionRecorderRef (clear r) = transcriptionRecorderRef r) ->
  timerPart (releaseStream ref clear w) = timerPart w /\
  cyclerPart (releaseStream ref clear w) = cyclerPart w.
Proof.
  intros H1 H2. unfold releaseStream. destruct (ref (refs w)) as [s|]; [|easy].
  unfold timerPart, cyclerPart. cbn [refs dom on_refs on_dom].
  rewrite H1, H2.
  assert (Hs : intervals (stopTracks s (dom w)) = intervals (dom w) /\
               recorders (stopTracks s (dom w)) = recorders (dom w)).
  { unfold stopTracks. generalize (dom w). induction s as [|a s IH];
      intros b; [easy|]. cbn [foldl]. destruct (IH (stopTrack a b)) as [-> ->].
    easy. }
  destruct Hs as [-> ->]. easy.
Qed.

Lemma parts_cleanup_context w :
  timerPart (cleanup_context w) = timerPart w /\
  cyclerPart (cleanup_context w) = cyclerPart w.
Proof.
  unfold cleanup_context. destruct (audioContextRef (refs w)); [|easy].
  now destruct (contextOpen _ _).
Qed.

Lemma parts_cleanup w :
  quencher (timerPart w) (timerPart (cleanup w)) /\
  quencher (cyclerPart w) (cyclerPart (cleanup w)).
Proof.
  rewrite cleanup_stages.
  destruct (parts_cleanup_frame w) as [Ta Ca].
  destruct (parts_cleanup_timer (cleanup_frame w)) as [Tb Cb].
  destruct (parts_cleanup_cycleRecorder (cleanup_timer (cleanup_frame w)))
    as [Tc Cc].
  destruct (parts_stopArchiveRecorder
              (cleanup_cycleRecorder (cleanup_timer (cleanup_frame w))))
    as [Td Cd].
  revert Tc Cc Td Cd.
  generalize (stopArchiveRecorder
                (cleanup_cycleRecorder (cleanup_timer (cleanup_frame w)))).
  intros w4 Tc Cc Td Cd.
  destruct (parts_releaseStream systemStreamRef (upd_systemStreamRef None) w4)
    as [Te Ce]; [easy..|].
  revert Te Ce.
  generalize (releaseStream systemStreamRef (upd_systemStreamRef None) w4).
  intros w5 Te Ce.
  destruct (parts_releaseStream micStreamRef (upd_micStreamRef None) w5)
    as [Tf Cf]; [easy..|].
  revert Tf Cf.
  generalize (releaseStream micStreamRef (upd_micStreamRef None) w5).
  intros w6 Tf Cf.
  destruct (parts_releaseStream combinedStreamRef (upd_combinedStreamRef None) w6)
    as [Tg Cg]; [easy..|].
  revert Tg Cg.
  generalize (releaseStream combinedStreamRef (upd_combinedStreamRef None) w6).
  intros w7 Tg Cg.
  destruct (parts_cleanup_context w7) as [Th Ch].
  rewrite Th, Tg, Tf, Te, Td, Tc, Ch, Cg, Cf, Ce.
  rewrite Ta in Tb. rewrite Cb, Ca in Cc.
  split; [exact Tb|].
  eapply quencher_then; eassumption.
Qed.

Lemma pair_eta {A B} (p : A * B) : (p.1, p.2) = p.
Proof. now destruct p. Qed.

Lemma parts_startTranscriptionRecorder r w :
  timerPart (startTranscriptionRecorder r w) = timerPart w /\
  starter (cyclerPart w) (cyclerPart (startTranscriptionRecorder r w)).
Proof.
  unfold startTranscriptionRecorder.
  destruct (activeStreamRef (refs w)) as [stream|];
    [|split; [reflexivity | exact (offP_heldP _)]].
  destruct (getAudioTracks (dom w) stream);
    [split; [reflexivity | exact (offP_heldP _)]|].
  destruct (canRecord (dom w) stream);
    [|split; [reflexivity | exact (offP_heldP _)]].
  split; [reflexivity|]. unfold cyclerPart.
  cbn [newRecorder dom refs on_dom on_refs upd_recorders recorders
       upd_transcriptionRecorderRef transcriptionRecorderRef].
  rewrite map_app. cbn [map isCycling rec_role rec_state isInactive negb].
  rewrite <- (length_map isCycling). apply starter_snoc.
Qed.

Lemma parts_startServerTranscription r w :
  starter (timerPart w) (timerPart (startServerTranscription r w)) /\
  starter (cyclerPart w) (cyclerPart (startServerTranscription r w)).
Proof.
  unfold startServerTranscription. cbv zeta.
  destruct (parts_startTranscriptionRecorder r
              (on_refs (upd_isTranscribingRef false) w)) as [Ht Hc].
  revert Ht Hc.
  generalize (startTranscriptionRecorder r
                (on_refs (upd_isTranscribingRef false) w)).
  intros w2 Ht Hc. split.
  - unfold timerPart in *. cbn in *. injection Ht as Ht1 Ht2.
    rewrite map_app. cbn [map int_active]. rewrite Ht1.
    rewrite <- (length_map int_active), Ht1. apply starter_snoc.
  - exact Hc.
Qed.

Lemma cycleTranscriptionRecorder_stages r w :
  cycleTranscriptionRecorder r w =
  if isCapturingRef (refs (stopCycleRecorder w))
  then startTranscriptionRecorder r (stopCycleRecorder w)
  else stopCycleRecorder w.
Proof. reflexivity. Qed.

Lemma parts_cycle r w :
  timerPart (cycleTranscriptionRecorder r w) = timerPart w /\
  (heldP (cyclerPart w) ->
   heldP (cyclerPart (cycleTranscriptionRecorder r w))).
Proof.
  rewrite cycleTranscriptionRecorder_stages.
  destruct (parts_stopCycleRecorder w) as (Ht & _).
  pose proof (quencher_stopCycleRecorder w
                (cyclerPart (stopCycleRecorder w)).2) as Hq.
  rewrite pair_eta in Hq. revert Ht Hq.
  generalize (stopCycleRecorder w). intros w1 Ht Hq.
  destruct (isCapturingRef (refs w1)).
  - destruct (parts_startTranscriptionRecorder r w1) as [-> Hs].
    split; [exact Ht|]. intros H. apply Hs, Hq, H.
  - split; [exact Ht|]. intros H. apply offP_heldP, Hq, H.
Qed.

Lemma parts_startArchiveRecorder s w :
  timerPart (startArchiveRecorder s w) = timerPart w /\
  calmer (cyclerPart w) (cyclerPart (startArchiveRecorder s w)).
Proof.
  unfold startArchiveRecorder. destruct (canRecord (dom w) s);
    [|split; [reflexivity | apply calmer_refl]].
  split; [reflexivity|]. unfold cyclerPart.
  cbn [newRecorder dom refs on_dom on_refs upd_recorders recorders
       upd_mediaRecorderRef transcriptionRecorderRef snd].
  rewrite map_app. apply calmer_snoc.
Qed.

Lemma parts_togglePause r w :
  (isPaused r = false ->
   quencher (timerPart w) (timerPart (togglePause r w)) /\
   quencher (cyclerPart w) (cyclerPart (togglePause r w))) /\
  (isPaused r = true ->
   starter (timerPart w) (timerPart (togglePause r w)) /\
   starter (cyclerPart w) (cyclerPart (togglePause r w))) /\
  isPaused (st (togglePause r w)) = negb (isPaused r) /\
  isCapturing (st (togglePause r w)) = isCapturing (st w).
Proof.
  unfold togglePause. destruct (isPaused r); cbv zeta.
  - set (w1 := if recorderHasState _ _ Paused then _ else w).
    assert (H1 : timerPart w1 = timerPart w /\ cyclerPart w1 = cyclerPart w /\
                 st w1 = st w).
    { subst w1. destruct (recorderHasState _ _ Paused) eqn:Hs; [|easy].
      destruct (mediaRecorderRef (refs w)) as [i|]; [|easy].
      split_and!; try reflexivity. unfold cyclerPart. cbn [dom refs on_dom].
      now rewrite cyclers_recorderResume. }
    destruct H1 as (Ht & Hc & Hst). clearbody w1.
    destruct (parts_startServerTranscription r w1) as [Hts Hcs].
    split_and!; try easy.
    + intros _. rewrite <- Ht, <- Hc. now split.
    + cbn. now rewrite startServerTranscription_st, Hst.
  - set (w1 := if recorderHasState _ _ Recording then _ else w).
    assert (H1 : timerPart w1 = timerPart w /\ cyclerPart w1 = cyclerPart w /\
                 st w1 = st w).
    { subst w1. destruct (recorderHasState _ _ Recording) eqn:Hs; [|easy].
      destruct (mediaRecorderRef (refs w)) as [i|]; [|easy].
      split_and!; try reflexivity. unfold cyclerPart. cbn [dom refs on_dom].
      now rewrite cyclers_recorderPause. }
    destruct H1 as (Ht & Hc & Hst). clearbody w1.
    destruct (parts_stopServerTranscription w1) as [Hts Hcs].
    split_and!; try easy.
    + intros _. rewrite <- Ht, <- Hc. now split.
    + cbn. now rewrite stopServerTranscription_st, Hst.
Qed.

Lemma parts_stopCapture_release w :
  quencher (timerPart w) (timerPart (stopCapture_release w)) /\
  quencher (cyclerPart w) (cyclerPart (stopCapture_release w)).
Proof.
  unfold stopCapture_release.
  destruct (parts_stopServerTranscription (setStatus Stopping (countStopRun w)))
    as [Ht1 Hc1].
  change (timerPart (setStatus Stopping (countStopRun w))) with (timerPart w)
    in Ht1.
  change (cyclerPart (setStatus Stopping (countStopRun w))) with (cyclerPart w)
    in Hc1.
  revert Ht1 Hc1.
  generalize (stopServerTranscription (setStatus Stopping (countStopRun w))).
  intros w1 Ht1 Hc1.
  destruct (parts_stopArchiveRecorder w1) as [Ht2 Hc2].
  revert Ht2 Hc2. generalize (stopArchiveRecorder w1). intros w2 Ht2 Hc2.
  destruct (parts_cleanup w2) as [Ht3 Hc3].
  split.
  - eapply quencher_then; [exact Ht1|]. rewrite <- Ht2.
    now apply quencher_calmer.
  - eapply quencher_then; [exact Hc1|].
    eapply calmer_trans; [exact Hc2|]. now apply quencher_calmer.
Qed.

Lemma parts_stopCapture clk r w :
  quencher (timerPart w) (timerPart (stopCapture clk r w)) /\
  quencher (cyclerPart w) (cyclerPart (stopCapture clk r w)).
Proof.
  rewrite stopCapture_unfold.
  destruct (parts_stopCapture_release w) as [Ht Hc]. revert Ht Hc.
  generalize (stopCapture_release w). intros w1 Ht Hc.
  unfold stopCapture_persist. now destruct (truthy (meetingId r)).
Qed.

Lemma flags_stopCapture clk r w :
  flagsOf (stopCapture clk r w) = flagsOf w \/
  flagsOf (stopCapture clk r w) = (false, false).
Proof.
  rewrite stopCapture_unfold. unfold flagsOf.
  pose proof (stopCapture_release_st w) as Hst. revert Hst.
  generalize (stopCapture_release w). intros w1 Hst.
  unfold stopCapture_persist. destruct (truthy (meetingId r)).
  - left. cbn. now rewrite Hst.
  - now right.
Qed.

Lemma parts_startCapture_catch e w :
  quencher (timerPart w) (timerPart (startCapture_catch e w)) /\
  quencher (cyclerPart w) (cyclerPart (startCapture_catch e w)) /\
  flagsOf (startCapture_catch e w) = flagsOf w.
Proof.
  unfold startCapture_catch. cbv zeta.
  set (w1 := setStatus Idle _).
  destruct (parts_cleanup w1) as [Ht Hc].
  split_and!; try assumption.
  unfold flagsOf. now rewrite cleanup_st.
Qed.

Lemma parts_startCapture_begin r data s w :
  starter (timerPart w) (timerPart (startCapture_begin r data s w)) /\
  starter (cyclerPart w) (cyclerPart (startCapture_begin r data s w)) /\
  flagsOf (startCapture_begin r data s w) = (false, true).
Proof.
  unfold startCapture_begin.
  set (w0 := on_refs (upd_activeStreamRef (Some s)) _).
  assert (H0 : timerPart w0 = timerPart w /\ cyclerPart w0 = cyclerPart w)
    by easy.
  destruct H0 as [Ht0 Hc0]. clearbody w0.
  destruct (parts_startArchiveRecorder s w0) as [Ht1 Hc1].
  revert Ht1 Hc1. generalize (startArchiveRecorder s w0). intros w1 Ht1 Hc1.
  set (w2 := on_refs (upd_isCapturingRef true) (setIsCapturing true w1)).
  assert (H2 : timerPart w2 = timerPart w1 /\ cyclerPart w2 = cyclerPart w1 /\
               isCapturing (st w2) = true) by easy.
  destruct H2 as (Ht2 & Hc2 & Hf2). clearbody w2.
  destruct (parts_startServerTranscription r w2) as [Ht3 Hc3].
  pose proof (startServerTranscription_st r w2) as Hst.
  revert Ht3 Hc3 Hst. generalize (startServerTranscription r w2).
  intros w3 Ht3 Hc3 Hst.
  split_and!.
  - rewrite <- Ht0, <- Ht1, <- Ht2. exact Ht3.
  - eapply then_starter; [|exact Hc3]. rewrite Hc2, <- Hc0. exact Hc1.
  - unfold flagsOf. cbn. now rewrite Hst, Hf2.
Qed.

Lemma startEnds_catch e w0 w :
  cyclesOff w -> flagsOf w = flagsOf w0 ->
  startEnds w0 (startCapture_catch e w).
Proof.
  intros [Ht Hc] Hf. right.
  destruct (parts_startCapture_catch e w) as (Hqt & Hqc & ->).
  split; [|exact Hf].
  split; [apply Hqt | apply Hqc]; now apply offP_heldP.
Qed.

Lemma startEnds_reply r o s w0 w :
  cyclesOff w -> flagsOf w = flagsOf w0 ->
  startEnds w0 (startCapture_reply r o s w).
Proof.
  intros Hoff Hf. unfold startCapture_reply.
  destruct (so_reply o) as [e|resp]; [now apply startEnds_catch|].
  destruct (negb (resp_ok resp)); [now apply startEnds_catch|].
  destruct (resp_json resp) as [e|data]; [now apply startEnds_catch|].
  left. destruct Hoff as [Ht Hc].
  destruct (parts_startCapture_begin r data s w) as (Hst & Hsc & ->).
  split; [|reflexivity]. split; [apply Hst | apply Hsc]; assumption.
Qed.

Lemma parts_updateLevel d w :
  timerPart (updateLevel d w) = timerPart w /\
  cyclerPart (updateLevel d w) = cyclerPart w /\
  flagsOf (updateLevel d w) = flagsOf w.
Proof. unfold updateLevel. now cases. Qed.

Lemma parts_setupAudioVisualization d w :
  timerPart (setupAudioVisualization d w) = timerPart w /\
  cyclerPart (setupAudioVisualization d w) = cyclerPart w /\
  flagsOf (setupAudioVisualization d w) = flagsOf w.
Proof.
  unfold setupAudioVisualization. cbv zeta.
  destruct (parts_updateLevel d
    (on_refs (upd_analyserRef true)
       match audioContextRef (refs w) with
       | Some _ => w
       | None =>
           let '(c, b) := newContext (dom w) in
           on_refs (upd_audioContextRef (Some c)) (on_dom (fun _ => b) w)
       end)) as (-> & -> & ->).
  now destruct (audioContextRef (refs w)).
Qed.

Lemma parts_installHandlers r s w :
  timerPart (installHandlers r s w) = timerPart w /\
  cyclerPart (installHandlers r s w) = cyclerPart w /\
  flagsOf (installHandlers r s w) = flagsOf w.
Proof. easy. Qed.

Lemma startEnds_session clk r o s w0 w :
  cyclesOff w -> flagsOf w = flagsOf w0 ->
  startEnds w0 (startCapture_session clk r o s w).
Proof.
  intros Hoff Hf. rewrite startCapture_session_unfold.
  destruct (getAudioTracks (dom w) s) as [|a l];
    [now apply startEnds_catch|].
  apply startEnds_reply.
  - unfold cyclesOff.
    change (timerPart (request ?c ?x)) with (timerPart x).
    change (cyclerPart (request ?c ?x)) with (cyclerPart x).
    destruct (parts_setupAudioVisualization (so_level o)
                (installHandlers r (a :: l) w)) as (-> & -> & _).
    exact Hoff.
  - change (flagsOf (request ?c ?x)) with (flagsOf x).
    destruct (parts_setupAudioVisualization (so_level o)
                (installHandlers r (a :: l) w)) as (_ & _ & ->).
    exact Hf.
Qed.

Lemma stopTracks_cycle s b :
  intervals (stopTracks s b) = intervals b /\
  recorders (stopTracks s b) = recorders b.
Proof.
  unfold stopTracks. revert b. induction s as [|a s IH]; intros b; [easy|].
  cbn [foldl]. destruct (IH (stopTrack a b)) as [-> ->]. easy.
Qed.

Lemma parts_captureSystemAudio o w :
  timerPart (captureSystemAudio o w).1 = timerPart w /\
  cyclerPart (captureSystemAudio o w).1 = cyclerPart w /\
  flagsOf (captureSystemAudio o w).1 = flagsOf w.
Proof.
  unfold captureSystemAudio. destruct o as [ks|e]; [|easy].
  destruct (newTracks ks (dom w)) as [ds b] eqn:Hnew.
  injection Hnew as <- <-.
  destruct (getAudioTracks _ _); cbn [fst]; unfold timerPart, cyclerPart;
    cbn [dom refs on_dom];
    match goal with
    | |- context [stopTracks ?s ?b] =>
        destruct (stopTracks_cycle s b) as [-> ->]
    end; easy.
Qed.

Lemma parts_captureMicAudio o w :
  timerPart (captureMicAudio o w).1 = timerPart w /\
  cyclerPart (captureMicAudio o w).1 = cyclerPart w /\
  flagsOf (captureMicAudio o w).1 = flagsOf w.
Proof. unfold captureMicAudio. now destruct o. Qed.

Lemma startEnds_startCapture clk r o w :
  cyclesOff w -> startEnds w (startCapture clk r o w).
Proof.
  intros Hoff. unfold startCapture. cbv zeta.
  destruct (parts_captureSystemAudio (so_display o)
              (setStatus Requesting (setError [] w))) as (Ht1 & Hc1 & Hf1).
  change (timerPart (setStatus Requesting (setError [] w))) with (timerPart w)
    in Ht1.
  change (cyclerPart (setStatus Requesting (setError [] w)))
    with (cyclerPart w) in Hc1.
  change (flagsOf (setStatus Requesting (setError [] w))) with (flagsOf w)
    in Hf1.
  destruct (captureSystemAudio _ _) as [w1 [e|sys]]; cbn [fst] in *.
  { apply startEnds_catch; [|exact Hf1]. unfold cyclesOff.
    now rewrite Ht1, Hc1. }
  assert (H2 : cyclesOff (on_refs (upd_systemStreamRef (Some sys)) w1)).
  { unfold cyclesOff.
    change (timerPart (on_refs (upd_systemStreamRef (Some sys)) w1))
      with (timerPart w1).
    change (cyclerPart (on_refs (upd_systemStreamRef (Some sys)) w1))
      with (cyclerPart w1).
    now rewrite Ht1, Hc1. }
  destruct (captureSource r); try (now apply startEnds_session).
  destruct (parts_captureMicAudio (so_mic o)
              (on_refs (upd_systemStreamRef (Some sys)) w1))
    as (Ht3 & Hc3 & Hf3).
  destruct (captureMicAudio _ _) as [w3 [e|mic]]; cbn [fst] in *.
  { apply startEnds_catch.
    - destruct H2 as [H2t H2c]. unfold cyclesOff. now rewrite Ht3, Hc3.
    - now rewrite Hf3. }
  unfold combineStreams. cbn.
  apply startEnds_session.
  - destruct H2 as [H2t H2c]. unfold cyclesOff.
    change (timerPart (on_refs ?f ?x)) with (timerPart x).
    change (cyclerPart (on_refs ?f ?x)) with (cyclerPart x).
    split.
    + intros i Hi. apply (H2t i). rewrite <- Ht3. exact Hi.
    + intros i Hi. apply (H2c i). rewrite <- Hc3. exact Hi.
  - exact (eq_trans Hf3 Hf1).
Qed.

Lemma cyclesOff_held w : cyclesOff w -> cyclesHeld w.
Proof. intros [Ht Hc]. split; now apply offP_heldP. Qed.

Lemma parts_sendBlob r size w :
  timerPart (sendBlobForTranscription r size w) = timerPart w /\
  cyclerPart (sendBlobForTranscription r size w) = cyclerPart w /\
  flagsOf (sendBlobForTranscription r size w) = flagsOf w.
Proof. unfold sendBlobForTranscription. now cases. Qed.

Lemma parts_afterRead r size readOk e w :
  timerPart (completed (sendBlob_afterRead r size readOk e w)) = timerPart w /\
  cyclerPart (completed (sendBlob_afterRead r size readOk e w)) = cyclerPart w /\
  flagsOf (completed (sendBlob_afterRead r size readOk e w)) = flagsOf w.
Proof. unfold sendBlob_afterRead. now destruct readOk. Qed.

Lemma parts_afterReply clk r o w :
  timerPart (completed (sendBlob_afterReply clk r o w)) = timerPart w /\
  cyclerPart (completed (sendBlob_afterReply clk r o w)) = cyclerPart w /\
  flagsOf (completed (sendBlob_afterReply clk r o w)) = flagsOf w.
Proof.
  unfold sendBlob_afterReply.
  destruct (sendBlob_body_cases clk r o w)
    as [(s & _ & ->) | (_ & [-> | (e & ->)])]; easy.
Qed.

Lemma parts_onstop rc w :
  timerPart (onstop rc w) = timerPart w /\
  cyclerPart (onstop rc w) = cyclerPart w /\
  flagsOf (onstop rc w) = flagsOf w.
Proof.
  unfold onstop. destruct (rec_role rc); [easy|].
  destruct (rec_chunks rc); [easy|]. apply parts_sendBlob.
Qed.

Lemma parts_stopCapture_resume clk k o w :
  timerPart (stopCapture_resume clk k o w) = timerPart w /\
  cyclerPart (stopCapture_resume clk k o w) = cyclerPart w /\
  (flagsOf (stopCapture_resume clk k o w) = flagsOf w \/
   handedOver (stopCapture_resume clk k o w) = true).
Proof.
  unfold stopCapture_resume. destruct o as [e|resp]; [now split_and!; try left|].
  destruct k; try (now split_and!; try left).
  split_and!; try reflexivity. right.
  unfold handedOver, stopCapture_reset, onMeetingCreated. cbn.
  now destruct (notified (obs w)).
Qed.

(** A calm event only switches things off; it leaves the flags alone
    unless it switches everything off or hands the meeting over. *)
Lemma step_calm clk e w :
  calmEvent e = true ->
  calmer (timerPart w) (timerPart (step clk e w)) /\
  calmer (cyclerPart w) (cyclerPart (step clk e w)) /\
  (flagsOf (step clk e w) = flagsOf w \/
   (cyclesHeld w -> cyclesOff (step clk e w)) \/
   handedOver (step clk e w) = true).
Proof.
  assert (Hsame : forall w', timerPart w' = timerPart w ->
            cyclerPart w' = cyclerPart w -> flagsOf w' = flagsOf w ->
            calmer (timerPart w) (timerPart w') /\
            calmer (cyclerPart w) (cyclerPart w') /\
            (flagsOf w' = flagsOf w \/
             (cyclesHeld w -> cyclesOff w') \/ handedOver w' = true)).
  { intros w' -> -> ->. split_and!; try apply calmer_refl. now left. }
  assert (Hstop : forall r w1,
            timerPart w1 = timerPart w -> cyclerPart w1 = cyclerPart w ->
            calmer (timerPart w) (timerPart (stopCapture clk r w1)) /\
            calmer (cyclerPart w) (cyclerPart (stopCapture clk r w1)) /\
            (flagsOf (stopCapture clk r w1) = flagsOf w \/
             (cyclesHeld w -> cyclesOff (stopCapture clk r w1)) \/
             handedOver (stopCapture clk r w1) = true)).
  { intros r w1 Ht Hc. destruct (parts_stopCapture clk r w1) as [Hqt Hqc].
    rewrite Ht in Hqt. rewrite Hc in Hqc.
    split_and!; try (now apply quencher_calmer).
    right; left. intros [H1 H2]. split; auto. }
  intros He. destruct e; try discriminate He; cbn [step].
  1-5: unfold formEdit; destruct (isCapturing (st w)); now apply Hsame.
  - destruct (stopEnabled (st w)); [|now apply Hsame]. now apply Hstop.
  - destruct (inflight (net w) !! h) as [[[]|]|]; try (now apply Hsame).
    destruct (parts_afterRead r blob readOk e (settle h w)) as (Ht & Hc & Hf).
    now apply Hsame.
  - destruct (inflight (net w) !! h) as [[k|]|]; try (now apply Hsame).
    assert (Hres : calmer (timerPart w)
                     (timerPart (stopCapture_resume clk k o (settle h w))) /\
                   calmer (cyclerPart w)
                     (cyclerPart (stopCapture_resume clk k o (settle h w))) /\
                   (flagsOf (stopCapture_resume clk k o (settle h w)) =
                      flagsOf w \/
                    (cyclesHeld w ->
                     cyclesOff (stopCapture_resume clk k o (settle h w))) \/
                    handedOver (stopCapture_resume clk k o (settle h w)) =
                      true)).
    { destruct (parts_stopCapture_resume clk k o (settle h w))
        as (Ht & Hc & Hf).
      split_and!; try (now apply calmer_eq).
      destruct Hf as [Hf|Hf]; [now left | now right; right]. }
    destruct k; try exact Hres; try (now apply Hsame).
    destruct (parts_afterReply clk r o (settle h w)) as (Ht & Hc & Hf).
    now apply Hsame.
  - destruct (ticker (dom w)); now apply Hsame.
  - destruct (recorders (dom w) !! i) as [rc|]; [|now apply Hsame].
    destruct (rec_state rc); try (now apply Hsame).
    apply Hsame; try reflexivity.
    unfold cyclerPart. cbn [dom refs on_dom upd_recorders recorders].
    now rewrite cyclers_pushChunk.
  - destruct (recorders (dom w) !! i) as [rc|]; [|now apply Hsame].
    destruct (rec_stopQueued rc); [|now apply Hsame]. cbv zeta.
    set (rc' := pushChunk size (withState Inactive false rc)).
    destruct (parts_onstop rc'
                (on_dom (fun b => upd_recorders (<[i := rc']> (recorders b)) b) w))
      as (-> & -> & ->).
    split_and!; [apply calmer_refl | | now left].
    unfold cyclerPart. cbn [dom refs on_dom upd_recorders recorders].
    rewrite cyclers_insert_off; [apply calmer_offAt|].
    subst rc'. unfold pushChunk, isCycling.
    destruct (0 <? size); cbn; now destruct (rec_role rc).
  - destruct (tracks (dom w) !! t) as [tr|]; [|now apply Hsame].
    destruct (live tr); [|now apply Hsame]. cbv zeta.
    destruct (onended tr) as [r|]; [|now apply Hsame].
    unfold onendedHandler.
    destruct (isCapturingRef (refs (on_dom (stopTrack t) w)));
      [|now apply Hsame].
    now apply Hstop.
  - destruct (frames (dom w) !! f) as [[]|]; try (now apply Hsame).
    destruct (parts_updateLevel dataArray (on_dom (cancelAnimationFrame f) w))
      as (Ht & Hc & Hf).
    now apply Hsame.
  - now apply Hsame.
Qed.

Lemma step_timer clk t w :
  timerPart (step clk (TimerFired t) w) = timerPart w /\
  (heldP (cyclerPart w) ->
   heldP (cyclerPart (step clk (TimerFired t) w))) /\
  (offP (timerPart w) -> step clk (TimerFired t) w = w) /\
  flagsOf (step clk (TimerFired t) w) = flagsOf w.
Proof.
  cbn [step]. destruct (intervals (dom w) !! t) as [iv|] eqn:Hiv; [|easy].
  destruct (int_active iv) eqn:Hact; [|easy].
  destruct (parts_cycle (int_closure iv) w) as [Ht Hc].
  split_and!; try assumption.
  - intros Hoff. destruct (Hoff t). cbn.
    now rewrite list_lookup_fmap, Hiv, <- Hact.
  - unfold flagsOf. now rewrite cycleTranscriptionRecorder_st.
Qed.

Lemma cycleInv_step clk e w :
  cycleInv w ->
  cyclesHeld (step clk e w) /\
  (handedOver (step clk e w) = false -> cycleInv (step clk e w)).
Proof.
  intros [[Ht Hc] Hq].
  assert (Hflags : forall w', flagsOf w' = flagsOf w ->
            isPaused (st w') = true \/ isCapturing (st w') = false ->
            cyclesOff w).
  { intros w' Hf H. apply Hq. unfold flagsOf in Hf.
    injection Hf as <- <-. exact H. }
  destruct (calmEvent e) eqn:He.
  { destruct (step_calm clk e w He) as ([Hth Hto] & [Hch Hco] & Hf).
    assert (Hheld : cyclesHeld (step clk e w)) by (split; auto).
    split; [exact Hheld|]. intros Hho. split; [exact Hheld|].
    intros Hpre. destruct Hf as [Hf|[Hf|Hf]].
    - destruct (Hflags _ Hf Hpre). split; auto.
    - apply Hf. now split.
    - congruence. }
  destruct e; try discriminate He.
  - (* Start *)
    cbn [step]. destruct (startEnabled (st w)) eqn:Hen;
      [|split; [now split | intros _; now split]].
    assert (Hoff : cyclesOff w).
    { apply Hq. right. unfold startEnabled in Hen.
      now destruct (isCapturing (st w)). }
    destruct (startEnds_startCapture clk (st w) o w Hoff)
      as [[Hh Hf]|[Ho Hf]].
    + split; [exact Hh|]. intros _. split; [exact Hh|].
      unfold flagsOf in Hf. injection Hf as -> ->. now intros [?|?].
    + split; [now apply cyclesOff_held|]. intros _.
      split; [now apply cyclesOff_held|]. now intros _.
  - (* Pause / Resume *)
    cbn [step]. destruct (pauseEnabled (st w)) eqn:Hen;
      [|split; [now split | intros _; now split]].
    unfold commit.
    change (cyclesHeld (on_dom ?f ?x)) with (cyclesHeld x).
    change (cycleInv (on_dom ?f ?x)) with (cycleInv x).
    destruct (parts_togglePause (st w) w) as (Hpause & Hresume & Hp & Hcap).
    destruct (isPaused (st w)) eqn:Hps.
    + destruct (Hresume eq_refl) as [Hst Hsc].
      destruct (Hq (or_introl eq_refl)) as [Hot Hoc].
      assert (Hh : cyclesHeld (togglePause (st w) w)) by (split; auto).
      split; [exact Hh|]. intros _. split; [exact Hh|].
      rewrite Hp, Hcap. unfold pauseEnabled in Hen. rewrite Hen.
      now intros [?|?].
    + destruct (Hpause eq_refl) as [Hqt Hqc].
      assert (Ho : cyclesOff (togglePause (st w) w)) by (split; auto).
      split; [now apply cyclesOff_held|]. intros _.
      split; [now apply cyclesOff_held|]. now intros _.
  - (* the cycle timer *)
    destruct (step_timer clk t w) as (Htt & Hcc & Hno & Hf).
    assert (Hh : cyclesHeld (step clk (TimerFired t) w)).
    { split; [now rewrite Htt | auto]. }
    split; [exact Hh|]. intros _. split; [exact Hh|].
    intros Hpre. destruct (Hflags _ Hf Hpre) as [Hot Hoc].
    rewrite (Hno Hot). now split.
Qed.

Lemma cyclesHeld_callback clk e w :
  isCallback e = true -> cyclesHeld w -> cyclesHeld (step clk e w).
Proof.
  intros He [Ht Hc].
  destruct (calmEvent e) eqn:Hcalm.
  { destruct (step_calm clk e w Hcalm) as ([Hth _] & [Hch _] & _).
    split; auto. }
  destruct e; try discriminate He; try discriminate Hcalm.
  destruct (step_timer clk t w) as (Htt & Hcc & _).
  split; [now rewrite Htt | auto].
Qed.

Lemma cyclesOff_callback clk e w :
  isCallback e = true -> cyclesOff w -> cyclesOff (step clk e w).
Proof.
  intros He [Ht Hc].
  destruct (calmEvent e) eqn:Hcalm.
  { destruct (step_calm clk e w Hcalm) as ([_ Hto] & [_ Hco] & _).
    split; auto. }
  destruct e; try discriminate He; try discriminate Hcalm.
  destruct (step_timer clk t w) as (_ & _ & Hno & _).
  rewrite (Hno Ht). now split.
Qed.

Lemma cyclesOff_unmount w : cyclesHeld w -> cyclesOff (unmount w).
Proof.
  intros [Ht Hc]. unfold unmount.
  change (cyclesOff (on_dom ?f ?x)) with (cyclesOff x).
  destruct (parts_cleanup w) as [Hqt Hqc]. split; auto.
Qed.

Lemma lifeInv_step clk e l : lifeInv l -> lifeInv (live_step clk e l).
Proof.
  destruct l as [w|w|w]; cbn [lifeInv live_step].
  - intros [Hho Hinv]. destruct e as [e|].
    + cbv zeta. destruct (cycleInv_step clk e w Hinv) as [Hh Hi].
      destruct (handedOver (step clk e w)) eqn:Hh'; cbn [lifeInv]; auto.
    + cbn [lifeInv]. apply cyclesOff_unmount, Hinv.
  - intros Hh. destruct e as [e|]; [|now apply cyclesOff_unmount].
    destruct e; cbn [isCallback lifeInv];
      first [ now apply cyclesOff_unmount
            | now apply cyclesHeld_callback
            | assumption ].
  - intros Ho. destruct e as [e|]; [|assumption].
    destruct (isCallback e) eqn:He; [|assumption]. cbn [lifeInv].
    unfold dropState.
    change (cyclesOff (on_st ?f ?x)) with (cyclesOff x).
    now apply cyclesOff_callback.
Qed.

Lemma life_invariant l : alive l -> lifeInv l.
Proof.
  induction 1 as [encoder|clk e l _ IH].
  - cbn. split; [reflexivity|]. split; split; intros i Hi; cbn in Hi;
      try discriminate; now destruct i.
  - now apply lifeInv_step.
Qed.

Lemma existsb_false_lookup {A} (f : A -> bool) (l : list A) :
  existsb f l = false <-> forall i, map f l !! i <> Some true.
Proof.
  induction l as [|a l IH]; cbn.
  - split; [intros _ i; now destruct i | easy].
  - rewrite orb_false_iff, IH. split.
    + intros [Ha Hl] [|i]; cbn; [congruence | apply Hl].
    + intros H. split.
      * specialize (H 0%nat). cbn in H. destruct (f a); congruence.
      * intros i. apply (H (S i)).
Qed.

Lemma offP_timers w : offP (timerPart w) <-> timerScheduled w = false.
Proof. unfold timerScheduled. now rewrite existsb_false_lookup. Qed.

Lemma offP_cyclers w : offP (cyclerPart w) <-> cyclingRecorderActive w = false.
Proof.
  unfold cyclingRecorderActive.
  change (fun rc : Recorder =>
            match rec_role rc with
            | Cycle _ => negb (isInactive (rec_state rc))
            | FullSession => false
            end) with isCycling.
  now rewrite existsb_false_lookup.
Qed.

Lemma heldP_timers w :
  heldP (timerPart w) ->
  forall t iv, intervals (dom w) !! t = Some iv -> int_active iv = true ->
               transcriptionTimerRef (refs w) = Some t.
Proof.
  intros H t iv Hiv Hact. apply (H t). cbn.
  now rewrite list_lookup_fmap, Hiv, <- Hact.
Qed.

Lemma heldP_cyclers w :
  heldP (cyclerPart w) ->
  forall i rc, recorders (dom w) !! i = Some rc -> isCycling rc = true ->
               transcriptionRecorderRef (refs w) = Some i.
Proof.
  intros H i rc Hrc Hact. apply (H i). cbn.
  now rewrite list_lookup_fmap, Hrc, <- Hact.
Qed.

Lemma cyclesOff_spec w :
  cyclesOff w <-> timerScheduled w = false /\ cyclingRecorderActive w = false.
Proof. unfold cyclesOff. now rewrite offP_timers, offP_cyclers. Qed.

(** What a resume schedules. *)
Lemma resume_schedules clk w :
  isCapturing (st w) = true -> isPaused (st w) = true ->
  let p := step clk ClickPause w in
  isPaused (st p) = false /\
  transcriptionTimerRef (refs p) = Some (length (intervals (dom w))) /\
  intervals (dom p) =
    intervals (dom w) ++
    [{| int_active := true; int_period := 10000; int_closure := st w |}] /\
  (startedEncoder w p <-> encoderCreatable w = true).
Proof.
  intros Hcap Hp p. subst p. cbn [step]. unfold pauseEnabled, togglePause.
  rewrite Hcap, Hp. cbv zeta.
  set (w1 := if recorderHasState _ _ Paused then _ else w).
  assert (H1 : refs w1 = refs w /\ intervals (dom w1) = intervals (dom w) /\
               length (recorders (dom w1)) = length (recorders (dom w)) /\
               encoderCreatable w1 = encoderCreatable w).
  { subst w1. destruct (recorderHasState _ _ Paused); [|easy].
    destruct (mediaRecorderRef (refs w)) as [i|]; [|easy].
    split_and!; try reflexivity. cbn. apply length_alter. }
  destruct H1 as (Hr & Hi & Hlen & Hcre). clearbody w1.
  unfold startServerTranscription. cbv zeta.
  set (w0 := on_refs (upd_isTranscribingRef false) w1).
  pose proof (startTranscriptionRecorder_intervals (st w) w0) as Hint.
  pose proof (startedEncoder_iff (st w) w w0) as Hiff.
  change (encoderCreatable w0) with (encoderCreatable w1) in Hiff.
  rewrite Hcre in Hiff.
  specialize (Hiff Hlen (f_equal activeStreamRef Hr)).
  revert Hint Hiff. generalize (startTranscriptionRecorder (st w) w0).
  intros w2 Hint Hiff. cbn. rewrite Hint. cbn. rewrite Hi.
  split_and!; try reflexivity. exact Hiff.
Qed.

Lemma alive_run tr l : alive l -> alive (live_run tr l).
Proof.
  revert l. induction tr as [|[clk e] tr IH]; intros l H; [assumption|].
  cbn [live_run]. apply IH. now apply alive_step.
Qed.



(** The two runs in which Resume is clicked out of turn.  Clicked while
    the stop sequence is saving, it schedules a timer; once the meeting
    is handed over the page is leaving, with that timer still scheduled,
    and the commit that removes the page clears it.  Clicked after a
    stop that failed, it schedules a timer on a page that still shows
    the capture controls ([isCapturing] is set, though [status] is
    'idle'). *)
Example resume_out_of_turn :
  (let l := live_run (map (fun '(clk, e) => (clk, Page e)) resumeWhileSaving)
              (Mounted (standup true)) in
   exists w,
     l = Leaving w /\ timerScheduled w = true /\
     isCapturing (st w) = false /\
     timerScheduled (worldOf (live_step (clockAt 5301) (Page Commit) l)) = false) /\
  (let l := live_run (map (fun '(clk, e) => (clk, Page e)) resumeAfterFailedStop)
              (Mounted (standup true)) in
   exists w,
     l = Mounted w /\ timerScheduled w = true /\ cyclingRecorderActive w = false /\
     isCapturing (st w) = true /\ isPaused (st w) = false /\
     status (st w) = Idle).
Proof.
  split; cbv zeta; eexists; vm_compute; split_and!; reflexivity.
Qed.

(** * Further properties *)

(** ** The level indicator *)

Lemma sumZ_from (l : list Z) a : foldl Z.add a l = a + sumZ l.
Proof.
  unfold sumZ. revert a. induction l as [|x l IH]; intros a; cbn [foldl].
  - lia.
  - rewrite IH, (IH (0 + x)). lia.
Qed.

Lemma sumZ_nonneg (l : list Z) : Forall (fun x => 0 <= x) l -> 0 <= sumZ l.
Proof.
  induction 1 as [|x l Hx _ IH]; [easy|].
  unfold sumZ. cbn [foldl]. rewrite sumZ_from. lia.
Qed.

(** X1. The published audio level is bounded: for analyser data of
    non-negative samples it lies between 0 and 100, and it is exactly
    100 as soon as the samples sum to 128 * 128 or more (a mean
    magnitude of 128). *)
Theorem level_is_bounded (dataArray : list Z) :
  Forall (fun x => 0 <= x) dataArray ->
  (0 <= levelOf dataArray)%Q /\ (levelOf dataArray <= 100)%Q /\
  (128 * 128 <= sumZ dataArray -> (levelOf dataArray == 100)%Q).
Proof.
  intros Hpos. apply sumZ_nonneg in Hpos. unfold levelOf, frequencyBinCount.
  set (s := sumZ dataArray) in *.
  assert (Hx : (inject_Z s / inject_Z 128 / 128 * 100 == inject_Z s * (100 # 16384))%Q)
    by (field).
  split; [|split].
  - apply Q.min_glb; [easy|]. rewrite Hx.
    apply Qmult_le_0_compat; [|easy].
    change 0%Q with (inject_Z 0). now rewrite <- Zle_Qle.
  - apply Q.le_min_l.
  - intros Hbig. apply Q.min_l. rewrite Hx.
    unfold Qle, Qmult, inject_Z. cbn. lia.
Qed.

Lemma level_is_bounded_witness :
  Forall (fun x => 0 <= x) [200; 250; 90] /\
  (0 <= levelOf [200; 250; 90]%Z)%Q /\
  (levelOf [200; 250; 90]%Z <= 100)%Q.
Proof.
  assert (H : Forall (fun x => 0 <= x) [200; 250; 90])
    by (repeat constructor; lia).
  split; [exact H|].
  destruct (level_is_bounded [200; 250; 90] H) as (Hlo & Hhi & _).
  split; assumption.
Defined.

(** ** Releasing resources *)

Lemma releasesOnly_refl w : releasesOnly w w.
Proof. now repeat split. Qed.

Lemma releasesOnly_trans w1 w2 w3 :
  releasesOnly w1 w2 -> releasesOnly w2 w3 -> releasesOnly w1 w3.
Proof.
  intros (A1 & B1 & C1 & D1) (A2 & B2 & C2 & D2). repeat split; eauto.
Qed.

Lemma recorderActive_stop i b ref :
  recorderActive (recorderStop i b) ref =
  recorderActive b ref && negb (bool_decide (ref = Some i)).
Proof.
  destruct ref as [j|]; [|reflexivity]. unfold recorderActive, recorderStop.
  cbn [recorders upd_recorders].
  destruct (decide (i = j)) as [->|Hne].
  - rewrite list_lookup_alter_eq, bool_decide_eq_true_2 by reflexivity.
    destruct (recorders b !! j); cbn; now rewrite ?andb_false_r.
  - rewrite list_lookup_alter_ne, bool_decide_eq_false_2 by congruence.
    now rewrite andb_true_r.
Qed.

Lemma contextOpen_close c b ref :
  contextOpen (closeContext c b) ref =
  contextOpen b ref && negb (bool_decide (ref = Some c)).
Proof.
  destruct ref as [j|]; [|reflexivity]. unfold contextOpen, closeContext.
  cbn [contexts upd_contexts].
  destruct (decide (c = j)) as [->|Hne].
  - rewrite list_lookup_alter_eq, bool_decide_eq_true_2 by reflexivity.
    destruct (contexts b !! j); cbn; now rewrite ?andb_false_r.
  - rewrite list_lookup_alter_ne, bool_decide_eq_false_2 by congruence.
    now rewrite andb_true_r.
Qed.

Lemma timerActive_clear t b ref :
  timerActive (clearInterval t b) ref =
  timerActive b ref && negb (bool_decide (ref = Some t)).
Proof.
  destruct ref as [j|]; [|reflexivity]. unfold timerActive, clearInterval.
  cbn [intervals upd_intervals].
  destruct (decide (t = j)) as [->|Hne].
  - rewrite list_lookup_alter_eq, bool_decide_eq_true_2 by reflexivity.
    destruct (intervals b !! j); cbn; now rewrite ?andb_false_r.
  - rewrite list_lookup_alter_ne, bool_decide_eq_false_2 by congruence.
    now rewrite andb_true_r.
Qed.

(** A change of the browser that only ends tracks, stops recorders,
    closes contexts or clears timers. *)
Lemma releasesOnly_dom w w' :
  (forall i, isLive (dom w') i = true -> isLive (dom w) i = true) ->
  (forall ref, recorderActive (dom w') ref = true ->
               recorderActive (dom w) ref = true) ->
  (forall ref, contextOpen (dom w') ref = true ->
               contextOpen (dom w) ref = true) ->
  (forall ref, timerActive (dom w') ref = true ->
               timerActive (dom w) ref = true) ->
  releasesOnly w w'.
Proof. now repeat split. Qed.

Lemma andb_true_l_of a b : a && b = true -> a = true.
Proof. now intros [? _]%andb_true_iff. Qed.

Lemma releasesOnly_stopTracks s w : releasesOnly w (on_dom (stopTracks s) w).
Proof.
  apply releasesOnly_dom; cbn [dom on_dom].
  - intros i. rewrite stopTracks_isLive. apply andb_true_l_of.
  - intros ref. unfold recorderActive.
    now destruct (stopTracks_other s (dom w)) as (-> & _).
  - intros ref. unfold contextOpen.
    now destruct (stopTracks_other s (dom w)) as (_ & -> & _).
  - intros ref. unfold timerActive.
    now destruct (stopTracks_other s (dom w)) as (_ & _ & -> & _).
Qed.

Lemma releasesOnly_recorderStop i w : releasesOnly w (on_dom (recorderStop i) w).
Proof.
  apply releasesOnly_dom; cbn [dom on_dom]; try easy.
  intros ref. rewrite recorderActive_stop. apply andb_true_l_of.
Qed.

Lemma releasesOnly_clearInterval t w :
  releasesOnly w (on_dom (clearInterval t) w).
Proof.
  apply releasesOnly_dom; cbn [dom on_dom]; try easy.
  intros ref. rewrite timerActive_clear. apply andb_true_l_of.
Qed.

Lemma releasesOnly_closeContext c w :
  releasesOnly w (on_dom (closeContext c) w).
Proof.
  apply releasesOnly_dom; cbn [dom on_dom]; try easy.
  intros ref. rewrite contextOpen_close. apply andb_true_l_of.
Qed.

Lemma releasesOnly_cancelFrame f w :
  releasesOnly w (on_dom (cancelAnimationFrame f) w).
Proof. apply releasesOnly_dom; cbn [dom on_dom]; easy. Qed.

Lemma releasesOnly_on_refs f w w' :
  releasesOnly w w' -> releasesOnly w (on_refs f w').
Proof. intros H. exact H. Qed.

Lemma cleanup_frame_spec w :
  releasesOnly w (cleanup_frame w) /\ refs (cleanup_frame w) = refs w.
Proof.
  unfold cleanup_frame. destruct (animationFrameRef (refs w)).
  - split; [apply releasesOnly_cancelFrame | reflexivity].
  - split; [apply releasesOnly_refl | reflexivity].
Qed.

Lemma cleanup_timer_spec w :
  let w' := cleanup_timer w in
  releasesOnly w w' /\
  transcriptionTimerRef (refs w') = None /\
  timerActive (dom w') (transcriptionTimerRef (refs w)) = false /\
  systemStreamRef (refs w') = systemStreamRef (refs w) /\
  micStreamRef (refs w') = micStreamRef (refs w) /\
  combinedStreamRef (refs w') = combinedStreamRef (refs w) /\
  transcriptionRecorderRef (refs w') = transcriptionRecorderRef (refs w) /\
  mediaRecorderRef (refs w') = mediaRecorderRef (refs w) /\
  audioContextRef (refs w') = audioContextRef (refs w).
Proof.
  unfold cleanup_timer. destruct (transcriptionTimerRef (refs w)) as [t|] eqn:Ht.
  - cbn zeta. split; [apply releasesOnly_clearInterval|].
    split; [reflexivity|]. split; [|easy].
    cbn [dom on_refs on_dom]. rewrite timerActive_clear.
    rewrite bool_decide_eq_true_2 by reflexivity. apply andb_false_r.
  - cbn zeta. split; [apply releasesOnly_refl|]. now rewrite Ht.
Qed.

Lemma cleanup_cycleRecorder_spec w :
  let w' := cleanup_cycleRecorder w in
  releasesOnly w w' /\
  recorderActive (dom w') (transcriptionRecorderRef (refs w)) = false /\
  systemStreamRef (refs w') = systemStreamRef (refs w) /\
  micStreamRef (refs w') = micStreamRef (refs w) /\
  combinedStreamRef (refs w') = combinedStreamRef (refs w) /\
  transcriptionTimerRef (refs w') = transcriptionTimerRef (refs w) /\
  mediaRecorderRef (refs w') = mediaRecorderRef (refs w) /\
  audioContextRef (refs w') = audioContextRef (refs w).
Proof.
  unfold cleanup_cycleRecorder.
  destruct (transcriptionRecorderRef (refs w)) as [i|] eqn:Hi; cbn zeta.
  - destruct (recorderActive (dom w) (Some i)) eqn:Hact.
    + split; [apply releasesOnly_recorderStop|]. split; [|easy].
      cbn [dom on_refs on_dom]. rewrite recorderActive_stop.
      rewrite bool_decide_eq_true_2 by reflexivity. apply andb_false_r.
    + split; [apply releasesOnly_refl|]. easy.
  - split; [apply releasesOnly_refl|]. easy.
Qed.

Lemma stopArchiveRecorder_spec w :
  let w' := stopArchiveRecorder w in
  releasesOnly w w' /\
  recorderActive (dom w') (mediaRecorderRef (refs w)) = false /\
  refs w' = refs w.
Proof.
  unfold stopArchiveRecorder.
  destruct (mediaRecorderRef (refs w)) as [i|] eqn:Hi; cbn zeta.
  - destruct (recorderActive (dom w) (Some i)) eqn:Hact.
    + split; [apply releasesOnly_recorderStop|]. split; [|easy].
      cbn [dom on_dom]. rewrite recorderActive_stop.
      rewrite bool_decide_eq_true_2 by reflexivity. apply andb_false_r.
    + split; [apply releasesOnly_refl|]. easy.
  - split; [apply releasesOnly_refl|]. easy.
Qed.

Lemma cleanup_context_spec w :
  let w' := cleanup_context w in
  releasesOnly w w' /\
  contextOpen (dom w') (audioContextRef (refs w)) = false /\
  systemStreamRef (refs w') = systemStreamRef (refs w) /\
  micStreamRef (refs w') = micStreamRef (refs w) /\
  combinedStreamRef (refs w') = combinedStreamRef (refs w) /\
  transcriptionTimerRef (refs w') = transcriptionTimerRef (refs w).
Proof.
  unfold cleanup_context.
  destruct (audioContextRef (refs w)) as [c|] eqn:Hc; cbn zeta.
  - destruct (contextOpen (dom w) (Some c)) eqn:Hopen.
    + split; [apply releasesOnly_closeContext|]. split; [|easy].
      cbn [dom on_refs on_dom]. rewrite contextOpen_close.
      rewrite bool_decide_eq_true_2 by reflexivity. apply andb_false_r.
    + split; [apply releasesOnly_refl|]. easy.
  - split; [apply releasesOnly_refl|]. easy.
Qed.

(** [releaseStream] ends every track of the stream it finds in the ref. *)
Lemma releaseStream_spec ref clear w :
  let w' := releaseStream ref clear w in
  releasesOnly w w' /\
  (forall s i, ref (refs w) = Some s -> i ∈ s -> isLive (dom w') i = false) /\
  (ref (refs w) = None -> w' = w) /\
  (forall s, ref (refs w) = Some s -> refs w' = clear (refs w)).
Proof.
  unfold releaseStream. destruct (ref (refs w)) as [s|]; cbn zeta.
  - split; [apply releasesOnly_stopTracks|]. split; [|easy].
    intros s' i [= <-] Hi. cbn [dom on_refs on_dom].
    rewrite stopTracks_isLive, (bool_decide_eq_true_2 _ Hi).
    apply andb_false_r.
  - split; [apply releasesOnly_refl|]. easy.
Qed.

Lemma release_system_refs w :
  let w' := releaseStream systemStreamRef (upd_systemStreamRef None) w in
  systemStreamRef (refs w') = None /\
  micStreamRef (refs w') = micStreamRef (refs w) /\
  combinedStreamRef (refs w') = combinedStreamRef (refs w) /\
  transcriptionTimerRef (refs w') = transcriptionTimerRef (refs w) /\
  audioContextRef (refs w') = audioContextRef (refs w).
Proof.
  unfold releaseStream. now destruct (systemStreamRef (refs w)) eqn:H.
Qed.

Lemma release_mic_refs w :
  let w' := releaseStream micStreamRef (upd_micStreamRef None) w in
  micStreamRef (refs w') = None /\
  systemStreamRef (refs w') = systemStreamRef (refs w) /\
  combinedStreamRef (refs w') = combinedStreamRef (refs w) /\
  transcriptionTimerRef (refs w') = transcriptionTimerRef (refs w) /\
  audioContextRef (refs w') = audioContextRef (refs w).
Proof.
  unfold releaseStream. now destruct (micStreamRef (refs w)) eqn:H.
Qed.

Lemma release_combined_refs w :
  let w' := releaseStream combinedStreamRef (upd_combinedStreamRef None) w in
  combinedStreamRef (refs w') = None /\
  systemStreamRef (refs w') = systemStreamRef (refs w) /\
  micStreamRef (refs w') = micStreamRef (refs w) /\
  transcriptionTimerRef (refs w') = transcriptionTimerRef (refs w) /\
  audioContextRef (refs w') = audioContextRef (refs w).
Proof.
  unfold releaseStream. now destruct (combinedStreamRef (refs w)) eqn:H.
Qed.

Lemma not_true_false_of (b : bool) : (b = true -> False) -> b = false.
Proof. now destruct b; intros H; [destruct H|]. Qed.

(** What [cleanup] achieves, stage by stage. *)
Lemma cleanup_spec w :
  let w' := cleanup w in
  systemStreamRef (refs w') = None /\
  micStreamRef (refs w') = None /\
  combinedStreamRef (refs w') = None /\
  transcriptionTimerRef (refs w') = None /\
  (forall s i,
     systemStreamRef (refs w) = Some s \/ micStreamRef (refs w) = Some s \/
     combinedStreamRef (refs w) = Some s ->
     i ∈ s -> isLive (dom w') i = false) /\
  timerActive (dom w') (transcriptionTimerRef (refs w)) = false /\
  recorderActive (dom w') (transcriptionRecorderRef (refs w)) = false /\
  recorderActive (dom w') (mediaRecorderRef (refs w)) = false /\
  contextOpen (dom w') (audioContextRef (refs w)) = false /\
  releasesOnly w w' /\
  st w' = st w /\ net w' = net w /\ obs w' = obs w.
Proof.
  intros w'. subst w'.
  assert (Hframe : st (cleanup w) = st w /\ net (cleanup w) = net w /\
                   obs (cleanup w) = obs w)
    by (now rewrite cleanup_st, cleanup_net, cleanup_obs).
  revert Hframe. rewrite cleanup_stages.
  pose proof (cleanup_frame_spec w) as (R1 & E1).
  revert R1 E1. generalize (cleanup_frame w). intros w1 R1 E1.
  pose proof (cleanup_timer_spec w1) as (R2 & T2 & A2 & S2 & M2 & C2 & X2 & Y2 & Z2).
  revert R2 T2 A2 S2 M2 C2 X2 Y2 Z2. generalize (cleanup_timer w1).
  intros w2 R2 T2 A2 S2 M2 C2 X2 Y2 Z2.
  pose proof (cleanup_cycleRecorder_spec w2) as (R3 & A3 & S3 & M3 & C3 & T3 & Y3 & Z3).
  revert R3 A3 S3 M3 C3 T3 Y3 Z3. generalize (cleanup_cycleRecorder w2).
  intros w3 R3 A3 S3 M3 C3 T3 Y3 Z3.
  pose proof (stopArchiveRecorder_spec w3) as (R4 & A4 & E4).
  revert R4 A4 E4. generalize (stopArchiveRecorder w3). intros w4 R4 A4 E4.
  pose proof (releaseStream_spec systemStreamRef (upd_systemStreamRef None) w4)
    as (R5 & D5 & _).
  pose proof (release_system_refs w4) as (S5 & M5 & C5 & T5 & Z5).
  revert R5 D5 S5 M5 C5 T5 Z5.
  generalize (releaseStream systemStreamRef (upd_systemStreamRef None) w4).
  intros w5 R5 D5 S5 M5 C5 T5 Z5.
  pose proof (releaseStream_spec micStreamRef (upd_micStreamRef None) w5)
    as (R6 & D6 & _).
  pose proof (release_mic_refs w5) as (M6 & S6 & C6 & T6 & Z6).
  revert R6 D6 S6 M6 C6 T6 Z6.
  generalize (releaseStream micStreamRef (upd_micStreamRef None) w5).
  intros w6 R6 D6 S6 M6 C6 T6 Z6.
  pose proof (releaseStream_spec combinedStreamRef (upd_combinedStreamRef None) w6)
    as (R7 & D7 & _).
  pose proof (release_combined_refs w6) as (C7 & S7 & M7 & T7 & Z7).
  revert R7 D7 S7 M7 C7 T7 Z7.
  generalize (releaseStream combinedStreamRef (upd_combinedStreamRef None) w6).
  intros w7 R7 D7 S7 M7 C7 T7 Z7.
  pose proof (cleanup_context_spec w7) as (R8 & A8 & S8 & M8 & C8 & T8).
  revert R8 A8 S8 M8 C8 T8. generalize (cleanup_context w7).
  intros w8 R8 A8 S8 M8 C8 T8 Hframe.
  assert (R58 : releasesOnly w5 w8)
    by (eauto using releasesOnly_trans).
  assert (R68 : releasesOnly w6 w8) by (eauto using releasesOnly_trans).
  assert (R78 : releasesOnly w7 w8) by (eauto using releasesOnly_trans).
  assert (R28 : releasesOnly w2 w8) by (eauto 10 using releasesOnly_trans).
  assert (R38 : releasesOnly w3 w8) by (eauto 10 using releasesOnly_trans).
  assert (R48 : releasesOnly w4 w8) by (eauto 10 using releasesOnly_trans).
  assert (R08 : releasesOnly w w8) by (eauto 10 using releasesOnly_trans).
  split; [congruence|]. split; [congruence|]. split; [congruence|].
  split; [congruence|].
  split.
  { intros s i Hs Hi. apply not_true_false_of. intros Hlive.
    destruct Hs as [Hs | [Hs | Hs]].
    - apply R58 in Hlive. rewrite (D5 s i) in Hlive; [discriminate| |assumption].
      congruence.
    - apply R68 in Hlive. rewrite (D6 s i) in Hlive; [discriminate| |assumption].
      congruence.
    - apply R78 in Hlive. rewrite (D7 s i) in Hlive; [discriminate| |assumption].
      congruence. }
  split.
  { apply not_true_false_of. intros H. apply R28 in H. rewrite <- E1 in H.
    congruence. }
  split.
  { apply not_true_false_of. intros H. apply R38 in H.
    rewrite <- E1, <- X2 in H. congruence. }
  split.
  { apply not_true_false_of. intros H. apply R48 in H.
    rewrite <- E1, <- Y2, <- Y3, <- E4 in H. congruence. }
  split.
  { rewrite <- E1, <- Z2, <- Z3. rewrite <- E4, <- Z5, <- Z6, <- Z7.
    exact A8. }
  split; [exact R08 | exact Hframe].
Qed.

(** X2. Whatever the world, [cleanup] leaves nothing acquired behind:
    the three stream refs and the timer ref are null, every track of
    the streams they held has ended, the timer they named is cleared,
    the recorders named by the two recorder refs are inactive and the
    audio context named by its ref is closed.  It only releases: no
    track, recorder, context or timer is live after it that was not
    before.  React state, request log and observations are untouched. *)
Theorem cleanup_releases_everything w :
  let w' := cleanup w in
  systemStreamRef (refs w') = None /\
  micStreamRef (refs w') = None /\
  combinedStreamRef (refs w') = None /\
  transcriptionTimerRef (refs w') = None /\
  (forall s i,
     systemStreamRef (refs w) = Some s \/ micStreamRef (refs w) = Some s \/
     combinedStreamRef (refs w) = Some s ->
     i ∈ s -> isLive (dom w') i = false) /\
  timerActive (dom w') (transcriptionTimerRef (refs w)) = false /\
  recorderActive (dom w') (transcriptionRecorderRef (refs w)) = false /\
  recorderActive (dom w') (mediaRecorderRef (refs w)) = false /\
  contextOpen (dom w') (audioContextRef (refs w)) = false /\
  releasesOnly w w' /\
  st w' = st w /\ net w' = net w /\ obs w' = obs w.
Proof. exact (cleanup_spec w). Qed.

Lemma stopCycleRecorder_spec w :
  let w' := stopCycleRecorder w in
  releasesOnly w w' /\
  recorderActive (dom w') (transcriptionRecorderRef (refs w)) = false /\
  refs w' = refs w /\ tracks (dom w') = tracks (dom w) /\
  st w' = st w /\ net w' = net w /\ obs w' = obs w.
Proof.
  unfold stopCycleRecorder.
  destruct (transcriptionRecorderRef (refs w)) as [i|] eqn:Hi; cbn zeta.
  - destruct (recorderActive (dom w) (Some i)) eqn:Hact.
    + split; [apply releasesOnly_recorderStop|]. split; [|easy].
      cbn [dom on_dom]. rewrite recorderActive_stop.
      rewrite bool_decide_eq_true_2 by reflexivity. apply andb_false_r.
    + split; [apply releasesOnly_refl|]. easy.
  - split; [apply releasesOnly_refl|]. easy.
Qed.

Lemma stopServerTranscription_spec w :
  let w' := stopServerTranscription w in
  releasesOnly w w' /\
  transcriptionTimerRef (refs w') = None /\
  transcriptionRecorderRef (refs w') = None /\
  timerActive (dom w') (transcriptionTimerRef (refs w)) = false /\
  recorderActive (dom w') (transcriptionRecorderRef (refs w)) = false /\
  systemStreamRef (refs w') = systemStreamRef (refs w) /\
  micStreamRef (refs w') = micStreamRef (refs w) /\
  combinedStreamRef (refs w') = combinedStreamRef (refs w) /\
  mediaRecorderRef (refs w') = mediaRecorderRef (refs w) /\
  audioContextRef (refs w') = audioContextRef (refs w).
Proof.
  cbv zeta. rewrite stopServerTranscription_stages.
  pose proof (cleanup_timer_spec w) as (R1 & T1 & A1 & S1 & M1 & C1 & X1 & Y1 & Z1).
  revert R1 T1 A1 S1 M1 C1 X1 Y1 Z1. generalize (cleanup_timer w).
  intros w1 R1 T1 A1 S1 M1 C1 X1 Y1 Z1.
  pose proof (stopCycleRecorder_spec w1) as (R2 & A2 & E2 & _).
  revert R2 A2 E2. generalize (stopCycleRecorder w1). intros w2 R2 A2 E2.
  cbn [refs dom on_refs transcriptionTimerRef transcriptionRecorderRef
       systemStreamRef micStreamRef combinedStreamRef mediaRecorderRef
       audioContextRef upd_transcriptionRecorderRef].
  rewrite E2.
  split; [exact (releasesOnly_trans _ _ _ R1 R2)|].
  split; [assumption|]. split; [reflexivity|].
  split. { apply not_true_false_of. intros H. apply R2 in H. congruence. }
  split. { now rewrite <- X1. }
  easy.
Qed.

Lemma cleanup_cycleRecorder_none w :
  transcriptionRecorderRef (refs w) = None ->
  transcriptionRecorderRef (refs (cleanup w)) = None.
Proof.
  intros H.
  cleanup_steps (fun w' => transcriptionRecorderRef (refs w') = None) w;
    easy.
Qed.

(** X3. Whatever the world and the render, once [stopCapture] has run
    up to its first await nothing acquired is left: the stream, timer
    and cycling-recorder refs are null, every track of the streams has
    ended, the cycle timer is cleared, both recorders are inactive, the
    audio context is closed, and nothing was revived.  This holds before
    any backend request is answered, hence also when one fails. *)
Theorem stopCapture_releases_everything clk r w :
  let w' := stopCapture clk r w in
  systemStreamRef (refs w') = None /\
  micStreamRef (refs w') = None /\
  combinedStreamRef (refs w') = None /\
  transcriptionTimerRef (refs w') = None /\
  transcriptionRecorderRef (refs w') = None /\
  (forall s i,
     systemStreamRef (refs w) = Some s \/ micStreamRef (refs w) = Some s \/
     combinedStreamRef (refs w) = Some s ->
     i ∈ s -> isLive (dom w') i = false) /\
  timerActive (dom w') (transcriptionTimerRef (refs w)) = false /\
  recorderActive (dom w') (transcriptionRecorderRef (refs w)) = false /\
  recorderActive (dom w') (mediaRecorderRef (refs w)) = false /\
  contextOpen (dom w') (audioContextRef (refs w)) = false /\
  releasesOnly w w'.
Proof.
  cbv zeta. rewrite stopCapture_unfold.
  assert (Hrel : let w1 := stopCapture_release w in
            systemStreamRef (refs w1) = None /\
            micStreamRef (refs w1) = None /\
            combinedStreamRef (refs w1) = None /\
            transcriptionTimerRef (refs w1) = None /\
            transcriptionRecorderRef (refs w1) = None /\
            (forall s i,
               systemStreamRef (refs w) = Some s \/
               micStreamRef (refs w) = Some s \/
               combinedStreamRef (refs w) = Some s ->
               i ∈ s -> isLive (dom w1) i = false) /\
            timerActive (dom w1) (transcriptionTimerRef (refs w)) = false /\
            recorderActive (dom w1) (transcriptionRecorderRef (refs w)) = false /\
            recorderActive (dom w1) (mediaRecorderRef (refs w)) = false /\
            contextOpen (dom w1) (audioContextRef (refs w)) = false /\
            releasesOnly w w1).
  { cbv zeta. unfold stopCapture_release.
    pose proof (stopServerTranscription_spec
                  (setStatus Stopping (countStopRun w)))
      as (R1 & T1 & X1 & A1 & B1 & S1 & M1 & C1 & Y1 & Z1).
    cbv zeta in *. revert R1 T1 X1 A1 B1 S1 M1 C1 Y1 Z1.
    generalize (stopServerTranscription (setStatus Stopping (countStopRun w))).
    intros w1 R1 T1 X1 A1 B1 S1 M1 C1 Y1 Z1.
    pose proof (stopArchiveRecorder_spec w1) as (R2 & A2 & E2).
    cbv zeta in *. revert R2 A2 E2. generalize (stopArchiveRecorder w1).
    intros w2 R2 A2 E2.
    pose proof (cleanup_spec w2)
      as (S3 & M3 & C3 & T3 & D3 & A3 & B3 & Y3 & Z3 & R3 & _).
    pose proof (cleanup_cycleRecorder_none w2) as X3.
    cbv zeta in *. revert S3 M3 C3 T3 D3 A3 B3 Y3 Z3 R3 X3.
    generalize (cleanup w2). intros w3 S3 M3 C3 T3 D3 A3 B3 Y3 Z3 R3 X3.
    cbn [refs st dom on_st setStatus countStopRun on_obs] in *.
    assert (R02 : releasesOnly w w2).
    { apply (releasesOnly_trans _ w1); [exact R1 | exact R2]. }
    assert (R03 : releasesOnly w w3)
      by (apply (releasesOnly_trans _ w2); assumption).
    assert (R13 : releasesOnly w1 w3).
    { apply (releasesOnly_trans _ w2); assumption. }
    repeat split; try assumption; try apply R03.
    - apply X3. now rewrite E2.
    - intros s i Hs Hi. apply (D3 s i); [|assumption].
      rewrite E2. rewrite S1, M1, C1. exact Hs.
    - apply not_true_false_of. intros H. apply R13 in H. congruence.
    - apply not_true_false_of. intros H. apply R13 in H. congruence.
    - rewrite <- Y1, <- E2. exact Y3.
    - rewrite <- Z1, <- E2. exact Z3. }
  cbv zeta in Hrel. revert Hrel. generalize (stopCapture_release w).
  intros w1 Hrel. unfold stopCapture_persist, stopCapture_reset.
  destruct (truthy (meetingId r)); exact Hrel.
Qed.

(** ** The stop sequence *)

Lemma stopCapture_release_obs w :
  obs (stopCapture_release w) = obs (countStopRun w).
Proof.
  unfold stopCapture_release. rewrite cleanup_obs.
  pose proof (stopArchiveRecorder_spec
                (stopServerTranscription (setStatus Stopping (countStopRun w))))
    as (_ & _ & _).
  assert (H : forall w0, obs (stopArchiveRecorder w0) = obs w0).
  { intros w0. unfold stopArchiveRecorder. now cases. }
  now rewrite H, stopServerTranscription_obs.
Qed.

Lemma stopCapture_release_flags w :
  isCapturingRef (refs (stopCapture_release w)) = isCapturingRef (refs w) /\
  meetingIdRef (refs (stopCapture_release w)) = meetingIdRef (refs w).
Proof.
  unfold stopCapture_release.
  destruct (cleanup_flags
              (stopArchiveRecorder
                 (stopServerTranscription
                    (setStatus Stopping (countStopRun w))))) as (-> & -> & _).
  pose proof (stopArchiveRecorder_spec
                (stopServerTranscription (setStatus Stopping (countStopRun w))))
    as (_ & _ & ->).
  now destruct (stopServerTranscription_flags
                  (setStatus Stopping (countStopRun w))) as (-> & -> & _).
Qed.

(** X4. A [stopCapture] whose render holds no meeting id (the render of
    a start click, which is the one [track.onended] runs) finishes on
    the spot: the page is idle with its flags, timer display and meeting
    id reset, and the backend is never contacted: no request is issued
    or pending and the host is not notified. *)
Theorem stop_without_meeting_id_is_local clk r w :
  truthy (meetingId r) = false ->
  let w' := stopCapture clk r w in
  status (st w') = Idle /\ isCapturing (st w') = false /\
  isPaused (st w') = false /\ recordingTime (st w') = 0 /\
  meetingId (st w') = JNull /\
  isCapturingRef (refs w') = false /\ meetingIdRef (refs w') = JNull /\
  net w' = net w /\
  notified (obs w') = notified (obs w) /\
  stopRuns (obs w') = S (stopRuns (obs w)) /\
  liveTranscript (st w') = liveTranscript (st w) /\
  error (st w') = error (st w).
Proof.
  intros Hid. cbv zeta. rewrite stopCapture_unfold.
  unfold stopCapture_persist. rewrite Hid.
  pose proof (stopCapture_release_st w) as Hst.
  pose proof (stopCapture_release_net w) as Hnet.
  pose proof (stopCapture_release_obs w) as Hobs.
  revert Hst Hnet Hobs. generalize (stopCapture_release w).
  intros w1 Hst Hnet Hobs. unfold stopCapture_reset. cbn.
  rewrite Hst, Hnet, Hobs. now cbn.
Qed.

Lemma stop_without_meeting_id_is_local_witness :
  let r := standupRender in
  let w := standup true in
  truthy (meetingId r) = false /\
  net (stopCapture (clockAt 5000) r w) = net w /\
  status (st (stopCapture (clockAt 5000) r w)) = Idle.
Proof.
  intros r w.
  assert (Hid : truthy (meetingId r) = false) by (vm_compute; reflexivity).
  split; [exact Hid|].
  destruct (stop_without_meeting_id_is_local (clockAt 5000) r w Hid)
    as (Hs & _ & _ & _ & _ & _ & _ & Hn & _).
  split; [exact Hn | exact Hs].
Defined.

Lemma stop_reply_step clk h k o w :
  inflight (net w) !! h = Some (Some k) ->
  match k with
  | KStopTranscript _ | KStopMeeting _ | KStopRecording _ => True
  | _ => False
  end ->
  step clk (NetReply h o) w = stopCapture_resume clk k o (settle h w).
Proof. intros Hk Hstop. cbn [step]. rewrite Hk. now destruct k. Qed.

Lemma lookup_settled {A} (l : list (option A)) h x y :
  (<[h := None]> (l ++ [x]) ++ [y]) !! S (length l) = Some y.
Proof.
  assert (Hlen : length (<[h := None]> (l ++ [x])) = S (length l)).
  { rewrite length_insert, length_app. cbn. lia. }
  rewrite <- Hlen. now apply list_lookup_middle.
Qed.

(** X5. A stop with a meeting id whose three requests are answered,
    whatever the status of the answers: exactly three requests are
    issued, in the order POST /transcription, PUT /meetings, POST
    /recording/stop, all built from the render of the click; the host
    is notified with the meeting id; no error is set or logged; and the
    page is idle with its flags and meeting id reset. *)
Theorem stop_issues_three_requests clk1 clk2 clk3 clk4 w r1 r2 r3 :
  stopEnabled (st w) = true ->
  truthy (meetingId (st w)) = true ->
  let h := length (inflight (net w)) in
  let w' := run [(clk1, ClickStop);
                 (clk2, NetReply h (Resolved r1));
                 (clk3, NetReply (S h) (Resolved r2));
                 (clk4, NetReply (S (S h)) (Resolved r3))] w in
  calls (net w') =
    calls (net w) ++
    [transcriptCall clk1 (st w); meetingCall clk2 (st w);
     recordingStopCall (st w)] /\
  notified (obs w') = notified (obs w) ++ [meetingId (st w)] /\
  error (st w') = error (st w) /\
  consoleErrors (obs w') = consoleErrors (obs w) /\
  status (st w') = Idle /\ isCapturing (st w') = false /\
  meetingId (st w') = JNull /\
  isCapturingRef (refs w') = false /\ meetingIdRef (refs w') = JNull.
Proof.
  intros Hen Hid h w'.
  set (r := st w) in *.
  assert (Hrun : exists w1,
             net w1 = net w /\ st w1 = upd_status Stopping (st w) /\
             obs w1 = obs (countStopRun w) /\
             isCapturingRef (refs w1) = isCapturingRef (refs w) /\
             w' = stopCapture_reset
                    (onMeetingCreated (meetingId r)
                       (settle (S (S h))
                          (park (KStopRecording r)
                             (request (recordingStopCall r)
                                (settle (S h)
                                   (park (KStopMeeting r)
                                      (request (meetingCall clk2 r)
                                         (settle h
                                            (park (KStopTranscript r)
                                               (request (transcriptCall clk1 r)
                                                  w1))))))))))).
  { exists (stopCapture_release w).
    split; [apply stopCapture_release_net|].
    split; [apply stopCapture_release_st|].
    split; [apply stopCapture_release_obs|].
    split; [apply stopCapture_release_flags|].
    subst w'. cbn [run].
    assert (H1 : step clk1 ClickStop w =
                 park (KStopTranscript r)
                   (request (transcriptCall clk1 r) (stopCapture_release w))).
    { subst r. cbn [step]. rewrite Hen, stopCapture_unfold.
      unfold stopCapture_persist. now rewrite Hid. }
    rewrite H1. clear H1.
    pose proof (stopCapture_release_net w) as Hnet. revert Hnet.
    generalize (stopCapture_release w). intros w1 Hnet.
    rewrite (stop_reply_step clk2 h (KStopTranscript r)); [|
      cbn; rewrite Hnet; now apply list_lookup_middle | exact I].
    unfold stopCapture_resume at 1.
    rewrite (stop_reply_step clk3 (S h) (KStopMeeting r)); [|
      cbn; rewrite Hnet; apply lookup_settled | exact I].
    unfold stopCapture_resume at 1.
    rewrite (stop_reply_step clk4 (S (S h)) (KStopRecording r)); [|
      cbn; rewrite Hnet;
      rewrite <- (lookup_settled
                    (<[h:=None]>
                       (inflight (net w) ++ [Some (KStopTranscript r)]))
                    (S h) (Some (KStopMeeting r)) (Some (KStopRecording r)));
      f_equal; rewrite length_insert, length_app; cbn; lia | exact I].
    reflexivity. }
  destruct Hrun as (w1 & Hnet & Hst & Hobs & Hflag & ->).
  unfold stopCapture_reset. cbn.
  rewrite Hnet, Hst, Hobs. cbn. rewrite <- !app_assoc. now cbn.
Qed.

Lemma stop_issues_three_requests_witness :
  let w := standup true in
  let w' := run stopWith500 w in
  stopEnabled (st w) = true /\
  truthy (meetingId (st w)) = true /\
  calls (net w') =
    calls (net w) ++
    [transcriptCall (clockAt 5000) (st w); meetingCall (clockAt 5100) (st w);
     recordingStopCall (st w)] /\
  error (st w') = error (st w).
Proof.
  intros w w'.
  assert (Hen : stopEnabled (st w) = true) by (vm_compute; reflexivity).
  assert (Hid : truthy (meetingId (st w)) = true) by (vm_compute; reflexivity).
  split; [exact Hen|]. split; [exact Hid|].
  destruct (stop_issues_three_requests (clockAt 5000) (clockAt 5100)
              (clockAt 5200) (clockAt 5300) w
              {| resp_ok := true;
                 resp_json := inr {| d_text := JUndefined;
                                     d_meeting_id := JUndefined |} |}
              {| resp_ok := false;
                 resp_json := inr {| d_text := JUndefined;
                                     d_meeting_id := JUndefined |} |}
              {| resp_ok := true;
                 resp_json := inr {| d_text := JUndefined;
                                     d_meeting_id := JUndefined |} |}
              Hen Hid) as (Hcalls & _ & Herr & _).
  split; [exact Hcalls | exact Herr].
Defined.

(** X6. A stop whose first request is rejected (network failure): the
    rejection is logged and shown as the save-failed message, the page
    goes back to idle, and nothing else is reset: the session is still
    capturing with its meeting id, in state and in the refs, the host
    is not notified and only the one request was issued.  The Stop
    button is enabled again, and a second click issues the transcript
    request anew with the same content. *)
Theorem stop_rejection_keeps_session clk1 clk2 clk3 w e :
  stopEnabled (st w) = true ->
  truthy (meetingId (st w)) = true ->
  let h := length (inflight (net w)) in
  let w' := run [(clk1, ClickStop); (clk2, NetReply h (Rejected e))] w in
  calls (net w') = calls (net w) ++ [transcriptCall clk1 (st w)] /\
  error (st w') = saveFailedMessage /\
  consoleErrors (obs w') = consoleErrors (obs w) ++ [e] /\
  notified (obs w') = notified (obs w) /\
  status (st w') = Idle /\
  isCapturing (st w') = true /\
  meetingId (st w') = meetingId (st w) /\
  isCapturingRef (refs w') = isCapturingRef (refs w) /\
  meetingIdRef (refs w') = meetingIdRef (refs w) /\
  stopEnabled (st w') = true /\
  calls (net (step clk3 ClickStop w')) =
    calls (net w') ++ [transcriptCall clk3 (st w)].
Proof.
  intros Hen Hid h w'.
  set (r := st w) in *.
  assert (Hrun : exists w1,
             net w1 = net w /\ st w1 = upd_status Stopping (st w) /\
             obs w1 = obs (countStopRun w) /\
             isCapturingRef (refs w1) = isCapturingRef (refs w) /\
             meetingIdRef (refs w1) = meetingIdRef (refs w) /\
             w' = stopCapture_catch e
                    (settle h
                       (park (KStopTranscript r)
                          (request (transcriptCall clk1 r) w1)))).
  { exists (stopCapture_release w).
    split; [apply stopCapture_release_net|].
    split; [apply stopCapture_release_st|].
    split; [apply stopCapture_release_obs|].
    split; [apply stopCapture_release_flags|].
    split; [apply stopCapture_release_flags|].
    subst w'. cbn [run].
    assert (H1 : step clk1 ClickStop w =
                 park (KStopTranscript r)
                   (request (transcriptCall clk1 r) (stopCapture_release w))).
    { subst r. cbn [step]. rewrite Hen, stopCapture_unfold.
      unfold stopCapture_persist. now rewrite Hid. }
    rewrite H1. clear H1.
    pose proof (stopCapture_release_net w) as Hnet. revert Hnet.
    generalize (stopCapture_release w). intros w1 Hnet.
    rewrite (stop_reply_step clk2 h (KStopTranscript r)); [|
      cbn; rewrite Hnet; now apply list_lookup_middle | exact I].
    reflexivity. }
  destruct Hrun as (w1 & Hnet & Hst & Hobs & Hflag & Hmid & ->).
  assert (Hst' : st (stopCapture_catch e
                       (settle h
                          (park (KStopTranscript r)
                             (request (transcriptCall clk1 r) w1)))) =
                 upd_status Idle (upd_error saveFailedMessage r)).
  { unfold stopCapture_catch. cbn. rewrite Hst. reflexivity. }
  assert (Hen' : stopEnabled (upd_status Idle (upd_error saveFailedMessage r))
                 = true).
  { revert Hen. unfold stopEnabled. cbn. now intros ->%andb_true_iff%proj1. }
  split_and!.
  - unfold stopCapture_catch. cbn. now rewrite Hnet.
  - now rewrite Hst'.
  - unfold stopCapture_catch. cbn. now rewrite Hobs.
  - unfold stopCapture_catch. cbn. now rewrite Hobs.
  - now rewrite Hst'.
  - rewrite Hst'. cbn. fold r. revert Hen. unfold stopEnabled.
    now intros ->%andb_true_iff%proj1.
  - now rewrite Hst'.
  - exact Hflag.
  - exact Hmid.
  - rewrite Hst'. exact Hen'.
  - cbn [step]. rewrite Hst', Hen', stopCapture_calls. cbn.
    fold r. now rewrite Hid.
Qed.

Lemma stop_rejection_keeps_session_witness :
  let w := standup true in
  let w' := run [(clockAt 5000, ClickStop);
                 (clockAt 5100, NetReply 0 (Rejected someError))] w in
  stopEnabled (st w) = true /\
  truthy (meetingId (st w)) = true /\
  error (st w') = saveFailedMessage /\
  isCapturing (st w') = true /\
  stopEnabled (st w') = true.
Proof.
  intros w w'.
  assert (Hen : stopEnabled (st w) = true) by (vm_compute; reflexivity).
  assert (Hid : truthy (meetingId (st w)) = true) by (vm_compute; reflexivity).
  split; [exact Hen|]. split; [exact Hid|].
  destruct (stop_rejection_keeps_session (clockAt 5000) (clockAt 5100)
              (clockAt 5200) w someError Hen Hid)
    as (_ & Herr & _ & _ & _ & Hcap & _ & _ & _ & Hen' & _).
  split; [exact Herr|]. split; [exact Hcap | exact Hen'].
Defined.

(** ** Session invariant *)

Lemma sessionInv_same w w' :
  sessionView w' = sessionView w -> sessionInv w -> sessionInv w'.
Proof.
  unfold sessionView, sessionInv. intros [= -> -> -> -> -> ->]. easy.
Qed.

(** Peels a state update that the session invariant does not look at. *)
Ltac peel_session :=
  lazymatch goal with
  | |- sessionInv (?f ?w) =>
      let H := fresh in
      cut (sessionInv w);
      [ generalize w; intros ? H;
        eapply sessionInv_same; [| exact H]; reflexivity
      | ]
  end.

Lemma onended_alter_endTrack i (l : list Track) :
  map onended (alter endTrack i l) = map onended l.
Proof.
  revert i. induction l as [|t l IH]; intros [|i]; cbn; try easy.
  now rewrite IH.
Qed.

Lemma stopTracks_onended s b :
  map onended (tracks (stopTracks s b)) = map onended (tracks b).
Proof.
  unfold stopTracks. revert b.
  induction s as [|i s IH]; intros b; cbn [foldl]; [easy|].
  rewrite IH. cbn. apply onended_alter_endTrack.
Qed.

Lemma sessionView_cleanup w : sessionView (cleanup w) = sessionView w.
Proof.
  cleanup_steps (fun w' => sessionView w' = sessionView w) w;
    unfold sessionView in *; cbn in *; rewrite ?stopTracks_onended;
    first [assumption | reflexivity].
Qed.

Lemma sessionView_stopServerTranscription w :
  sessionView (stopServerTranscription w) = sessionView w.
Proof. unfold stopServerTranscription. now cases. Qed.

Lemma sessionView_startTranscriptionRecorder r w :
  sessionView (startTranscriptionRecorder r w) = sessionView w.
Proof. unfold startTranscriptionRecorder. now cases. Qed.

Lemma sessionView_startServerTranscription r w :
  sessionView (startServerTranscription r w) = sessionView w.
Proof.
  unfold startServerTranscription. cbv zeta.
  pose proof (sessionView_startTranscriptionRecorder r
                (on_refs (upd_isTranscribingRef false) w)) as H.
  revert H. generalize (startTranscriptionRecorder r
                          (on_refs (upd_isTranscribingRef false) w)).
  intros w1 H. cbn. exact H.
Qed.

Lemma sessionView_cycle r w :
  sessionView (cycleTranscriptionRecorder r w) = sessionView w.
Proof.
  unfold cycleTranscriptionRecorder.
  cases; rewrite ?sessionView_startTranscriptionRecorder; reflexivity.
Qed.

Lemma sessionView_sendBlob r size w :
  sessionView (sendBlobForTranscription r size w) = sessionView w.
Proof. unfold sendBlobForTranscription. now cases. Qed.

Lemma sessionView_updateLevel d w :
  sessionView (updateLevel d w) = sessionView w.
Proof. unfold updateLevel. now cases. Qed.

Lemma sessionView_setupAudioVisualization d w :
  sessionView (setupAudioVisualization d w) = sessionView w.
Proof.
  unfold setupAudioVisualization. cbv zeta. rewrite sessionView_updateLevel.
  now cases.
Qed.

Lemma sessionView_stopArchiveRecorder w :
  sessionView (stopArchiveRecorder w) = sessionView w.
Proof. unfold stopArchiveRecorder. now cases. Qed.

Lemma sessionView_startArchiveRecorder s w :
  sessionView (startArchiveRecorder s w) = sessionView w.
Proof. unfold startArchiveRecorder. now cases. Qed.

Lemma sessionView_togglePause_other r w :
  isCapturing (st (togglePause r w)) = isCapturing (st w) /\
  recordingTime (st (togglePause r w)) = recordingTime (st w) /\
  meetingId (st (togglePause r w)) = meetingId (st w) /\
  meetingIdRef (refs (togglePause r w)) = meetingIdRef (refs w) /\
  map onended (tracks (dom (togglePause r w))) = map onended (tracks (dom w)).
Proof.
  unfold togglePause. destruct (isPaused r); cbv zeta.
  - set (w1 := if recorderHasState _ _ _ then _ else w).
    assert (H1 : sessionView w1 = sessionView w) by (subst w1; now cases).
    pose proof (sessionView_startServerTranscription r w1) as H2.
    revert H2. generalize (startServerTranscription r w1). intros w2 H2.
    rewrite H1 in H2. revert H2. unfold sessionView. cbn.
    now intros [= -> _ -> -> -> ->].
  - set (w1 := if recorderHasState _ _ _ then _ else w).
    assert (H1 : sessionView w1 = sessionView w) by (subst w1; now cases).
    pose proof (sessionView_stopServerTranscription w1) as H2.
    revert H2. generalize (stopServerTranscription w1). intros w2 H2.
    rewrite H1 in H2. revert H2. unfold sessionView. cbn.
    now intros [= -> _ -> -> -> ->].
Qed.

Lemma sessionInv_togglePause r w :
  isCapturing (st w) = true -> sessionInv w -> sessionInv (togglePause r w).
Proof.
  intros Hcap (H1 & H2 & H3 & H4).
  destruct (sessionView_togglePause_other r w) as (E1 & E2 & E3 & E4 & E5).
  unfold sessionInv. rewrite E1, E2, E3, E4, E5, Hcap. easy.
Qed.

Lemma sessionInv_reset w : sessionInv w -> sessionInv (stopCapture_reset w).
Proof. intros (H1 & H2 & H3 & H4). unfold sessionInv, stopCapture_reset. now cbn. Qed.

Lemma sessionInv_stopCapture_release w :
  sessionInv w -> sessionInv (stopCapture_release w).
Proof.
  intros H. eapply sessionInv_same; [|exact H].
  unfold stopCapture_release.
  now rewrite sessionView_cleanup, sessionView_stopArchiveRecorder,
    sessionView_stopServerTranscription.
Qed.

Lemma sessionInv_stopCapture clk r w :
  sessionInv w -> sessionInv (stopCapture clk r w).
Proof.
  intros H%sessionInv_stopCapture_release. rewrite stopCapture_unfold.
  revert H. generalize (stopCapture_release w). intros w1 H.
  unfold stopCapture_persist. destruct (truthy (meetingId r)).
  - do 2 peel_session. assumption.
  - now apply sessionInv_reset.
Qed.

Lemma sessionInv_stopCapture_resume clk k o w :
  sessionInv w -> sessionInv (stopCapture_resume clk k o w).
Proof.
  intros H. unfold stopCapture_resume.
  destruct o as [e|resp].
  - unfold stopCapture_catch. cbv zeta. do 3 peel_session. assumption.
  - destruct k; try assumption; try (do 2 peel_session; assumption).
    apply sessionInv_reset. peel_session. assumption.
Qed.

Lemma sessionInv_afterRead r size readOk e w :
  sessionInv w -> sessionInv (completed (sendBlob_afterRead r size readOk e w)).
Proof.
  intros H. unfold sendBlob_afterRead.
  destruct readOk; cbn [completed sendBlob_handlers]; do 2 peel_session;
    assumption.
Qed.

Lemma sessionInv_afterReply clk r o w :
  sessionInv w -> sessionInv (completed (sendBlob_afterReply clk r o w)).
Proof.
  intros H. unfold sendBlob_afterReply.
  destruct (sendBlob_body_cases clk r o w)
    as [(s & _ & ->) | (_ & [-> | (e & ->)])];
    cbn [completed sendBlob_handlers]; repeat peel_session; assumption.
Qed.

Lemma sessionInv_onstop rc w : sessionInv w -> sessionInv (onstop rc w).
Proof.
  intros H. unfold onstop.
  destruct (rec_role rc); [peel_session; assumption|].
  destruct (rec_chunks rc); [assumption|].
  eapply sessionInv_same; [apply sessionView_sendBlob | assumption].
Qed.

Lemma sessionInv_startCapture_catch e w :
  sessionInv w -> sessionInv (startCapture_catch e w).
Proof.
  intros H. unfold startCapture_catch. cbv zeta.
  eapply sessionInv_same; [apply sessionView_cleanup|].
  do 3 peel_session. assumption.
Qed.

Lemma sessionInv_grow w w' hs :
  isCapturing (st w') = isCapturing (st w) ->
  isPaused (st w') = isPaused (st w) ->
  recordingTime (st w') = recordingTime (st w) ->
  meetingId (st w') = meetingId (st w) ->
  meetingIdRef (refs w') = meetingIdRef (refs w) ->
  map onended (tracks (dom w')) = map onended (tracks (dom w)) ++ hs ->
  Forall (fun h => forall r, h = Some r -> meetingId r = JNull) hs ->
  sessionInv w -> sessionInv w'.
Proof.
  intros E1 E2 E3 E4 E5 E6 Hhs (H1 & H2 & H3 & H4). unfold sessionInv.
  rewrite E1, E2, E3, E4, E5, E6. repeat split; try tauto.
  now apply Forall_app.
Qed.

Lemma newTracks_onended ks b :
  map onended (tracks (newTracks ks b).2) =
  map onended (tracks b) ++ map (fun _ => None) ks.
Proof.
  cbn. rewrite map_app. f_equal. rewrite map_map. reflexivity.
Qed.

Lemma Forall_unbound_None {A} (ks : list A) :
  Forall (fun h : option RState => forall r, h = Some r -> meetingId r = JNull)
    (map (fun _ => None) ks).
Proof. induction ks; cbn; constructor; easy. Qed.

Lemma captureSystemAudio_session o w :
  sessionInv w -> sessionInv (captureSystemAudio o w).1.
Proof.
  intros H. unfold captureSystemAudio.
  destruct o as [ks|e]; [|easy].
  destruct (newTracks ks (dom w)) as [ds b] eqn:Hnew.
  pose proof (newTracks_onended ks (dom w)) as Hon. rewrite Hnew in Hon.
  cbn [snd] in Hon.
  destruct (getAudioTracks _ _); cbn [fst];
    (eapply sessionInv_grow; [..| apply (Forall_unbound_None ks) | exact H]);
    try reflexivity; cbn; now rewrite stopTracks_onended.
Qed.

Lemma captureMicAudio_session o w :
  sessionInv w -> sessionInv (captureMicAudio o w).1.
Proof.
  intros H. unfold captureMicAudio.
  destruct o as [|e]; [|easy]. cbn [fst].
  destruct (newTracks [KAudio] (dom w)) as [s b] eqn:Hnew.
  pose proof (newTracks_onended [KAudio] (dom w)) as Hon. rewrite Hnew in Hon.
  cbn [snd fst] in *.
  eapply sessionInv_grow; [..| apply (Forall_unbound_None [KAudio]) | exact H];
    try reflexivity; exact Hon.
Qed.

Lemma combineStreams_session w :
  sessionInv w -> sessionInv (combineStreams w).1.
Proof.
  intros H. unfold combineStreams.
  destruct (newContext (dom w)) as [c b0] eqn:Hc.
  assert (Hb0 : tracks b0 = tracks (dom w)) by (now injection Hc as _ <-).
  destruct (newTracks [KAudio] b0) as [s b] eqn:Hnew.
  pose proof (newTracks_onended [KAudio] b0) as Hon. rewrite Hnew in Hon.
  cbn [snd fst] in *. rewrite Hb0 in Hon.
  eapply sessionInv_grow; [..| apply (Forall_unbound_None [KAudio]) | exact H];
    try reflexivity; exact Hon.
Qed.

Lemma installOnended_unbound r (audioTracks : Stream) (ts : list Track) :
  meetingId r = JNull ->
  Forall (fun h => forall r, h = Some r -> meetingId r = JNull)
    (map onended ts) ->
  Forall (fun h => forall r, h = Some r -> meetingId r = JNull)
    (map onended
       (foldl (fun ts i => alter (installOnended r) i ts) ts audioTracks)).
Proof.
  intros Hr. revert ts.
  induction audioTracks as [|i s IH]; intros ts Hts; cbn [foldl]; [easy|].
  apply IH. clear IH. revert i.
  induction ts as [|t ts IHts]; intros [|i]; cbn in *; try easy;
    inversion Hts; subst; constructor; auto.
  intros r0 [= <-]. exact Hr.
Qed.

Lemma sessionInv_installHandlers r s w :
  meetingId r = JNull -> sessionInv w -> sessionInv (installHandlers r s w).
Proof.
  intros Hr (H1 & H2 & H3 & H4). unfold sessionInv, installHandlers. cbn.
  repeat split; try tauto. now apply installOnended_unbound.
Qed.

Lemma sessionInv_startCapture_begin r data s w :
  sessionInv w -> sessionInv (startCapture_begin r data s w).
Proof.
  intros (H1 & H2 & H3 & H4). unfold startCapture_begin.
  set (w0 := on_refs (upd_activeStreamRef (Some s))
               (on_refs (upd_meetingIdRef (d_meeting_id data))
                  (setMeetingId (d_meeting_id data) w))).
  assert (E0 : sessionView w0 =
               (isCapturing (st w), isPaused (st w), recordingTime (st w),
                d_meeting_id data, d_meeting_id data,
                map onended (tracks (dom w)))) by reflexivity.
  rewrite <- (sessionView_startArchiveRecorder s w0) in E0.
  revert E0. generalize (startArchiveRecorder s w0). intros w1 E1.
  set (w2 := on_refs (upd_isCapturingRef true) (setIsCapturing true w1)).
  assert (E2 : sessionView w2 =
               (true, isPaused (st w), recordingTime (st w),
                d_meeting_id data, d_meeting_id data,
                map onended (tracks (dom w)))).
  { revert E1. unfold sessionView. subst w2. cbn.
    now intros [= _ -> -> -> -> ->]. }
  rewrite <- (sessionView_startServerTranscription r w2) in E2.
  revert E2. generalize (startServerTranscription r w2). intros w3.
  unfold sessionView, sessionInv. cbn. intros [= E3 _ _ -> -> ->].
  rewrite E3. repeat split; try easy.
Qed.

Lemma sessionInv_startCapture_reply r o s w :
  sessionInv w -> sessionInv (startCapture_reply r o s w).
Proof.
  intros H. unfold startCapture_reply.
  destruct (so_reply o) as [e|resp];
    [now apply sessionInv_startCapture_catch|].
  destruct (negb (resp_ok resp));
    [now apply sessionInv_startCapture_catch|].
  destruct (resp_json resp) as [e|data];
    [now apply sessionInv_startCapture_catch|].
  now apply sessionInv_startCapture_begin.
Qed.

Lemma sessionInv_startCapture_session clk r o s w :
  meetingId r = JNull -> sessionInv w ->
  sessionInv (startCapture_session clk r o s w).
Proof.
  intros Hr H. rewrite startCapture_session_unfold.
  destruct (getAudioTracks (dom w) s) as [|a l].
  { now apply sessionInv_startCapture_catch. }
  apply sessionInv_startCapture_reply. peel_session.
  eapply sessionInv_same; [apply sessionView_setupAudioVisualization|].
  now apply sessionInv_installHandlers.
Qed.

Lemma sessionInv_startCapture clk r o w :
  meetingId r = JNull -> sessionInv w -> sessionInv (startCapture clk r o w).
Proof.
  intros Hr H. unfold startCapture. cbv zeta.
  assert (H0 : sessionInv (setStatus Requesting (setError [] w)))
    by (do 2 peel_session; assumption).
  pose proof (captureSystemAudio_session (so_display o) _ H0) as H1.
  destruct (captureSystemAudio _ _) as [w1 [e|sys]]; cbn [fst] in *.
  { now apply sessionInv_startCapture_catch. }
  assert (H2 : sessionInv (on_refs (upd_systemStreamRef (Some sys)) w1))
    by (peel_session; assumption).
  destruct (captureSource r);
    try (apply sessionInv_startCapture_session; assumption).
  pose proof (captureMicAudio_session (so_mic o) _ H2) as H3.
  destruct (captureMicAudio _ _) as [w3 [e|mic]]; cbn [fst] in *.
  { now apply sessionInv_startCapture_catch. }
  assert (H4 : sessionInv (on_refs (upd_micStreamRef (Some mic)) w3))
    by (peel_session; assumption).
  pose proof (combineStreams_session _ H4) as H5.
  destruct (combineStreams _) as [w5 active]; cbn [fst] in *.
  apply sessionInv_startCapture_session; [assumption|].
  peel_session. assumption.
Qed.

Lemma sessionInv_stopTrack t w : sessionInv w -> sessionInv (on_dom (stopTrack t) w).
Proof.
  intros H. eapply sessionInv_same; [|exact H].
  unfold sessionView. cbn. now rewrite onended_alter_endTrack.
Qed.

Lemma sessionInv_step clk e w : sessionInv w -> sessionInv (step clk e w).
Proof.
  intros H. destruct e; cbn [step].
  1-5: unfold formEdit; destruct (isCapturing (st w));
         [assumption|peel_session; assumption].
  - destruct (startEnabled (st w)) eqn:Hen; [|assumption].
    apply sessionInv_startCapture; [|assumption].
    destruct H as (_ & H2 & _). apply H2.
    unfold startEnabled in Hen. now destruct (isCapturing (st w)).
  - destruct (pauseEnabled (st w)) eqn:Hen; [|assumption].
    unfold commit. peel_session. now apply sessionInv_togglePause.
  - destruct (stopEnabled (st w)); [|assumption].
    now apply sessionInv_stopCapture.
  - destruct (inflight (net w) !! h) as [[[]|]|]; try assumption.
    apply sessionInv_afterRead. peel_session. assumption.
  - destruct (inflight (net w) !! h) as [[k|]|]; try assumption.
    destruct k; try assumption;
      try (apply sessionInv_stopCapture_resume; peel_session; assumption).
    apply sessionInv_afterReply. peel_session. assumption.
  - destruct (intervals (dom w) !! t) as [i|]; [|assumption].
    destruct (int_active i); [|assumption].
    eapply sessionInv_same; [apply sessionView_cycle | assumption].
  - destruct (ticker (dom w)); [|assumption].
    destruct H as (H1 & H2 & H3 & H4).
    unfold sessionInv. cbn. split_and!; try easy. lia.
  - destruct (recorders (dom w) !! i) as [rc|]; [|assumption].
    destruct (rec_state rc); first [assumption | peel_session; assumption].
  - destruct (recorders (dom w) !! i) as [rc|]; [|assumption].
    destruct (rec_stopQueued rc); [|assumption].
    apply sessionInv_onstop. peel_session. assumption.
  - destruct (tracks (dom w) !! t) as [tr|]; [|assumption].
    destruct (live tr); [|assumption]. cbv zeta.
    pose proof (sessionInv_stopTrack t w H) as H1.
    destruct (onended tr) as [r|]; [|assumption].
    unfold onendedHandler. destruct (isCapturingRef _); [|assumption].
    now apply sessionInv_stopCapture.
  - destruct (frames (dom w) !! f) as [[]|] eqn:Hf; try assumption.
    eapply sessionInv_same; [apply sessionView_updateLevel|].
    peel_session. assumption.
  - unfold commit. peel_session. assumption.
Qed.

Lemma session_invariant w : reachable w -> sessionInv w.
Proof.
  induction 1 as [encoder|clk e w _ IH].
  - repeat split; try easy.
  - now apply sessionInv_step.
Qed.

(** X7. In every world the page can reach the refs mirror the state
    ([isCapturingRef] equals [isCapturing], [meetingIdRef] equals
    [meetingId]), the elapsed time is not negative, and a page that is
    not capturing holds no meeting id and is not paused.  (Its elapsed
    time need not be 0: the one-second interval of the last commit can
    still tick after the reset.) *)
Theorem refs_mirror_state w :
  reachable w ->
  isCapturingRef (refs w) = isCapturing (st w) /\
  meetingIdRef (refs w) = meetingId (st w) /\
  0 <= recordingTime (st w) /\
  (isCapturing (st w) = false ->
   meetingId (st w) = JNull /\ isPaused (st w) = false).
Proof.
  intros Hw.
  destruct (monitor_never_runs w Hw) as (Hcap & _).
  destruct (session_invariant w Hw) as (Hmid & Hrest & Htime & _).
  easy.
Qed.

Lemma refs_mirror_state_witness :
  let w := run stopWith500 (standup true) in
  reachable w /\
  isCapturingRef (refs w) = isCapturing (st w) /\
  meetingIdRef (refs w) = meetingId (st w) /\
  isCapturing (st w) = false /\
  meetingId (st w) = JNull.
Proof.
  intros w.
  assert (Hw : reachable w).
  { do 2 apply reachable_run. apply reachable_initial. }
  assert (Hidle : isCapturing (st w) = false) by (vm_compute; reflexivity).
  split; [exact Hw|].
  destruct (refs_mirror_state w Hw) as (Hcap & Hmid & _ & Hrest).
  split; [exact Hcap|]. split; [exact Hmid|]. split; [exact Hidle|].
  exact (proj1 (Hrest Hidle)).
Defined.

Lemma stopCapture_unbound clk r w :
  truthy (meetingId r) = false ->
  stopCapture clk r w = stopCapture_reset (stopCapture_release w).
Proof.
  intros Hid. rewrite stopCapture_unfold. unfold stopCapture_persist.
  now rewrite Hid.
Qed.

Lemma stopCapture_reset_view w :
  net (stopCapture_reset w) = net w /\ obs (stopCapture_reset w) = obs w /\
  status (st (stopCapture_reset w)) = Idle /\
  isCapturing (st (stopCapture_reset w)) = false /\
  meetingId (st (stopCapture_reset w)) = JNull.
Proof. unfold stopCapture_reset. now cbn. Qed.

(** X8. In every world the page can reach, the end of a track (the
    user stops sharing) never reaches the backend: the handler stored
    in [track.onended] closes over a render without meeting id, so the
    event issues no request, parks no continuation and does not notify
    the host.  When the track was live, carried a handler and the
    session was capturing, [stopCapture] did run once and the page is
    idle, not capturing and without meeting id. *)
Theorem track_end_never_persists clk t w :
  reachable w ->
  let w' := step clk (TrackEnded t) w in
  net w' = net w /\
  notified (obs w') = notified (obs w) /\
  (forall tr r,
     tracks (dom w) !! t = Some tr -> live tr = true ->
     onended tr = Some r -> isCapturingRef (refs w) = true ->
     stopRuns (obs w') = S (stopRuns (obs w)) /\
     status (st w') = Idle /\ isCapturing (st w') = false /\
     meetingId (st w') = JNull).
Proof.
  intros Hw. cbv zeta.
  destruct (session_invariant w Hw) as (_ & _ & _ & Hh).
  cbn [step].
  destruct (tracks (dom w) !! t) as [tr|] eqn:Ht;
    [|split; [|split]; [reflexivity..|intros ? ? [=]]].
  destruct (live tr) eqn:Hlive;
    [|split; [|split]; [reflexivity..|intros ? ? [= <-]; congruence]].
  cbv zeta.
  destruct (onended tr) as [r|] eqn:Hon;
    [|split; [|split]; [reflexivity..|intros ? ? [= <-]; congruence]].
  assert (Hr : truthy (meetingId r) = false).
  { rewrite Forall_forall in Hh.
    rewrite (Hh (Some r)); [reflexivity| |reflexivity].
    rewrite <- Hon. apply list_elem_of_fmap_2.
    now apply list_elem_of_lookup_2 in Ht. }
  unfold onendedHandler.
  change (isCapturingRef (refs (on_dom (stopTrack t) w)))
    with (isCapturingRef (refs w)).
  destruct (isCapturingRef (refs w));
    [|split; [|split]; [reflexivity..|intros; congruence]].
  rewrite stopCapture_unbound by exact Hr.
  pose proof (stopCapture_release_net (on_dom (stopTrack t) w)) as Hnet.
  pose proof (stopCapture_release_obs (on_dom (stopTrack t) w)) as Hobs.
  revert Hnet Hobs. generalize (stopCapture_release (on_dom (stopTrack t) w)).
  intros w1 Hnet Hobs.
  destruct (stopCapture_reset_view w1) as (-> & -> & -> & -> & ->).
  rewrite Hnet, Hobs. cbn. easy.
Qed.

Lemma track_end_never_persists_witness :
  let w := twoTracks in
  let w' := step (clockAt 5000) (TrackEnded 0) w in
  reachable w /\
  meetingIdRef (refs w) = JNum 7 /\
  net w' = net w /\
  status (st w') = Idle.
Proof.
  intros w w'.
  assert (Hw : reachable w).
  { apply reachable_run. apply reachable_initial. }
  split; [exact Hw|]. split; [vm_compute; reflexivity|].
  destruct (track_end_never_persists (clockAt 5000) 0%nat w Hw)
    as (Hnet & _ & Hstop).
  split; [exact Hnet|].
  assert (Ht : exists tr r, tracks (dom w) !! 0%nat = Some tr /\
                 live tr = true /\ onended tr = Some r /\
                 isCapturingRef (refs w) = true).
  { vm_compute. eexists _, _. repeat split. }
  destruct Ht as (tr & r & H1 & H2 & H3 & H4).
  exact (proj1 (proj2 (Hstop tr r H1 H2 H3 H4))).
Defined.

(** ** The elapsed-time display *)

Lemma js_inj s1 s2 : js s1 = js s2 -> s1 = s2.
Proof.
  unfold js. intros H.
  rewrite <- (string_of_list_ascii_of_string s1),
          <- (string_of_list_ascii_of_string s2).
  f_equal. revert H.
  generalize (list_ascii_of_string s1) (list_ascii_of_string s2).
  induction l as [|a l IH]; intros [|b l']; cbn; try easy.
  intros [= Hab Hl]. f_equal; [|now apply IH].
  rewrite <- (ascii_N_embedding a), <- (ascii_N_embedding b). now f_equal.
Qed.

Lemma toString_inj a b : toString a = toString b -> a = b.
Proof. unfold toString. intros H%js_inj. now apply (inj pretty) in H. Qed.

Lemma twoDigits_below_60 n : 0 <= n < 60 -> twoDigits n = true.
Proof.
  intros Hn.
  assert (Hall : forallb twoDigits (map Z.of_nat (seq 0 60)) = true)
    by (vm_compute; reflexivity).
  rewrite forallb_forall in Hall. apply Hall.
  apply in_map_iff. exists (Z.to_nat n). split; [lia|].
  apply in_seq. lia.
Qed.

Lemma twoDigits_spec n :
  0 <= n < 60 ->
  length (padStart2 (toString n)) = 2%nat /\
  valueOf (padStart2 (toString n)) = n /\
  58%N ∉ toString n.
Proof.
  intros H%twoDigits_below_60. unfold twoDigits in H.
  apply andb_true_iff in H as [[H1 H2]%andb_true_iff H3].
  split; [now apply Nat.eqb_eq|]. split; [now apply Z.eqb_eq|].
  intros Hin. rewrite forallb_forall in H3.
  apply list_elem_of_In in Hin. specialize (H3 _ Hin). now cbn in H3.
Qed.

Lemma padded_inj a b :
  0 <= a < 60 -> 0 <= b < 60 ->
  padStart2 (toString a) = padStart2 (toString b) -> a = b.
Proof.
  intros (_ & Ha & _)%twoDigits_spec (_ & Hb & _)%twoDigits_spec Heq.
  rewrite <- Ha, <- Hb. now f_equal.
Qed.

Lemma formatTime_parts seconds :
  0 <= seconds ->
  let hrs := seconds / 3600 in
  let mins := Z.rem seconds 3600 / 60 in
  let secs := Z.rem seconds 60 in
  0 <= hrs /\ 0 <= mins < 60 /\ 0 <= secs < 60 /\
  seconds = 3600 * hrs + 60 * mins + secs.
Proof.
  intros H. cbv zeta. rewrite !Z.rem_mod_nonneg by lia.
  Z.div_mod_to_equations. lia.
Qed.

(** X9. [formatTime] tells elapsed times apart: two non-negative
    numbers of seconds that are displayed alike are equal. *)
Theorem formatTime_injective a b :
  0 <= a -> 0 <= b ->
  formatTime a = formatTime b -> a = b.
Proof.
  intros Ha Hb.
  destruct (formatTime_parts a Ha) as (Hha & Hma & Hsa & Ea).
  destruct (formatTime_parts b Hb) as (Hhb & Hmb & Hsb & Eb).
  unfold formatTime. cbv zeta.
  set (ha := a / 3600) in *. set (ma := Z.rem a 3600 / 60) in *.
  set (sa := Z.rem a 60) in *.
  set (hb := b / 3600) in *. set (mb := Z.rem b 3600 / 60) in *.
  set (sb := Z.rem b 60) in *.
  destruct (twoDigits_spec sa Hsa) as (Lsa & _ & _).
  destruct (twoDigits_spec sb Hsb) as (Lsb & _ & _).
  destruct (twoDigits_spec ma Hma) as (Lma & _ & Cma).
  destruct (twoDigits_spec mb Hmb) as (Lmb & _ & Cmb).
  assert (Hcolon : forall h m x,
             0 <= m < 60 -> 58%N ∉ toString x ->
             toString h ++ colon ++ padStart2 (toString m) = toString x ->
             False).
  { intros h m x Hm Hx Heq. apply Hx. rewrite <- Heq.
    apply elem_of_app. right. apply elem_of_app. left.
    unfold colon. apply list_elem_of_here. }
  destruct (0 <? ha) eqn:Hpa; destruct (0 <? hb) eqn:Hpb; intros Heq.
  - rewrite !app_assoc in Heq.
    apply (app_inj_2 _ _ _ _ (eq_trans Lsa (eq_sym Lsb))) in Heq as [Heq Hs].
    apply padded_inj in Hs; [|assumption..].
    apply app_inj_tail in Heq as [Heq _].
    apply (app_inj_2 _ _ _ _ (eq_trans Lma (eq_sym Lmb))) in Heq as [Heq Hm].
    apply padded_inj in Hm; [|assumption..].
    apply app_inj_tail in Heq as [Heq _].
    apply toString_inj in Heq. lia.
  - exfalso. rewrite !app_assoc in Heq.
    apply (app_inj_2 _ _ _ _ (eq_trans Lsa (eq_sym Lsb))) in Heq as [Heq _].
    apply app_inj_tail in Heq as [Heq _].
    rewrite <- app_assoc in Heq. now apply (Hcolon ha ma mb).
  - exfalso. rewrite !app_assoc in Heq.
    apply (app_inj_2 _ _ _ _ (eq_trans Lsa (eq_sym Lsb))) in Heq as [Heq _].
    apply app_inj_tail in Heq as [Heq _].
    rewrite <- app_assoc in Heq. symmetry in Heq.
    now apply (Hcolon hb mb ma).
  - rewrite !app_assoc in Heq.
    apply (app_inj_2 _ _ _ _ (eq_trans Lsa (eq_sym Lsb))) in Heq as [Heq Hs].
    apply padded_inj in Hs; [|assumption..].
    apply app_inj_tail in Heq as [Heq _].
    apply toString_inj in Heq.
    apply Z.ltb_ge in Hpa, Hpb. lia.
Qed.

Lemma formatTime_injective_witness :
  0 <= 3725 /\ 0 <= 125 /\
  formatTime 3725 = js "1:02:05" /\ formatTime 125 = js "2:05" /\
  (formatTime 3725 = formatTime 125 -> 3725 = 125).
Proof.
  split; [lia|]. split; [lia|].
  split; [vm_compute; reflexivity|]. split; [vm_compute; reflexivity|].
  apply (formatTime_injective 3725 125); lia.
Defined.

(** ** The persisted transcript *)

(** X10. The transcript text that [stopCapture] persists is built entry
    by entry: for two non-empty runs of entries it is the text of the
    first, a blank line, and the text of the second; so the text of a
    transcript that gained one entry is the former text, a blank line
    and the line of the new entry.  The speaker count sent along is the
    number of entries. *)
Theorem fullTranscript_app (l1 l2 : list TranscriptEntry) :
  l1 <> [] -> l2 <> [] ->
  fullTranscript (l1 ++ l2) =
    fullTranscript l1 ++ [10%N; 10%N] ++ fullTranscript l2 /\
  (forall e, fullTranscript (l1 ++ [e]) =
             fullTranscript l1 ++ [10%N; 10%N] ++ formatEntry e) /\
  (forall clk r, liveTranscript r = l1 ++ l2 ->
     c_body (transcriptCall clk r) =
     TranscriptBody (fullTranscript l1 ++ [10%N; 10%N] ++ fullTranscript l2)
       (currentSpeaker r, (length l1 + length l2)%nat)
       (selectedLanguage r) (iso clk) (iso clk)).
Proof.
  intros H1 H2.
  assert (Happ : forall l, l <> [] ->
            fullTranscript (l1 ++ l) =
            fullTranscript l1 ++ [10%N; 10%N] ++ fullTranscript l).
  { intros l Hl. unfold fullTranscript. rewrite map_app.
    apply join_app; now destruct l1, l. }
  split; [now apply Happ|]. split.
  - intros e. now rewrite Happ.
  - intros clk r Hr. unfold transcriptCall. cbn [c_body].
    now rewrite Hr, Happ, length_app.
Qed.

Lemma fullTranscript_app_witness :
  let e1 := entryAt (clockAt 1) standupRender (js "hello") in
  let e2 := entryAt (clockAt 2) standupRender (js "bye") in
  [e1] <> [] /\ [e2] <> [] /\
  fullTranscript ([e1] ++ [e2]) =
    js "Speaker (10:00:00): hello" ++ [10%N; 10%N] ++
    js "Speaker (10:00:00): bye".
Proof.
  intros e1 e2.
  assert (H1 : [e1] <> []) by discriminate.
  assert (H2 : [e2] <> []) by discriminate.
  split; [exact H1|]. split; [exact H2|].
  destruct (fullTranscript_app [e1] [e2] H1 H2) as (-> & _).
  vm_compute. reflexivity.
Defined.

(** ** Trimmed text *)

Lemma trimStart_cases s :
  trimStart s = [] \/
  exists c s', trimStart s = c :: s' /\ isWhiteSpace c = false.
Proof.
  induction s as [|c s IH]; cbn; [now left|].
  destruct (isWhiteSpace c) eqn:Hc; [exact IH|]. right. now exists c, s.
Qed.

Lemma trimStart_fixed c s : isWhiteSpace c = false -> trimStart (c :: s) = c :: s.
Proof. intros H. cbn. now rewrite H. Qed.

Lemma trimStart_snoc l c :
  isWhiteSpace c = false -> exists l', trimStart (l ++ [c]) = l' ++ [c].
Proof.
  intros Hc. induction l as [|a l IH]; cbn.
  - rewrite Hc. now exists [].
  - destruct (isWhiteSpace a); [exact IH|]. now exists (a :: l).
Qed.

Lemma trimStart_all_space s :
  trimStart s = [] <-> Forall (fun c => isWhiteSpace c = true) s.
Proof.
  induction s as [|c s IH]; cbn; [easy|].
  destruct (isWhiteSpace c) eqn:Hc.
  - rewrite IH. split; [now constructor | now inversion 1].
  - split; [easy | inversion 1; congruence].
Qed.

Lemma trimEnd_keeps_head c s :
  isWhiteSpace c = false -> exists s', trimEnd (c :: s) = c :: s'.
Proof.
  intros Hc. unfold trimEnd. cbn [rev].
  destruct (trimStart_snoc (rev s) c Hc) as (l' & ->).
  rewrite rev_app_distr. cbn. now exists (rev l').
Qed.

Lemma trimEnd_idempotent s : trimEnd (trimEnd s) = trimEnd s.
Proof.
  unfold trimEnd. rewrite rev_involutive.
  destruct (trimStart_cases (rev s)) as [-> | (c & s' & H & Hc)]; [easy|].
  rewrite H. now rewrite trimStart_fixed.
Qed.

Lemma trim_idempotent s : trim (trim s) = trim s.
Proof.
  unfold trim.
  destruct (trimStart_cases s) as [-> | (c & s' & -> & Hc)]; [easy|].
  destruct (trimEnd_keeps_head c s' Hc) as (s'' & Hs).
  rewrite Hs, (trimStart_fixed c s'' Hc), <- Hs. apply trimEnd_idempotent.
Qed.

Lemma trim_head s c : head (trim s) = Some c -> isWhiteSpace c = false.
Proof.
  unfold trim.
  destruct (trimStart_cases s) as [-> | (c' & s' & -> & Hc)]; [easy|].
  destruct (trimEnd_keeps_head c' s' Hc) as (s'' & ->). now intros [= <-].
Qed.

Lemma last_rev_head {A} (l : list A) : last (rev l) = head l.
Proof.
  destruct l as [|a l]; [easy|]. cbn [rev head]. apply last_snoc.
Qed.

Lemma trim_last s c : last (trim s) = Some c -> isWhiteSpace c = false.
Proof.
  unfold trim, trimEnd. rewrite last_rev_head.
  destruct (trimStart_cases (rev (trimStart s))) as [-> | (c' & s' & -> & Hc)];
    [easy|].
  now intros [= <-].
Qed.

Lemma trim_trimmed s : trim s <> [] -> trimmed (trim s).
Proof.
  intros H. split; [exact H|]. split; [apply trim_idempotent|].
  split; [apply trim_head | apply trim_last].
Qed.

Lemma trim_empty_iff s :
  trim s = [] <-> Forall (fun c => isWhiteSpace c = true) s.
Proof.
  rewrite <- trimStart_all_space. unfold trim. split.
  - destruct (trimStart_cases s) as [-> | (c & s' & -> & Hc)]; [easy|].
    destruct (trimEnd_keeps_head c s' Hc) as (s'' & ->). easy.
  - now intros ->.
Qed.

Lemma not_all_space (l : jsstring) :
  ~ Forall (fun c => isWhiteSpace c = true) l <->
  Exists (fun c => isWhiteSpace c = false) l.
Proof.
  induction l as [|a l IH].
  - split; [intros H; destruct H; constructor | inversion 1].
  - rewrite Forall_cons, Exists_cons, <- IH.
    destruct (isWhiteSpace a); intuition congruence.
Qed.

(** X11. The Start button is enabled exactly when the page is not
    capturing, no start is being requested and the title contains a
    character that is not white space. *)
Theorem start_enabled_iff (s : RState) :
  startEnabled s = true <->
  isCapturing s = false /\ status s <> Requesting /\
  Exists (fun c => isWhiteSpace c = false) (meetingTitle s).
Proof.
  unfold startEnabled.
  rewrite andb_true_iff, !negb_true_iff, orb_false_iff, negb_false_iff.
  rewrite strTruthy_true, trim_empty_iff, not_all_space.
  destruct (status s); intuition congruence.
Qed.

(** An event leaves the live transcript alone, clears it, or appends the
    entry built from the trimmed text of a successful reply. *)
Lemma step_liveTranscript_entry clk e w :
  liveTranscript (st (step clk e w)) = liveTranscript (st w) \/
  liveTranscript (st (step clk e w)) = [] \/
  exists h o r s,
    e = NetReply h o /\ successfulText o s /\
    inflight (net w) !! h = Some (Some (KTranscribe r)) /\
    liveTranscript (st (step clk e w)) =
      liveTranscript (st w) ++ [entryAt clk r s].
Proof.
  destruct (step_liveTranscript clk e w) as [H | [H | (h & o & en & -> & _ & H)]];
    [now left | now right; left |].
  cbn [step] in *.
  assert (Hsame : forall l : list TranscriptEntry, l = l ++ [en] -> False).
  { intros l Hl. apply (f_equal length) in Hl. rewrite length_app in Hl.
    cbn in Hl. lia. }
  destruct (inflight (net w) !! h) as [[k|]|] eqn:Hk;
    try (now apply Hsame in H).
  destruct k; try (now apply Hsame in H);
    try (rewrite stopCapture_resume_liveTranscript in H; now apply Hsame in H).
  unfold sendBlob_afterReply in *.
  destruct (sendBlob_body_cases clk r o (settle h w))
    as [(s & Hs & ->) | (_ & [-> | (e & ->)])]; cbn in *;
    try (now left).
  right; right. now exists h, o, r, s.
Qed.

(** X12. In every world the page can reach, every entry of the live
    transcript carries a text that is not empty, is its own trim and
    neither starts nor ends with white space, and the fixed confidence
    0.85. *)
Theorem transcript_entries_are_trimmed w :
  reachable w ->
  Forall (fun e => trimmed (text e) /\ confidence e = 85 # 100)
    (liveTranscript (st w)).
Proof.
  induction 1 as [encoder|clk e w _ IH]; [constructor|].
  destruct (step_liveTranscript_entry clk e w)
    as [-> | [-> | (h & o & r & s & _ & Hs & _ & ->)]];
    [assumption | constructor |].
  apply Forall_app. split; [assumption|]. constructor; [|constructor].
  destruct Hs as (resp & data & raw & _ & _ & _ & _ & -> & Hne).
  split; [now apply trim_trimmed | reflexivity].
Qed.

Lemma transcript_entries_are_trimmed_witness :
  let w := step (clockAt 42)
             (NetReply 1 (replyOk JUndefined (JStr (js " hello team "))))
             uploading in
  reachable w /\
  map text (liveTranscript (st w)) = [js "hello team"] /\
  Forall (fun e => trimmed (text e) /\ confidence e = 85 # 100)
    (liveTranscript (st w)).
Proof.
  intros w.
  assert (Hw : reachable w).
  { apply reachable_step. do 2 apply reachable_run. apply reachable_initial. }
  split; [exact Hw|]. split; [vm_compute; reflexivity|].
  exact (transcript_entries_are_trimmed w Hw).
Defined.

(** ** Uploading a finished segment *)

Lemma pushChunk_chunks size rc s q :
  rec_chunks (pushChunk size (withState s q rc)) = rec_chunks (pushChunk size rc).
Proof. unfold pushChunk. now destruct (0 <? size). Qed.

Lemma pushChunk_role size rc : rec_role (pushChunk size rc) = rec_role rc.
Proof. unfold pushChunk. now destruct (0 <? size). Qed.

Lemma app_one_neq {A} (l : list A) x : l ++ [x] <> l.
Proof.
  intros H. apply (f_equal length) in H. rewrite length_app in H. cbn in H. lia.
Qed.

(** X13. When the stop event of a cycling recorder is handled, its
    chunks (with the final one) form the segment.  The segment is handed
    to the file reader, for upload, exactly when [meetingIdRef] is
    truthy, [isCapturingRef] is set and the segment has at least 1000
    bytes; otherwise the network is left untouched.  No request is
    issued yet in either case, and the recorder is inactive with its
    stop event consumed. *)
Theorem segment_read_iff clk w i size rc r :
  recorders (dom w) !! i = Some rc ->
  rec_stopQueued rc = true ->
  rec_role rc = Cycle r ->
  let total := blobOf (rec_chunks (pushChunk size rc)) in
  let w' := step clk (RecorderStopped i size) w in
  (inflight (net w') = inflight (net w) ++ [Some (KRead r total)] <->
   truthy (meetingIdRef (refs w)) = true /\ isCapturingRef (refs w) = true /\
   1000 <= total) /\
  (inflight (net w') = inflight (net w) ++ [Some (KRead r total)] \/
   inflight (net w') = inflight (net w)) /\
  calls (net w') = calls (net w) /\
  st w' = st w /\
  (rec_state <$> recorders (dom w') !! i) = Some Inactive /\
  (rec_stopQueued <$> recorders (dom w') !! i) = Some false.
Proof.
  intros Hrc Hq Hrole total w'. subst w'. cbn [step]. rewrite Hrc, Hq.
  set (rc' := pushChunk size (withState Inactive false rc)).
  assert (Hrole' : rec_role rc' = Cycle r)
    by (subst rc'; now rewrite pushChunk_role).
  assert (Hchunks : rec_chunks rc' = rec_chunks (pushChunk size rc))
    by (subst rc'; apply pushChunk_chunks).
  assert (Hstate : rec_state rc' = Inactive /\ rec_stopQueued rc' = false)
    by (subst rc'; unfold pushChunk; now destruct (0 <? size)).
  assert (Hlook :
            (rec_state <$> <[i := rc']> (recorders (dom w)) !! i) = Some Inactive /\
            (rec_stopQueued <$> <[i := rc']> (recorders (dom w)) !! i) = Some false).
  { rewrite list_lookup_insert_eq by (now apply lookup_lt_Some in Hrc).
    cbn. now destruct Hstate as [-> ->]. }
  unfold onstop. rewrite Hrole', Hchunks. fold total.
  assert (Hskip : forall w0 : World,
            inflight (net w0) = inflight (net w) -> calls (net w0) = calls (net w) ->
            st w0 = st w ->
            recorders (dom w0) = <[i := rc']> (recorders (dom w)) ->
            (truthy (meetingIdRef (refs w)) = true /\
             isCapturingRef (refs w) = true /\ 1000 <= total -> False) ->
            (inflight (net w0) = inflight (net w) ++ [Some (KRead r total)] <->
             truthy (meetingIdRef (refs w)) = true /\
             isCapturingRef (refs w) = true /\ 1000 <= total) /\
            (inflight (net w0) = inflight (net w) ++ [Some (KRead r total)] \/
             inflight (net w0) = inflight (net w)) /\
            calls (net w0) = calls (net w) /\ st w0 = st w /\
            (rec_state <$> recorders (dom w0) !! i) = Some Inactive /\
            (rec_stopQueued <$> recorders (dom w0) !! i) = Some false).
  { intros w0 Hin Hcalls Hst Hrec Hno. rewrite Hin, Hrec.
    split; [|split; [now right|easy]].
    split; [intros H; symmetry in H; now apply app_one_neq in H | easy]. }
  destruct (rec_chunks (pushChunk size rc)) as [|c cs] eqn:Hcs.
  { apply Hskip; try reflexivity. subst total. cbn. lia. }
  unfold sendBlobForTranscription. cbn [refs on_dom].
  destruct (truthy (meetingIdRef (refs w))) eqn:Hmid;
    [|apply Hskip; try reflexivity; intros (? & _); congruence].
  destruct (isCapturingRef (refs w)) eqn:Hcap;
    [|apply Hskip; try reflexivity; intros (_ & ? & _); congruence].
  cbn [negb orb].
  destruct (total <? 1000) eqn:Hsize.
  - apply Z.ltb_lt in Hsize. apply Hskip; try reflexivity. lia.
  - apply Z.ltb_ge in Hsize. cbn.
    split; [easy|]. split; [now left|]. easy.
Qed.

Lemma segment_read_iff_witness :
  let w := run [(clockAt 1500, DataAvailable 1 2400);
                (clockAt 10001, TimerFired 0)] (standup true) in
  let w' := step (clockAt 10002) (RecorderStopped 1 300) w in
  (rec_stopQueued <$> recorders (dom w) !! 1%nat) = Some true /\
  (rec_role <$> recorders (dom w) !! 1%nat) = Some (Cycle standupRender) /\
  inflight (net w') = inflight (net w) ++ [Some (KRead standupRender 2700)].
Proof.
  intros w w'.
  assert (Hrc : exists rc, recorders (dom w) !! 1%nat = Some rc /\
                  rec_stopQueued rc = true /\ rec_role rc = Cycle standupRender /\
                  blobOf (rec_chunks (pushChunk 300 rc)) = 2700 /\
                  truthy (meetingIdRef (refs w)) = true /\
                  isCapturingRef (refs w) = true).
  { vm_compute. eexists. repeat split. }
  destruct Hrc as (rc & Hrc & Hq & Hrole & Htotal & Hmid & Hcap).
  split; [now rewrite Hrc; cbn; rewrite Hq|].
  split; [now rewrite Hrc; cbn; rewrite Hrole|].
  destruct (segment_read_iff (clockAt 10002) w 1%nat 300 rc standupRender
              Hrc Hq Hrole) as (Hiff & _).
  rewrite Htotal in Hiff. apply Hiff. repeat split; [assumption..|lia].
Defined.

(** ** The elapsed-time counter *)

(** X14. The elapsed-time effect.  The one-second interval is
    scheduled by the commit of a render that is capturing and not
    paused, and cleared by the next commit; a Pause or Resume click is
    committed with the click.  While the interval is scheduled, each
    tick adds one to the counter, whatever the state is by then, and
    changes nothing else; without it the counter stands still.  So a
    tick can follow the reset of a stop that the end of a track
    triggered: the page is then not capturing and shows one second. *)
Theorem elapsed_time_counts_ticks (clks : list Clock) w :
  let w' := run (map (fun clk => (clk, SecondElapsed)) clks) w in
  recordingTime (st w') =
    (if ticker (dom w)
     then recordingTime (st w) + Z.of_nat (length clks)
     else recordingTime (st w)) /\
  st w' = upd_recordingTime (recordingTime (st w')) (st w) /\
  refs w' = refs w /\ dom w' = dom w /\ net w' = net w /\ obs w' = obs w /\
  (forall clk,
     ticker (dom (step clk Commit w)) =
       isCapturing (st w) && negb (isPaused (st w)) /\
     st (step clk Commit w) = st w) /\
  (forall clk,
     isCapturing (st w) = true ->
     ticker (dom (step clk ClickPause w)) = isPaused (st w)) /\
  (let w1 := run [(clockAt 2, Commit); (clockAt 5000, TrackEnded 0)] twoTracks in
   let w2 := step (clockAt 5001) SecondElapsed w1 in
   ticker (dom w1) = true /\
   isCapturing (st w1) = false /\ recordingTime (st w1) = 0 /\
   isCapturing (st w2) = false /\ recordingTime (st w2) = 1 /\
   ticker (dom (step (clockAt 5002) Commit w2)) = false).
Proof.
  cbv zeta.
  assert (Hticks : forall clks w,
            let w' := run (map (fun clk => (clk, SecondElapsed)) clks) w in
            recordingTime (st w') =
              (if ticker (dom w)
               then recordingTime (st w) + Z.of_nat (length clks)
               else recordingTime (st w)) /\
            st w' = upd_recordingTime (recordingTime (st w')) (st w) /\
            refs w' = refs w /\ dom w' = dom w /\ net w' = net w /\
            obs w' = obs w).
  { clear. intros clks. induction clks as [|clk clks IH]; intros w; cbv zeta.
    - cbn. destruct (ticker (dom w)); split_and!; try lia; try reflexivity;
        now destruct (st w).
    - cbn [map run length step].
      destruct (ticker (dom w)) eqn:Ht; [|specialize (IH w); cbv zeta in IH;
                                          now rewrite Ht in IH].
      destruct (IH (setRecordingTime (recordingTime (st w) + 1) w))
        as (H1 & H2 & H3 & H4 & H5 & H6).
      change (dom (setRecordingTime (recordingTime (st w) + 1) w))
        with (dom w) in H1, H4.
      rewrite Ht in H1.
      split_and!; try assumption.
      rewrite H1. cbn. lia. }
  destruct (Hticks clks w) as (H1 & H2 & H3 & H4 & H5 & H6).
  split_and!; try assumption.
  1: { intros clk. now cbn. }
  1: { intros clk Hcap. cbn [step]. unfold pauseEnabled. rewrite Hcap.
       unfold commit. cbn [dom on_dom upd_ticker ticker].
       destruct (parts_togglePause (st w) w) as (_ & _ & -> & ->).
       rewrite Hcap. now destruct (isPaused (st w)). }
  all: vm_compute; reflexivity.
Qed.

(** ** Ownership of the media tracks *)

Lemma isLive_map_live b i :
  isLive b i = default false (map live (tracks b) !! i).
Proof.
  unfold isLive. change (map live (tracks b)) with (live <$> tracks b).
  rewrite list_lookup_fmap. now destruct (tracks b !! i).
Qed.

Lemma isLive_same_live b b' :
  map live (tracks b') = map live (tracks b) ->
  forall i, isLive b' i = isLive b i.
Proof. intros H i. now rewrite !isLive_map_live, H. Qed.

Lemma heldBy_same w w' i :
  systemStreamRef (refs w') = systemStreamRef (refs w) ->
  micStreamRef (refs w') = micStreamRef (refs w) ->
  combinedStreamRef (refs w') = combinedStreamRef (refs w) ->
  heldBy w i -> heldBy w' i.
Proof. unfold heldBy. now intros -> -> ->. Qed.

Lemma owned_same w w' :
  ownerView w' = ownerView w -> owned w -> owned w'.
Proof.
  unfold ownerView. intros [= E1 E2 E3 E4 E5 E6 E7] (HA & HB & HC & HD & HE).
  pose proof (isLive_same_live _ _ E6) as Hlive.
  unfold owned, heldFrom, quietFrom. rewrite E1, E2, E7.
  split; [|split; [|split; [assumption|split; [|assumption]]]].
  - intros i Hi Hl. rewrite Hlive in Hl.
    eapply heldBy_same; [..| apply (HA i Hi Hl)]; assumption.
  - intros Hc i Hi. rewrite Hlive. now apply HB.
  - intros Hn. destruct (HD Hn) as (? & ? & Hq). repeat split; try assumption.
    intros i Hi. rewrite Hlive. now apply Hq.
Qed.

Ltac peel_owned :=
  lazymatch goal with
  | |- owned (?f ?w) =>
      let H := fresh in
      cut (owned w);
      [ generalize w; intros ? H;
        eapply owned_same; [| exact H]; reflexivity
      | ]
  end.

Lemma live_alter_endTrack_other (l : list Track) i j :
  i <> j -> (live <$> alter endTrack i l !! j) = (live <$> l !! j).
Proof. intros H. now rewrite list_lookup_alter_ne. Qed.

Lemma ownerView_stopServerTranscription w :
  ownerView (stopServerTranscription w) = ownerView w.
Proof. unfold stopServerTranscription. now cases. Qed.

Lemma ownerView_startTranscriptionRecorder r w :
  ownerView (startTranscriptionRecorder r w) = ownerView w.
Proof. unfold startTranscriptionRecorder. now cases. Qed.

Lemma ownerView_startServerTranscription r w :
  ownerView (startServerTranscription r w) = ownerView w.
Proof.
  unfold startServerTranscription. cbv zeta.
  pose proof (ownerView_startTranscriptionRecorder r
                (on_refs (upd_isTranscribingRef false) w)) as H.
  revert H. generalize (startTranscriptionRecorder r
                          (on_refs (upd_isTranscribingRef false) w)).
  intros w1 H. cbn. exact H.
Qed.

Lemma ownerView_cycle r w :
  ownerView (cycleTranscriptionRecorder r w) = ownerView w.
Proof.
  unfold cycleTranscriptionRecorder.
  cases; rewrite ?ownerView_startTranscriptionRecorder; reflexivity.
Qed.

Lemma ownerView_updateLevel d w : ownerView (updateLevel d w) = ownerView w.
Proof. unfold updateLevel. now cases. Qed.

Lemma ownerView_setupAudioVisualization d w :
  ownerView (setupAudioVisualization d w) = ownerView w.
Proof.
  unfold setupAudioVisualization. cbv zeta. rewrite ownerView_updateLevel.
  now cases.
Qed.

Lemma ownerView_stopArchiveRecorder w :
  ownerView (stopArchiveRecorder w) = ownerView w.
Proof. unfold stopArchiveRecorder. now cases. Qed.

Lemma ownerView_startArchiveRecorder s w :
  ownerView (startArchiveRecorder s w) = ownerView w.
Proof. unfold startArchiveRecorder. now cases. Qed.

Lemma live_alter_installOnended r i (l : list Track) :
  map live (alter (installOnended r) i l) = map live l.
Proof.
  revert i. induction l as [|t l IH]; intros [|i]; cbn; try easy.
  now rewrite IH.
Qed.

Lemma ownerView_installHandlers r s w :
  ownerView (installHandlers r s w) = ownerView w.
Proof.
  unfold ownerView, installHandlers. cbn. f_equal. f_equal.
  generalize (tracks (dom w)). induction s as [|i s IH]; intros l; cbn; [easy|].
  now rewrite IH, live_alter_installOnended.
Qed.

Lemma ownerView_togglePause r w : ownerView (togglePause r w) = ownerView w.
Proof.
  unfold togglePause. destruct (isPaused r); cbv zeta.
  - set (w1 := if recorderHasState _ _ _ then _ else w).
    assert (H1 : ownerView w1 = ownerView w) by (subst w1; now cases).
    pose proof (ownerView_startServerTranscription r w1) as H2.
    revert H2. generalize (startServerTranscription r w1). intros w2 H2.
    now rewrite <- H1, <- H2.
  - set (w1 := if recorderHasState _ _ _ then _ else w).
    assert (H1 : ownerView w1 = ownerView w) by (subst w1; now cases).
    pose proof (ownerView_stopServerTranscription w1) as H2.
    revert H2. generalize (stopServerTranscription w1). intros w2 H2.
    now rewrite <- H1, <- H2.
Qed.

Arguments savesInFlight : simpl never.
Arguments heldFrom : simpl never.
Arguments quietFrom : simpl never.

Lemma cleanup_quiet n w : heldFrom n w -> quietFrom n (dom (cleanup w)).
Proof.
  intros Hheld i Hi. apply not_true_false_of. intros Hlive.
  destruct (cleanup_spec w) as (_ & _ & _ & _ & Hstop & _ & _ & _ & _ & Hrel & _).
  destruct Hrel as (Hrel & _).
  destruct (Hheld i Hi (Hrel i Hlive)) as (s & Hs & His).
  rewrite (Hstop s i Hs His) in Hlive. discriminate.
Qed.

Lemma quiet_held n w : quietFrom n (dom w) -> heldFrom n w.
Proof. intros Hq i Hi Hl. rewrite (Hq i Hi) in Hl. discriminate. Qed.

Lemma savesInFlight_app l k :
  savesInFlight (l ++ [k]) =
  (savesInFlight l + if isStopCont k then 1 else 0)%nat.
Proof.
  unfold savesInFlight. rewrite filter_app, length_app. f_equal.
  destruct (isStopCont k) eqn:Hk.
  - now rewrite filter_cons_True.
  - rewrite filter_cons_False; [easy | congruence].
Qed.

Lemma savesInFlight_settle l h k :
  l !! h = Some k ->
  (savesInFlight l =
   savesInFlight (<[h := None]> l) + if isStopCont k then 1 else 0)%nat.
Proof.
  unfold savesInFlight. revert h.
  induction l as [|a l IH]; intros [|h] Hk; cbn in Hk; try discriminate.
  - injection Hk as ->.
    change (<[0%nat := None]> (k :: l)) with (None :: l).
    rewrite (filter_cons_False _ None) by (cbn; congruence).
    destruct (isStopCont k) eqn:Hs.
    + rewrite filter_cons_True by assumption. cbn [length]. lia.
    + rewrite filter_cons_False by congruence. lia.
  - change (<[S h := None]> (a :: l)) with (a :: <[h := None]> l).
    specialize (IH h Hk).
    destruct (isStopCont a) eqn:Ha.
    + rewrite !filter_cons_True by assumption. cbn [length]. lia.
    + rewrite !filter_cons_False by congruence. exact IH.
Qed.

Lemma owned_cleanup w :
  owned w -> owned (cleanup w) /\ quietFrom 0 (dom (cleanup w)).
Proof.
  intros (HA & HB & HC & HD & HE).
  pose proof (cleanup_quiet 0 w HA) as Hq.
  split; [|exact Hq]. unfold owned. rewrite cleanup_st, cleanup_net.
  split; [now apply quiet_held|]. split; [easy|]. split; [assumption|].
  split; [|assumption].
  intros Hn. destruct (HD Hn) as (? & ? & _). easy.
Qed.

Lemma owned_stopCapture_release w :
  owned w ->
  owned (stopCapture_release w) /\ quietFrom 0 (dom (stopCapture_release w)).
Proof.
  intros H. unfold stopCapture_release. apply owned_cleanup.
  eapply owned_same.
  { now rewrite ownerView_stopArchiveRecorder, ownerView_stopServerTranscription. }
  destruct H as (HA & HB & HC & HD & HE). unfold owned. cbn.
  split; [exact HA|]. split; [exact HB|]. split; [exact HC|].
  split; [|exact HE].
  intros Hn. destruct (HD Hn) as (_ & ? & ?). easy.
Qed.

Lemma owned_reset w :
  quietFrom 0 (dom w) -> savesInFlight (inflight (net w)) = 0%nat ->
  Forall (fun k => isStartCont k = false) (inflight (net w)) ->
  owned (stopCapture_reset w).
Proof.
  intros Hq Hn HE. unfold owned, stopCapture_reset. cbn. rewrite Hn.
  split; [now apply quiet_held|]. split; [easy|]. split; [lia|].
  split; [lia | exact HE].
Qed.

Lemma noStart_park l k :
  isStartCont (Some k) = false ->
  Forall (fun k => isStartCont k = false) l ->
  Forall (fun k => isStartCont k = false) (l ++ [Some k]).
Proof. intros Hk Hl. apply Forall_app. split; [assumption|]. now constructor. Qed.

Lemma noStart_settle l h :
  Forall (fun k => isStartCont k = false) l ->
  Forall (fun k => isStartCont k = false) (<[h := None]> l).
Proof. intros Hl. now apply Forall_insert. Qed.

(** A stop that starts a save sequence, or finishes on the spot. *)
Lemma owned_stopCapture clk r w :
  isCapturing (st w) = true ->
  savesInFlight (inflight (net w)) = 0%nat ->
  owned w -> owned (stopCapture clk r w).
Proof.
  intros Hcap Hn H. rewrite stopCapture_unfold.
  assert (HE : Forall (fun k => isStartCont k = false) (inflight (net w)))
    by apply H.
  destruct (owned_stopCapture_release w H) as (H1 & Hq).
  pose proof (stopCapture_release_st w) as Hst.
  pose proof (stopCapture_release_net w) as Hnet.
  revert H1 Hq Hst Hnet. generalize (stopCapture_release w).
  intros w1 H1 Hq Hst Hnet.
  unfold stopCapture_persist. destruct (truthy (meetingId r)).
  - unfold owned. cbn. rewrite Hnet, Hst, savesInFlight_app, Hn. cbn.
    split; [now apply quiet_held|]. split; [intros _; exact Hq|].
    split; [lia|]. split; [intros _; easy|]. now apply noStart_park.
  - apply owned_reset; [exact Hq | now rewrite Hnet | now rewrite Hnet].
Qed.

Lemma owned_stopCapture_resume clk k o h w :
  inflight (net w) !! h = Some (Some k) ->
  isStopCont (Some k) = true ->
  owned w -> owned (stopCapture_resume clk k o (settle h w)).
Proof.
  intros Hk Hstop (HA & HB & HC & HD & HE).
  pose proof (savesInFlight_settle _ _ _ Hk) as Hcount. rewrite Hstop in Hcount.
  destruct (HD ltac:(lia)) as (Hst & Hcap & Hq).
  assert (Hzero : savesInFlight (<[h := None]> (inflight (net w))) = 0%nat)
    by lia.
  pose proof (noStart_settle _ h HE) as HE'.
  unfold stopCapture_resume. destruct o as [e|resp].
  - unfold stopCapture_catch, owned. cbn. rewrite Hzero.
    split; [exact HA|]. split; [exact HB|]. split; [lia|].
    split; [lia | exact HE'].
  - destruct k; try discriminate.
    + unfold owned. cbn. rewrite savesInFlight_app, Hzero. cbn.
      split; [exact HA|]. split; [exact HB|]. split; [lia|].
      split; [easy | now apply noStart_park].
    + unfold owned. cbn. rewrite savesInFlight_app, Hzero. cbn.
      split; [exact HA|]. split; [exact HB|]. split; [lia|].
      split; [easy | now apply noStart_park].
    + apply owned_reset; [exact Hq | exact Hzero | exact HE'].
Qed.

(** Settling a continuation that does not belong to a save sequence. *)
Lemma owned_settle_other h k w :
  inflight (net w) !! h = Some (Some k) ->
  isStopCont (Some k) = false ->
  owned w -> owned (settle h w).
Proof.
  intros Hk Hstop (HA & HB & HC & HD & HE).
  pose proof (savesInFlight_settle _ _ _ Hk) as Hcount. rewrite Hstop in Hcount.
  unfold owned. cbn. rewrite <- plus_n_O in Hcount. rewrite <- Hcount.
  pose proof (noStart_settle _ h HE). easy.
Qed.

Lemma owned_park_other k w :
  isStopCont (Some k) = false -> isStartCont (Some k) = false ->
  owned w -> owned (park k w).
Proof.
  intros Hstop Hstart (HA & HB & HC & HD & HE). unfold owned. cbn.
  rewrite savesInFlight_app, Hstop, <- plus_n_O.
  pose proof (noStart_park _ k Hstart HE). easy.
Qed.

Lemma owned_afterRead r size readOk e w :
  owned w -> owned (completed (sendBlob_afterRead r size readOk e w)).
Proof.
  intros H. unfold sendBlob_afterRead.
  destruct readOk; cbn [completed sendBlob_handlers].
  - apply owned_park_other; [reflexivity..|]. peel_owned. assumption.
  - do 2 peel_owned. assumption.
Qed.

Lemma owned_afterReply clk r o w :
  owned w -> owned (completed (sendBlob_afterReply clk r o w)).
Proof.
  intros H. unfold sendBlob_afterReply.
  destruct (sendBlob_body_cases clk r o w)
    as [(s & _ & ->) | (_ & [-> | (e & ->)])];
    cbn [completed sendBlob_handlers]; repeat peel_owned; assumption.
Qed.

Lemma owned_sendBlob r size w :
  owned w -> owned (sendBlobForTranscription r size w).
Proof.
  intros H. unfold sendBlobForTranscription.
  destruct (_ || _); [assumption|]. destruct (size <? 1000); [assumption|].
  apply owned_park_other; [reflexivity..|]. peel_owned. assumption.
Qed.

Lemma owned_onstop rc w : owned w -> owned (onstop rc w).
Proof.
  intros H. unfold onstop.
  destruct (rec_role rc); [peel_owned; assumption|].
  destruct (rec_chunks rc); [assumption|]. now apply owned_sendBlob.
Qed.

Arguments liveWithin : simpl never.

Lemma newTracks_isLive ks b i :
  isLive (newTracks ks b).2 i =
  if decide (i < length (tracks b))%nat then isLive b i
  else bool_decide (i < length (tracks b) + length ks)%nat.
Proof.
  unfold isLive. cbn [newTracks snd tracks upd_tracks].
  destruct (decide (i < length (tracks b))%nat) as [Hlt|Hge].
  - now rewrite lookup_app_l.
  - rewrite lookup_app_r by lia.
    change (map ?f ks) with (f <$> ks). rewrite list_lookup_fmap.
    destruct (ks !! (i - length (tracks b))%nat) as [k|] eqn:Hk; cbn.
    + apply lookup_lt_Some in Hk. symmetry. apply bool_decide_eq_true_2. lia.
    + apply lookup_ge_None in Hk. symmetry. apply bool_decide_eq_false_2. lia.
Qed.

Lemma newTracks_stream ks b i :
  i ∈ (newTracks ks b).1 <->
  (length (tracks b) <= i < length (tracks b) + length ks)%nat.
Proof. cbn. apply elem_of_seq. Qed.

Lemma quiet_liveWithin n b : quietFrom n b <-> liveWithin n [] b.
Proof.
  split.
  - intros Hq i Hi Hl. rewrite (Hq i Hi) in Hl. discriminate.
  - intros Hl i Hi. apply not_true_false_of. intros H.
    now apply Hl, not_elem_of_nil in H.
Qed.

Lemma hasKind_total b i :
  isLive b i = true -> hasKind b KAudio i = true \/ hasKind b KVideo i = true.
Proof.
  unfold isLive, hasKind. destruct (tracks b !! i) as [t|]; [|easy].
  destruct (kind t); auto.
Qed.

(** The display prompt: on failure nothing new is live; on success the
    live tracks from [n] on are the audio tracks handed back. *)
Lemma captureSystemAudio_live n o w :
  quietFrom n (dom w) ->
  refs (captureSystemAudio o w).1 = refs w /\
  match (captureSystemAudio o w).2 with
  | inl e => quietFrom n (dom (captureSystemAudio o w).1)
  | inr sys => liveWithin n sys (dom (captureSystemAudio o w).1)
  end.
Proof.
  intros Hq. unfold captureSystemAudio.
  destruct o as [ks|e]; [|easy].
  pose proof (newTracks_isLive ks (dom w)) as Hlive.
  pose proof (newTracks_stream ks (dom w)) as Hstream.
  destruct (newTracks ks (dom w)) as [ds b] eqn:Hnew. cbn [fst snd] in *.
  assert (Hin : forall i, (n <= i)%nat -> isLive b i = true -> i ∈ ds).
  { intros i Hi Hl. rewrite Hlive in Hl. apply Hstream.
    destruct (decide _) as [Hlt|Hge].
    - rewrite (Hq i Hi) in Hl. discriminate.
    - apply bool_decide_eq_true_1 in Hl. lia. }
  destruct (getAudioTracks b ds) as [|a l] eqn:Haudio; cbn [fst snd].
  - split; [reflexivity|]. intros i Hi. cbn [dom on_dom].
    rewrite stopTracks_isLive. apply not_true_false_of.
    intros [Hl Hni]%andb_true_iff. apply Hin in Hl; [|assumption].
    apply negb_true_iff, bool_decide_eq_false_1 in Hni. contradiction.
  - split; [reflexivity|]. intros i Hi. cbn [dom on_dom].
    rewrite stopTracks_isLive. intros [Hl Hni]%andb_true_iff.
    apply negb_true_iff, bool_decide_eq_false_1 in Hni.
    rewrite <- Haudio. unfold getAudioTracks, getVideoTracks in *.
    apply list_elem_of_filter. split; [|now apply Hin].
    destruct (hasKind_total b i Hl) as [Ha|Hv]; [assumption|].
    exfalso. apply Hni. apply list_elem_of_filter. split; [assumption|].
    now apply Hin.
Qed.

Lemma captureMicAudio_live n s o w :
  liveWithin n s (dom w) ->
  refs (captureMicAudio o w).1 = refs w /\
  match (captureMicAudio o w).2 with
  | inl e => liveWithin n s (dom (captureMicAudio o w).1)
  | inr mic => liveWithin n (s ++ mic) (dom (captureMicAudio o w).1)
  end.
Proof.
  intros Hs. unfold captureMicAudio.
  destruct o as [|e]; [|easy].
  pose proof (newTracks_isLive [KAudio] (dom w)) as Hlive.
  pose proof (newTracks_stream [KAudio] (dom w)) as Hstream.
  destruct (newTracks [KAudio] (dom w)) as [mic b] eqn:Hnew.
  cbn [fst snd dom on_dom refs] in *. split; [reflexivity|].
  intros i Hi Hl. rewrite Hlive in Hl. apply elem_of_app.
  destruct (decide _) as [Hlt|Hge].
  - left. now apply Hs.
  - right. apply Hstream. apply bool_decide_eq_true_1 in Hl. lia.
Qed.

Lemma combineStreams_live n s w :
  liveWithin n s (dom w) ->
  systemStreamRef (refs (combineStreams w).1) = systemStreamRef (refs w) /\
  micStreamRef (refs (combineStreams w).1) = micStreamRef (refs w) /\
  liveWithin n (s ++ (combineStreams w).2) (dom (combineStreams w).1).
Proof.
  intros Hs. unfold combineStreams.
  destruct (newContext (dom w)) as [c b0] eqn:Hc.
  assert (Hb0 : tracks b0 = tracks (dom w)) by (now injection Hc as _ <-).
  pose proof (newTracks_isLive [KAudio] b0) as Hlive.
  pose proof (newTracks_stream [KAudio] b0) as Hstream.
  destruct (newTracks [KAudio] b0) as [comb b] eqn:Hnew.
  cbn [fst snd dom on_dom on_refs refs] in *.
  split; [reflexivity|]. split; [reflexivity|].
  intros i Hi Hl. rewrite Hlive in Hl. apply elem_of_app.
  destruct (decide _) as [Hlt|Hge].
  - left. apply Hs; [assumption|]. unfold isLive in *. now rewrite <- Hb0.
  - right. apply Hstream. apply bool_decide_eq_true_1 in Hl. lia.
Qed.

Lemma heldFrom_same n w w' :
  ownerView w' = ownerView w -> heldFrom n w -> heldFrom n w'.
Proof.
  unfold ownerView. intros [= _ _ E3 E4 E5 E6 _] H i Hi Hl.
  rewrite (isLive_same_live _ _ E6) in Hl.
  eapply heldBy_same; [..| apply (H i Hi Hl)]; assumption.
Qed.

Lemma ownerView_inflight w w' :
  ownerView w' = ownerView w -> inflight (net w') = inflight (net w).
Proof. unfold ownerView. now intros [= _ _ _ _ _ _ ->]. Qed.

Lemma ownerView_isCapturing w w' :
  ownerView w' = ownerView w -> isCapturing (st w') = isCapturing (st w).
Proof. unfold ownerView. now intros [= -> _ _ _ _ _ _]. Qed.

Lemma sessionView_meetingId w w' :
  sessionView w' = sessionView w -> meetingId (st w') = meetingId (st w).
Proof. unfold sessionView. now intros [= _ _ _ -> _ _]. Qed.

Lemma strTruthy_or_default (s d : jsstring) :
  d <> [] -> (if strTruthy s then s else d) <> [].
Proof. now destruct s. Qed.

(** The [catch] of [startCapture] releases whatever was acquired. *)
Lemma startCapture_catch_fails n e w0 w :
  isCapturing (st w) = isCapturing (st w0) ->
  meetingId (st w) = meetingId (st w0) ->
  heldFrom n w ->
  startFailed n w0 (startCapture_catch e w) /\
  inflight (net (startCapture_catch e w)) = inflight (net w).
Proof.
  intros Hcap Hmid Hheld. unfold startCapture_catch. cbv zeta.
  set (w1 := setStatus Idle _).
  assert (H1 : heldFrom n w1) by exact Hheld.
  pose proof (cleanup_quiet n w1 H1) as Hq.
  unfold startFailed. rewrite cleanup_st, cleanup_net.
  subst w1. cbn. split; [|reflexivity].
  split; [reflexivity|]. split; [assumption|]. split; [assumption|].
  split; [|exact Hq].
  now apply strTruthy_or_default.
Qed.

Lemma startCapture_begin_succeeds n r data s w :
  heldFrom n w ->
  startSucceeded n (startCapture_begin r data s w) /\
  inflight (net (startCapture_begin r data s w)) = inflight (net w).
Proof.
  intros Hheld. unfold startCapture_begin.
  set (w0 := on_refs (upd_activeStreamRef (Some s))
               (on_refs (upd_meetingIdRef (d_meeting_id data))
                  (setMeetingId (d_meeting_id data) w))).
  assert (H0 : heldFrom n w0) by exact Hheld.
  assert (N0 : inflight (net w0) = inflight (net w)) by reflexivity.
  pose proof (ownerView_startArchiveRecorder s w0) as E1.
  apply (heldFrom_same n) in E1 as H1; [|exact H0].
  assert (N1 : inflight (net (startArchiveRecorder s w0)) = inflight (net w))
    by (rewrite <- N0; now apply ownerView_inflight).
  clear E1. revert H1 N1. generalize (startArchiveRecorder s w0). intros w1 H1 N1.
  set (w2 := on_refs (upd_isCapturingRef true) (setIsCapturing true w1)).
  assert (H2 : heldFrom n w2) by exact H1.
  assert (N2 : inflight (net w2) = inflight (net w)) by exact N1.
  pose proof (ownerView_startServerTranscription r w2) as E3.
  apply (heldFrom_same n) in E3 as H3; [|exact H2].
  assert (N3 : inflight (net (startServerTranscription r w2)) = inflight (net w))
    by (rewrite <- N2; now apply ownerView_inflight).
  pose proof (startServerTranscription_st r w2) as S3.
  clear E3. revert H3 N3 S3. generalize (startServerTranscription r w2).
  intros w3 H3 N3 S3.
  split; [|exact N3]. unfold startSucceeded. cbn.
  split; [reflexivity|]. split; [now rewrite S3|]. exact H3.
Qed.

Lemma startCapture_outcome_or n w0 w' :
  startFailed n w0 w' -> startSucceeded n w' \/ startFailed n w0 w'.
Proof. now right. Qed.

Lemma startCapture_session_outcome n clk r o s w0 w :
  isCapturing (st w) = isCapturing (st w0) ->
  meetingId (st w) = meetingId (st w0) ->
  heldFrom n w ->
  (startSucceeded n (startCapture_session clk r o s w) \/
   startFailed n w0 (startCapture_session clk r o s w)) /\
  inflight (net (startCapture_session clk r o s w)) = inflight (net w).
Proof.
  intros Hcap Hmid Hheld. rewrite startCapture_session_unfold.
  destruct (getAudioTracks (dom w) s) as [|a l].
  { destruct (startCapture_catch_fails n
                (mkError "No audio stream available. Please ensure you selected a source with audio.")
                w0 w Hcap Hmid Hheld) as (Hf & Hn).
    split; [now right | exact Hn]. }
  set (w1 := request (startCall clk r)
               (setupAudioVisualization (so_level o)
                  (installHandlers r (a :: l) w))).
  assert (E1 : ownerView w1 = ownerView w).
  { subst w1.
    rewrite <- (ownerView_installHandlers r (a :: l) w).
    rewrite <- (ownerView_setupAudioVisualization (so_level o)
                  (installHandlers r (a :: l) w)).
    reflexivity. }
  assert (H1 : heldFrom n w1) by (now apply (heldFrom_same n w)).
  assert (C1 : isCapturing (st w1) = isCapturing (st w0) /\
               meetingId (st w1) = meetingId (st w0)).
  { rewrite (ownerView_isCapturing _ _ E1), <- Hmid. split; [assumption|].
    subst w1.
    change (meetingId (st (setupAudioVisualization (so_level o)
                             (installHandlers r (a :: l) w))) =
            meetingId (st (installHandlers r (a :: l) w))).
    apply sessionView_meetingId, sessionView_setupAudioVisualization. }
  assert (N1 : inflight (net w1) = inflight (net w))
    by (now apply ownerView_inflight).
  clearbody w1. destruct C1 as (C1 & M1). rewrite <- N1.
  unfold startCapture_reply.
  assert (Hfail : forall e,
            (startSucceeded n (startCapture_catch e w1) \/
             startFailed n w0 (startCapture_catch e w1)) /\
            inflight (net (startCapture_catch e w1)) = inflight (net w1)).
  { intros e. destruct (startCapture_catch_fails n e w0 w1 C1 M1 H1) as (Hf & Hn).
    split; [now right | exact Hn]. }
  destruct (so_reply o) as [e|resp]; [apply Hfail|].
  destruct (negb (resp_ok resp)); [apply Hfail|].
  destruct (resp_json resp) as [e|data]; [apply Hfail|].
  destruct (startCapture_begin_succeeds n r data s w1 H1) as (Hs & Hn).
  split; [now left | exact Hn].
Qed.

Lemma heldFrom_system n sys w :
  liveWithin n sys (dom w) ->
  heldFrom n (on_refs (upd_systemStreamRef (Some sys)) w).
Proof.
  intros H i Hi Hl. exists sys. split; [now left|]. now apply H.
Qed.

Lemma heldFrom_three n sys mic comb w :
  systemStreamRef (refs w) = Some sys ->
  micStreamRef (refs w) = Some mic ->
  liveWithin n ((sys ++ mic) ++ comb) (dom w) ->
  heldFrom n (on_refs (upd_combinedStreamRef (Some comb)) w).
Proof.
  intros Hsys Hmic H i Hi Hl. apply H in Hl; [|assumption].
  apply elem_of_app in Hl as [[Hl|Hl]%elem_of_app|Hl].
  - exists sys. split; [left; exact Hsys | assumption].
  - exists mic. split; [right; left; exact Hmic | assumption].
  - exists comb. split; [right; right; reflexivity | assumption].
Qed.

Lemma heldFrom_within n s w :
  systemStreamRef (refs w) = Some s -> liveWithin n s (dom w) -> heldFrom n w.
Proof.
  intros Hs H i Hi Hl. exists s. split; [now left|]. now apply H.
Qed.

(** [startCapture] from a world without live tracks (from [n] on): it
    ends capturing with every live track held, or idle with nothing
    live; it parks no continuation. *)
Lemma startCapture_outcome n clk r o w :
  quietFrom n (dom w) ->
  let w' := startCapture clk r o w in
  (startSucceeded n w' \/ startFailed n w w') /\
  inflight (net w') = inflight (net w).
Proof.
  intros Hq. cbv zeta. unfold startCapture. cbv zeta.
  set (w0 := setStatus Requesting (setError [] w)).
  assert (Hq0 : quietFrom n (dom w0)) by exact Hq.
  destruct (captureSystemAudio_live n (so_display o) w0 Hq0) as (R1 & L1).
  pose proof (captureSystemAudio_st (so_display o) w0) as S1.
  pose proof (captureSystemAudio_net (so_display o) w0) as N1.
  destruct (captureSystemAudio (so_display o) w0) as [w1 [e|sys]];
    cbn [fst snd] in *.
  { destruct (startCapture_catch_fails n e w w1) as (Hf & Hn).
    - now rewrite S1.
    - now rewrite S1.
    - now apply quiet_held.
    - split; [now right|]. now rewrite Hn, N1. }
  set (w2 := on_refs (upd_systemStreamRef (Some sys)) w1).
  assert (H2 : heldFrom n w2) by (now apply heldFrom_system).
  assert (C2 : isCapturing (st w2) = isCapturing (st w) /\
               meetingId (st w2) = meetingId (st w))
    by (subst w2; cbn; now rewrite S1).
  assert (N2 : inflight (net w2) = inflight (net w))
    by (subst w2; cbn; now rewrite N1).
  destruct C2 as (C2 & M2).
  assert (Hsession :
            (startSucceeded n (startCapture_session clk r o sys w2) \/
             startFailed n w (startCapture_session clk r o sys w2)) /\
            inflight (net (startCapture_session clk r o sys w2)) =
            inflight (net w)).
  { destruct (startCapture_session_outcome n clk r o sys w w2 C2 M2 H2)
      as (Ho & Hn). split; [exact Ho | now rewrite Hn]. }
  destruct (captureSource r); try exact Hsession. clear Hsession.
  assert (L2 : liveWithin n sys (dom w2)) by exact L1.
  destruct (captureMicAudio_live n sys (so_mic o) w2 L2) as (R3 & L3).
  pose proof (captureMicAudio_st (so_mic o) w2) as S3.
  pose proof (captureMicAudio_net (so_mic o) w2) as N3.
  destruct (captureMicAudio (so_mic o) w2) as [w3 [e|mic]]; cbn [fst snd] in *.
  { destruct (startCapture_catch_fails n e w w3) as (Hf & Hn).
    - now rewrite S3.
    - now rewrite S3.
    - apply (heldFrom_within n sys); [now rewrite R3 | exact L3].
    - split; [now right|]. now rewrite Hn, N3. }
  set (w4 := on_refs (upd_micStreamRef (Some mic)) w3).
  assert (L4 : liveWithin n (sys ++ mic) (dom w4)) by exact L3.
  destruct (combineStreams_live n (sys ++ mic) w4 L4) as (Rs & Rm & L5).
  assert (S5 : st (combineStreams w4).1 = st w4 /\
               net (combineStreams w4).1 = net w4)
    by (unfold combineStreams; now cbn).
  destruct (combineStreams w4) as [w5 comb]; cbn [fst snd] in *.
  destruct S5 as (S5 & N5).
  set (w6 := on_refs (upd_combinedStreamRef (Some comb)) w5).
  assert (H6 : heldFrom n w6).
  { apply (heldFrom_three n sys mic comb); [| |exact L5].
    - rewrite Rs. subst w4. cbn. now rewrite R3.
    - rewrite Rm. reflexivity. }
  destruct (startCapture_session_outcome n clk r o comb w w6) as (Ho & Hn).
  - subst w6 w4. cbn. rewrite S5. cbn. now rewrite S3.
  - subst w6 w4. cbn. rewrite S5. cbn. now rewrite S3.
  - exact H6.
  - split; [exact Ho|]. rewrite Hn. subst w6 w4. cbn. rewrite N5. cbn.
    now rewrite N3.
Qed.

Lemma owned_startCapture clk r o w :
  isCapturing (st w) = false -> owned w -> owned (startCapture clk r o w).
Proof.
  intros Hcap (HA & HB & HC & HD & HE).
  destruct (startCapture_outcome 0 clk r o w (HB Hcap)) as (Hout & Hn).
  revert Hout Hn. generalize (startCapture clk r o w). intros w' Hout Hn.
  assert (Hzero : savesInFlight (inflight (net w)) <> 1%nat).
  { intros H1. destruct (HD H1) as (_ & ? & _). congruence. }
  unfold owned. rewrite Hn.
  destruct Hout as [(Hs & Hc & Hh) | (Hs & Hc & _ & _ & Hq)].
  - split; [exact Hh|]. split; [congruence|]. split; [exact HC|].
    split; [contradiction | exact HE].
  - split; [now apply quiet_held|]. split; [intros _; exact Hq|].
    split; [exact HC|]. split; [contradiction | exact HE].
Qed.

Lemma owned_stopTrack t w : owned w -> owned (on_dom (stopTrack t) w).
Proof.
  intros (HA & HB & HC & HD & HE).
  assert (Hlive : forall i, isLive (stopTrack t (dom w)) i = true ->
                            isLive (dom w) i = true).
  { intros i. change (stopTrack t (dom w)) with (stopTracks [t] (dom w)).
    rewrite stopTracks_isLive. apply andb_true_l_of. }
  assert (Hquiet : quietFrom 0 (dom w) -> quietFrom 0 (stopTrack t (dom w))).
  { intros Hq i Hi. apply not_true_false_of. intros Hl%Hlive.
    rewrite (Hq i Hi) in Hl. discriminate. }
  unfold owned. cbn [st net dom on_dom].
  split; [|split; [|split; [exact HC|split; [|exact HE]]]].
  - intros i Hi Hl%Hlive. exact (HA i Hi Hl).
  - intros Hc. apply Hquiet, HB, Hc.
  - intros Hn. destruct (HD Hn) as (? & ? & Hq). auto.
Qed.

Lemma owned_not_saving w i :
  owned w -> isLive (dom w) i = true ->
  savesInFlight (inflight (net w)) = 0%nat.
Proof.
  intros (HA & HB & HC & HD & HE) Hl.
  destruct (savesInFlight (inflight (net w))) as [|[|n]] eqn:Hn; [easy| |lia].
  destruct (HD eq_refl) as (_ & _ & Hq). rewrite (Hq i) in Hl; [easy|lia].
Qed.

Lemma owned_step clk e w :
  monitorIdle w -> owned w -> owned (step clk e w).
Proof.
  intros Hmon H. destruct e; cbn [step].
  1-5: unfold formEdit; destruct (isCapturing (st w));
         [assumption|peel_owned; assumption].
  - destruct (startEnabled (st w)) eqn:Hen; [|assumption].
    apply owned_startCapture; [|assumption].
    unfold startEnabled in Hen. now destruct (isCapturing (st w)).
  - destruct (pauseEnabled (st w)) eqn:Hen; [|assumption].
    eapply owned_same; [apply ownerView_togglePause | assumption].
  - destruct (stopEnabled (st w)) eqn:Hen; [|assumption].
    unfold stopEnabled in Hen. apply andb_true_iff in Hen as [Hcap Hst].
    apply owned_stopCapture; [assumption| |assumption].
    destruct H as (_ & _ & HC & HD & _).
    destruct (savesInFlight (inflight (net w))) as [|[|n]] eqn:Hn; [easy| |lia].
    destruct (HD eq_refl) as (Hs & _). rewrite Hs in Hst. discriminate.
  - destruct (inflight (net w) !! h) as [[[]|]|] eqn:Hk; try assumption.
    apply owned_afterRead.
    apply (owned_settle_other h (KRead r blob)); [assumption|reflexivity|assumption].
  - destruct (inflight (net w) !! h) as [[k|]|] eqn:Hk; try assumption.
    assert (Hstart : isStartCont (Some k) = false).
    { destruct H as (_ & _ & _ & _ & HE). rewrite Forall_lookup in HE.
      exact (HE _ _ Hk). }
    destruct k; try discriminate; try assumption;
      try (apply owned_stopCapture_resume; [assumption|reflexivity|assumption]).
    apply owned_afterReply.
    apply (owned_settle_other h (KTranscribe r));
      [assumption|reflexivity|assumption].
  - destruct (intervals (dom w) !! t) as [i|]; [|assumption].
    destruct (int_active i); [|assumption].
    eapply owned_same; [apply ownerView_cycle | assumption].
  - destruct (ticker (dom w)); [peel_owned|]; assumption.
  - destruct (recorders (dom w) !! i) as [rc|]; [|assumption].
    destruct (rec_state rc); first [assumption | peel_owned; assumption].
  - destruct (recorders (dom w) !! i) as [rc|]; [|assumption].
    destruct (rec_stopQueued rc); [|assumption].
    apply owned_onstop. peel_owned. assumption.
  - destruct (tracks (dom w) !! t) as [tr|] eqn:Ht; [|assumption].
    destruct (live tr) eqn:Hlive; [|assumption]. cbv zeta.
    pose proof (owned_stopTrack t w H) as H1.
    destruct (onended tr) as [r|]; [|assumption].
    unfold onendedHandler.
    change (isCapturingRef (refs (on_dom (stopTrack t) w)))
      with (isCapturingRef (refs w)).
    destruct (isCapturingRef (refs w)) eqn:Href; [|assumption].
    apply owned_stopCapture; [|  |assumption].
    + destruct Hmon as (Hm & _). cbn. congruence.
    + cbn. apply (owned_not_saving w t); [assumption|].
      unfold isLive. now rewrite Ht.
  - destruct (frames (dom w) !! f) as [[]|] eqn:Hf; try assumption.
    eapply owned_same; [apply ownerView_updateLevel|].
    peel_owned. assumption.
  - unfold commit. peel_owned. assumption.
Qed.

Lemma ownership_invariant w : reachable w -> owned w.
Proof.
  induction 1 as [encoder|clk e w Hw IH].
  - unfold owned. cbn.
    split; [intros i _ Hl; now destruct i|].
    split; [intros _ i _; now destruct i|].
    split; [unfold savesInFlight; cbn; lia|].
    split; [unfold savesInFlight; cbn; lia | constructor].
  - apply owned_step; [now apply monitor_never_runs | assumption].
Qed.

(** X15. [startCapture] either ends capturing, and then every track it
    left live is held by one of the three stream refs (so that a later
    [cleanup] ends it), or it ends idle with a message shown, the
    capture flag and meeting id as they were, and every track it
    acquired ended, whichever step failed: the share prompt, the
    microphone prompt or the backend.  In both cases nothing is left
    pending. *)
Theorem start_succeeds_or_releases clk r o w :
  let n := length (tracks (dom w)) in
  let w' := startCapture clk r o w in
  inflight (net w') = inflight (net w) /\
  ((status (st w') = Capturing /\ isCapturing (st w') = true /\
    forall i, (n <= i)%nat -> isLive (dom w') i = true -> heldBy w' i) \/
   (status (st w') = Idle /\ isCapturing (st w') = isCapturing (st w) /\
    meetingId (st w') = meetingId (st w) /\ error (st w') <> [] /\
    forall i, (n <= i)%nat -> isLive (dom w') i = false)).
Proof.
  cbv zeta.
  assert (Hq : quietFrom (length (tracks (dom w))) (dom w)).
  { intros i Hi. unfold isLive. now rewrite lookup_ge_None_2. }
  destruct (startCapture_outcome _ clk r o w Hq) as (Hout & Hn).
  split; [exact Hn|]. destruct Hout as [Hs | Hf]; [left | right]; assumption.
Qed.



(** ** A successful start *)

Lemma startArchiveRecorder_keeps s w :
  st (startArchiveRecorder s w) = st w /\
  meetingIdRef (refs (startArchiveRecorder s w)) = meetingIdRef (refs w) /\
  isCapturingRef (refs (startArchiveRecorder s w)) = isCapturingRef (refs w) /\
  systemStreamRef (refs (startArchiveRecorder s w)) = systemStreamRef (refs w) /\
  activeStreamRef (refs (startArchiveRecorder s w)) = activeStreamRef (refs w) /\
  intervals (dom (startArchiveRecorder s w)) = intervals (dom w) /\
  tracks (dom (startArchiveRecorder s w)) = tracks (dom w).
Proof. unfold startArchiveRecorder. now destruct (canRecord _ _). Qed.

Lemma startTranscriptionRecorder_keeps r w :
  meetingIdRef (refs (startTranscriptionRecorder r w)) = meetingIdRef (refs w) /\
  systemStreamRef (refs (startTranscriptionRecorder r w)) =
    systemStreamRef (refs w) /\
  activeStreamRef (refs (startTranscriptionRecorder r w)) =
    activeStreamRef (refs w) /\
  tracks (dom (startTranscriptionRecorder r w)) = tracks (dom w).
Proof. unfold startTranscriptionRecorder. now cases. Qed.

(** [startServerTranscription] schedules a fresh ten-second timer and
    designates it by [transcriptionTimerRef]. *)
Lemma startServerTranscription_timer r w :
  let w' := startServerTranscription r w in
  transcriptionTimerRef (refs w') = Some (length (intervals (dom w))) /\
  intervals (dom w') =
    intervals (dom w) ++
    [{| int_active := true; int_period := 10000; int_closure := r |}] /\
  meetingIdRef (refs w') = meetingIdRef (refs w) /\
  isCapturingRef (refs w') = isCapturingRef (refs w) /\
  systemStreamRef (refs w') = systemStreamRef (refs w) /\
  activeStreamRef (refs w') = activeStreamRef (refs w) /\
  tracks (dom w') = tracks (dom w).
Proof.
  cbv zeta. unfold startServerTranscription. cbv zeta.
  pose proof (startTranscriptionRecorder_intervals r
                (on_refs (upd_isTranscribingRef false) w)) as Hi.
  destruct (startTranscriptionRecorder_flags r
              (on_refs (upd_isTranscribingRef false) w)) as (Hc & _).
  destruct (startTranscriptionRecorder_keeps r
              (on_refs (upd_isTranscribingRef false) w)) as (Hm & Hs & Ha & Ht).
  revert Hi Hc Hm Hs Ha Ht.
  generalize (startTranscriptionRecorder r
                (on_refs (upd_isTranscribingRef false) w)).
  intros w1 Hi Hc Hm Hs Ha Ht. cbn. rewrite Hi, Hc, Hm, Hs, Ha, Ht. easy.
Qed.

Lemma startCapture_begin_spec r data s w :
  let w' := startCapture_begin r data s w in
  st w' =
    upd_status Capturing
      (upd_liveTranscript []
         (upd_recordingTime 0
            (upd_isPaused false
               (upd_isCapturing true
                  (upd_meetingId (d_meeting_id data) (st w)))))) /\
  meetingIdRef (refs w') = d_meeting_id data /\
  isCapturingRef (refs w') = true /\
  activeStreamRef (refs w') = Some s /\
  systemStreamRef (refs w') = systemStreamRef (refs w) /\
  tracks (dom w') = tracks (dom w) /\
  net w' = net w /\
  exists t,
    transcriptionTimerRef (refs w') = Some t /\
    intervals (dom w') !! t =
      Some {| int_active := true; int_period := 10000; int_closure := r |}.
Proof.
  cbv zeta. unfold startCapture_begin.
  set (w0 := on_refs (upd_activeStreamRef (Some s))
               (on_refs (upd_meetingIdRef (d_meeting_id data))
                  (setMeetingId (d_meeting_id data) w))).
  destruct (startArchiveRecorder_keeps s w0) as (A1 & A2 & A3 & A4 & A5 & A6 & A7).
  pose proof (startArchiveRecorder_net s w0) as A8.
  revert A1 A2 A3 A4 A5 A6 A7 A8. generalize (startArchiveRecorder s w0).
  intros w1 A1 A2 A3 A4 A5 A6 A7 A8.
  set (w2 := on_refs (upd_isCapturingRef true) (setIsCapturing true w1)).
  destruct (startServerTranscription_timer r w2)
    as (T1 & T2 & T3 & T4 & T5 & T6 & T7).
  pose proof (startServerTranscription_st r w2) as T8.
  pose proof (startServerTranscription_net r w2) as T9.
  revert T1 T2 T3 T4 T5 T6 T7 T8 T9. generalize (startServerTranscription r w2).
  intros w3 T1 T2 T3 T4 T5 T6 T7 T8 T9. cbn.
  rewrite T3, T4, T5, T6, T7, T8, T9. subst w2. cbn.
  rewrite A1, A2, A4, A5, A7, A8. subst w0. cbn.
  repeat (split; [reflexivity|]).
  exists (length (intervals (dom w1))). rewrite T1, T2. split; [reflexivity|].
  cbn. now apply list_lookup_middle.
Qed.

Lemma setupAudioVisualization_idle d w :
  isCapturingRef (refs w) = false ->
  st (setupAudioVisualization d w) = st w /\
  net (setupAudioVisualization d w) = net w /\
  tracks (dom (setupAudioVisualization d w)) = tracks (dom w) /\
  systemStreamRef (refs (setupAudioVisualization d w)) =
    systemStreamRef (refs w).
Proof.
  intros Hidle. unfold setupAudioVisualization. cbv zeta.
  rewrite updateLevel_idle by (now destruct (audioContextRef (refs w))).
  now destruct (audioContextRef (refs w)).
Qed.

Lemma hasKind_stopTracks s b k i :
  hasKind (stopTracks s b) k i = hasKind b k i.
Proof.
  unfold hasKind. rewrite stopTracks_lookup.
  destruct (bool_decide _); destruct (tracks b !! i); reflexivity.
Qed.

Lemma getAudioTracks_stopTracks s b l :
  getAudioTracks (stopTracks s b) l = getAudioTracks b l.
Proof.
  unfold getAudioTracks. apply list_filter_iff. intros i.
  now rewrite hasKind_stopTracks.
Qed.

Lemma getAudioTracks_idem b l :
  getAudioTracks b (getAudioTracks b l) = getAudioTracks b l.
Proof.
  unfold getAudioTracks.
  apply (list_filter_filter_l (fun i => hasKind b KAudio i = true)
           (fun i => hasKind b KAudio i = true)).
  auto.
Qed.

Lemma newTracks_audio ks b k :
  ks !! k = Some KAudio ->
  (length (tracks b) + k)%nat ∈
    getAudioTracks (newTracks ks b).2 (newTracks ks b).1.
Proof.
  intros Hk. unfold getAudioTracks. apply list_elem_of_filter. split.
  - unfold hasKind. rewrite newTracks_lookup, Hk. reflexivity.
  - apply newTracks_stream. apply lookup_lt_Some in Hk. lia.
Qed.

(** X17. A start that goes well.  From a page whose capture flag is
    clear, with a share that carries at least one audio track, system or
    tab as the source and a backend that opens the meeting: the page is
    capturing, not paused, at 0:00, with an empty transcript and no
    error; the meeting id of the reply is in the state and in the ref;
    exactly one request was issued, POST /recording/start with the
    title and the language of the click; the stream refs hold the audio
    tracks of the share; and the ten-second cycle timer is scheduled. *)
Theorem start_success clk r o w ks k resp data :
  isCapturingRef (refs w) = false ->
  captureSource r <> SrcMicSystem ->
  so_display o = DisplayGranted ks ->
  ks !! k = Some KAudio ->
  so_reply o = Resolved resp ->
  resp_ok resp = true ->
  resp_json resp = inr data ->
  let w' := startCapture clk r o w in
  st w' =
    upd_status Capturing
      (upd_liveTranscript []
         (upd_recordingTime 0
            (upd_isPaused false
               (upd_isCapturing true
                  (upd_meetingId (d_meeting_id data)
                     (upd_status Requesting (upd_error [] (st w)))))))) /\
  meetingIdRef (refs w') = d_meeting_id data /\
  isCapturingRef (refs w') = true /\
  calls (net w') = calls (net w) ++ [startCall clk r] /\
  inflight (net w') = inflight (net w) /\
  (exists sys,
     systemStreamRef (refs w') = Some sys /\
     activeStreamRef (refs w') = Some sys /\
     (length (tracks (dom w)) + k)%nat ∈ sys) /\
  (exists t,
     transcriptionTimerRef (refs w') = Some t /\
     intervals (dom w') !! t =
       Some {| int_active := true; int_period := 10000; int_closure := r |}).
Proof.
  intros Hidle Hsrc Hdisp Hk Hreply Hok Hjson. cbv zeta.
  unfold startCapture. cbv zeta. rewrite Hdisp.
  set (w0 := setStatus Requesting (setError [] w)).
  unfold captureSystemAudio.
  pose proof (newTracks_audio ks (dom w0) k Hk) as Hin.
  destruct (newTracks ks (dom w0)) as [ds b] eqn:Hnew. cbn [fst snd] in Hin.
  destruct (getAudioTracks b ds) as [|a l] eqn:Haudio;
    [now apply not_elem_of_nil in Hin|].
  set (sys := a :: l) in *.
  set (w2 := on_refs (upd_systemStreamRef (Some sys))
               (on_dom (fun _ => stopTracks (getVideoTracks b ds) b) w0)).
  assert (Hsession :
            let w' := startCapture_session clk r o sys w2 in
            st w' =
              upd_status Capturing
                (upd_liveTranscript []
                   (upd_recordingTime 0
                      (upd_isPaused false
                         (upd_isCapturing true
                            (upd_meetingId (d_meeting_id data) (st w0)))))) /\
            meetingIdRef (refs w') = d_meeting_id data /\
            isCapturingRef (refs w') = true /\
            calls (net w') = calls (net w0) ++ [startCall clk r] /\
            inflight (net w') = inflight (net w0) /\
            (exists sys',
               systemStreamRef (refs w') = Some sys' /\
               activeStreamRef (refs w') = Some sys' /\
               (length (tracks (dom w)) + k)%nat ∈ sys') /\
            (exists t,
               transcriptionTimerRef (refs w') = Some t /\
               intervals (dom w') !! t =
                 Some {| int_active := true; int_period := 10000;
                         int_closure := r |})).
  { cbv zeta. rewrite startCapture_session_unfold.
    assert (Hsame : getAudioTracks (dom w2) sys = sys).
    { subst w2. cbn [dom on_refs on_dom].
      rewrite getAudioTracks_stopTracks. subst sys. rewrite <- Haudio.
      apply getAudioTracks_idem. }
    rewrite Hsame. subst sys. cbv beta iota.
    set (w3 := installHandlers r (a :: l) w2).
    assert (Hidle3 : isCapturingRef (refs w3) = false) by exact Hidle.
    destruct (setupAudioVisualization_idle (so_level o) w3 Hidle3)
      as (V1 & V2 & V3 & V4).
    revert V1 V2 V3 V4. generalize (setupAudioVisualization (so_level o) w3).
    intros w4 V1 V2 V3 V4.
    unfold startCapture_reply. rewrite Hreply, Hok, Hjson. cbn [negb].
    destruct (startCapture_begin_spec r data (a :: l)
                (request (startCall clk r) w4))
      as (B1 & B2 & B3 & B4 & B5 & B6 & B7 & B8).
    revert B1 B2 B3 B4 B5 B6 B7 B8.
    generalize (startCapture_begin r data (a :: l)
                  (request (startCall clk r) w4)).
    intros w5 B1 B2 B3 B4 B5 B6 B7 B8.
    rewrite B1, B2, B3, B7. cbn. rewrite V1, V2. 
    repeat (split; [reflexivity|]).
    split; [|exact B8].
    exists (a :: l). rewrite B4, B5. cbn. rewrite V4.
    repeat split. exact Hin. }
  destruct (captureSource r); [exact Hsession | exact Hsession | congruence].
Qed.

Lemma start_success_witness :
  let w := step (clockAt 0) (SetMeetingTitle (js "Standup")) (initial true) in
  let o := systemShare [KVideo; KAudio] (JNum 7) in
  let w' := startCapture (clockAt 1) (st w) o w in
  isCapturingRef (refs w) = false /\
  captureSource (st w) <> SrcMicSystem /\
  meetingId (st w') = JNum 7 /\
  status (st w') = Capturing /\
  calls (net w') = calls (net w) ++ [startCall (clockAt 1) (st w)].
Proof.
  intros w o w'.
  assert (Hidle : isCapturingRef (refs w) = false) by reflexivity.
  assert (Hsrc : captureSource (st w) <> SrcMicSystem) by discriminate.
  split; [exact Hidle|]. split; [exact Hsrc|].
  destruct (start_success (clockAt 1) (st w) o w [KVideo; KAudio] 1%nat
              {| resp_ok := true;
                 resp_json := inr {| d_text := JUndefined;
                                     d_meeting_id := JNum 7 |} |}
              {| d_text := JUndefined; d_meeting_id := JNum 7 |}
              Hidle Hsrc eq_refl eq_refl eq_refl eq_refl eq_refl)
    as (Hst & _ & _ & Hcalls & _).
  split; [exact (f_equal meetingId Hst)|].
  split; [exact (f_equal status Hst) | exact Hcalls].
Defined.

(** ** Pause and resume *)

Lemma stopServerTranscription_keeps w :
  tracks (dom (stopServerTranscription w)) = tracks (dom w) /\
  forall j, transcriptionRecorderRef (refs w) <> Some j ->
            recorders (dom (stopServerTranscription w)) !! j =
            recorders (dom w) !! j.
Proof.
  rewrite stopServerTranscription_stages. unfold stopCycleRecorder, cleanup_timer.
  split.
  - now cases.
  - intros j Hj. cases; try reflexivity;
      apply list_lookup_alter_ne; congruence.
Qed.

Lemma recorderHasState_lookup b j s rc :
  recorders b !! j = Some rc -> rec_state rc = s ->
  recorderHasState b (Some j) s = true.
Proof. unfold recorderHasState. intros -> ->. now destruct s. Qed.

Lemma recorderHasState_inv b ref s :
  recorderHasState b ref s = true ->
  exists j rc, ref = Some j /\ recorders b !! j = Some rc /\ rec_state rc = s.
Proof.
  unfold recorderHasState. destruct ref as [j|]; [|easy].
  destruct (recorders b !! j) as [rc|] eqn:Hj; [|easy].
  intros H. exists j, rc. split; [reflexivity|]. split; [exact Hj|].
  revert H. destruct (rec_state rc), s; cbn; congruence.
Qed.

Lemma pause_steps w :
  isCapturing (st w) = true -> isPaused (st w) = false ->
  forall clk,
    step clk ClickPause w =
    commit
      (setIsPaused true
         (stopServerTranscription
            (if recorderHasState (dom w) (mediaRecorderRef (refs w)) Recording
             then match mediaRecorderRef (refs w) with
                  | Some i => on_dom (recorderPause i) w
                  | None => w
                  end
             else w))).
Proof.
  intros Hcap Hp clk. cbn [step]. unfold pauseEnabled, togglePause.
  now rewrite Hcap, Hp.
Qed.

(** X18. Pausing a running capture: the page is marked paused; the
    cycle timer is cleared and the cycling recorder stopped (which
    queues its stop event, so its segment is flushed), and both refs
    are null; an archive recorder that was recording is paused; the
    tracks stay as they are and nothing is sent; the elapsed-time
    counter stands still from then on. *)
Theorem pause_releases_the_cycle clk w :
  isCapturing (st w) = true ->
  isPaused (st w) = false ->
  let w' := step clk ClickPause w in
  isPaused (st w') = true /\
  transcriptionTimerRef (refs w') = None /\
  timerActive (dom w') (transcriptionTimerRef (refs w)) = false /\
  transcriptionRecorderRef (refs w') = None /\
  recorderActive (dom w') (transcriptionRecorderRef (refs w)) = false /\
  (mediaRecorderRef (refs w) <> transcriptionRecorderRef (refs w) ->
   recorderHasState (dom w) (mediaRecorderRef (refs w)) Recording = true ->
   recorderHasState (dom w') (mediaRecorderRef (refs w')) Paused = true) /\
  tracks (dom w') = tracks (dom w) /\
  net w' = net w /\
  (forall clk', recordingTime (st (step clk' SecondElapsed w')) =
                recordingTime (st w)).
Proof.
  intros Hcap Hp. cbv zeta. rewrite (pause_steps w Hcap Hp).
  set (w1 := if recorderHasState _ _ _ then _ else w).
  assert (H1 : st w1 = st w /\ refs w1 = refs w /\ net w1 = net w /\
               tracks (dom w1) = tracks (dom w) /\
               intervals (dom w1) = intervals (dom w))
    by (subst w1; destruct (recorderHasState _ _ _);
        [destruct (mediaRecorderRef (refs w))|]; easy).
  destruct H1 as (S1 & R1 & N1 & T1 & I1).
  assert (Hrec : recorderHasState (dom w) (mediaRecorderRef (refs w)) Recording
                 = true ->
                 recorderHasState (dom w1) (mediaRecorderRef (refs w)) Paused
                 = true).
  { intros Hrec. subst w1. rewrite Hrec.
    destruct (recorderHasState_inv _ _ _ Hrec) as (j & rc & -> & Hj & _).
    eapply recorderHasState_lookup.
    - cbn. rewrite list_lookup_alter_eq, Hj. reflexivity.
    - reflexivity. }
  destruct (stopServerTranscription_spec w1)
    as (_ & P1 & P2 & P3 & P4 & _ & _ & _ & P5 & _).
  destruct (stopServerTranscription_keeps w1) as (K1 & K2).
  pose proof (stopServerTranscription_st w1) as K3.
  pose proof (stopServerTranscription_net w1) as K4.
  rewrite R1 in *. clearbody w1.
  revert P1 P2 P3 P4 P5 K1 K2 K3 K4. generalize (stopServerTranscription w1).
  intros w2 P1 P2 P3 P4 P5 K1 K2 K3 K4. cbn.
  rewrite K3, K4, S1, N1, K1, T1, P5.
  split; [reflexivity|]. split; [assumption|]. split; [assumption|].
  split; [assumption|]. split; [assumption|].
  split; [|split; [reflexivity|split; [reflexivity|]]].
  - intros Hne Hrec0. specialize (Hrec Hrec0).
    destruct (recorderHasState_inv _ _ _ Hrec) as (j & rc & Hj & Hl & Hs).
    rewrite Hj in *. eapply recorderHasState_lookup; [|exact Hs].
    rewrite K2; [exact Hl | congruence].
  - intros clk'. rewrite Hcap. cbn. now rewrite K3, S1.
Qed.

Lemma pause_releases_the_cycle_witness :
  let w := standup true in
  let w' := step (clockAt 4000) ClickPause w in
  isCapturing (st w) = true /\ isPaused (st w) = false /\
  isPaused (st w') = true /\
  transcriptionTimerRef (refs w') = None /\
  timerActive (dom w') (transcriptionTimerRef (refs w)) = false /\
  map rec_state (recorders (dom w')) = [Paused; Inactive].
Proof.
  intros w w'.
  assert (Hcap : isCapturing (st w) = true) by (vm_compute; reflexivity).
  assert (Hp : isPaused (st w) = false) by (vm_compute; reflexivity).
  split; [exact Hcap|]. split; [exact Hp|].
  destruct (pause_releases_the_cycle (clockAt 4000) w Hcap Hp)
    as (H1 & H2 & H3 & _).
  split; [exact H1|]. split; [exact H2|]. split; [exact H3|].
  vm_compute. reflexivity.
Defined.

Lemma startServerTranscription_archive r w :
  mediaRecorderRef (refs (startServerTranscription r w)) =
    mediaRecorderRef (refs w) /\
  forall j rc, recorders (dom w) !! j = Some rc ->
               recorders (dom (startServerTranscription r w)) !! j = Some rc.
Proof.
  unfold startServerTranscription. cbv zeta.
  set (w0 := on_refs (upd_isTranscribingRef false) w).
  pose proof (startTranscriptionRecorder_recorders r w0) as Hrec.
  assert (Href : mediaRecorderRef (refs (startTranscriptionRecorder r w0)) =
                 mediaRecorderRef (refs w))
    by (unfold startTranscriptionRecorder; now cases).
  revert Hrec Href. generalize (startTranscriptionRecorder r w0).
  intros w1 Hrec Href. cbn. split; [exact Href|].
  intros j rc Hj. rewrite Hrec. destruct (encoderCreatable w0); [|exact Hj].
  now apply lookup_app_l_Some.
Qed.

Lemma resume_steps w :
  isCapturing (st w) = true -> isPaused (st w) = true ->
  forall clk,
    step clk ClickPause w =
    commit
      (setIsPaused false
         (startServerTranscription (st w)
            (if recorderHasState (dom w) (mediaRecorderRef (refs w)) Paused
             then match mediaRecorderRef (refs w) with
                  | Some i => on_dom (recorderResume i) w
                  | None => w
                  end
             else w))).
Proof.
  intros Hcap Hp clk. cbn [step]. unfold pauseEnabled, togglePause.
  now rewrite Hcap, Hp.
Qed.

(** X19. Resuming a paused capture: the page is no longer paused; a
    fresh ten-second cycle timer, closing over the render of the click,
    is scheduled and [transcriptionTimerRef] designates it, while the
    timers that existed are left as they were (none is cleared); an
    archive recorder that was paused is recording again; the tracks are
    untouched and nothing is sent. *)
Theorem resume_restarts_the_cycle clk w :
  isCapturing (st w) = true ->
  isPaused (st w) = true ->
  let w' := step clk ClickPause w in
  isPaused (st w') = false /\
  transcriptionTimerRef (refs w') = Some (length (intervals (dom w))) /\
  intervals (dom w') =
    intervals (dom w) ++
    [{| int_active := true; int_period := 10000; int_closure := st w |}] /\
  (recorderHasState (dom w) (mediaRecorderRef (refs w)) Paused = true ->
   recorderHasState (dom w') (mediaRecorderRef (refs w')) Recording = true) /\
  tracks (dom w') = tracks (dom w) /\
  net w' = net w.
Proof.
  intros Hcap Hp. cbv zeta. rewrite (resume_steps w Hcap Hp).
  set (w1 := if recorderHasState _ _ _ then _ else w).
  assert (H1 : st w1 = st w /\ refs w1 = refs w /\ net w1 = net w /\
               tracks (dom w1) = tracks (dom w) /\
               intervals (dom w1) = intervals (dom w))
    by (subst w1; destruct (recorderHasState _ _ _);
        [destruct (mediaRecorderRef (refs w))|]; easy).
  destruct H1 as (S1 & R1 & N1 & T1 & I1).
  assert (Hrec : recorderHasState (dom w) (mediaRecorderRef (refs w)) Paused
                 = true ->
                 recorderHasState (dom w1) (mediaRecorderRef (refs w)) Recording
                 = true).
  { intros Hrec. subst w1. rewrite Hrec.
    destruct (recorderHasState_inv _ _ _ Hrec) as (j & rc & -> & Hj & _).
    eapply recorderHasState_lookup.
    - cbn. rewrite list_lookup_alter_eq, Hj. reflexivity.
    - reflexivity. }
  destruct (startServerTranscription_timer (st w) w1)
    as (P1 & P2 & _ & _ & _ & _ & P3).
  destruct (startServerTranscription_archive (st w) w1) as (K1 & K2).
  pose proof (startServerTranscription_st (st w) w1) as K3.
  pose proof (startServerTranscription_net (st w) w1) as K4.
  rewrite R1, I1 in *. clearbody w1.
  revert P1 P2 P3 K1 K2 K3 K4. generalize (startServerTranscription (st w) w1).
  intros w2 P1 P2 P3 K1 K2 K3 K4. cbn.
  rewrite K4, N1, P3, T1, K1.
  split; [reflexivity|]. split; [assumption|]. split; [assumption|].
  split; [|split; reflexivity].
  intros Hrec0. specialize (Hrec Hrec0).
  destruct (recorderHasState_inv _ _ _ Hrec) as (j & rc & Hj & Hl & Hs).
  rewrite Hj. eapply recorderHasState_lookup; [|exact Hs].
  now apply K2.
Qed.

Lemma resume_restarts_the_cycle_witness :
  let w := step (clockAt 4000) ClickPause (standup true) in
  let w' := step (clockAt 6000) ClickPause w in
  isCapturing (st w) = true /\ isPaused (st w) = true /\
  isPaused (st w') = false /\
  transcriptionTimerRef (refs w') = Some 1%nat /\
  map int_active (intervals (dom w')) = [false; true].
Proof.
  intros w w'.
  assert (Hcap : isCapturing (st w) = true) by (vm_compute; reflexivity).
  assert (Hp : isPaused (st w) = true) by (vm_compute; reflexivity).
  split; [exact Hcap|]. split; [exact Hp|].
  destruct (resume_restarts_the_cycle (clockAt 6000) w Hcap Hp)
    as (H1 & H2 & H3 & _).
  split; [exact H1|]. split; [exact H2|].
  unfold w'. rewrite H3. vm_compute. reflexivity.
Defined.

(** ** A refused share prompt *)

Lemma cleanup_length w :
  length (tracks (dom (cleanup w))) = length (tracks (dom w)).
Proof.
  cleanup_steps (fun w' => length (tracks (dom w')) = length (tracks (dom w))) w;
    rewrite ?stopTracks_length; first [assumption | reflexivity].
Qed.

(** X20. When the share prompt fails, [startCapture] issues no request
    and acquires nothing: the page is idle and shows a message.  A
    [NotAllowedError] (the user dismissed the prompt) is replaced by the
    screen-sharing-was-cancelled error; any other error is passed on and
    its message shown, or the capture-failed message when it has none.
    The error is logged once; state other than [error] and [status],
    the request log and the tracks' count are as before. *)
Theorem refused_prompt_is_reported clk r o w e :
  so_display o = DisplayFailed e ->
  let w' := startCapture clk r o w in
  let shown := if bool_decide (err_name e = js "NotAllowedError")
               then cancelledError else e in
  error (st w') =
    (if strTruthy (err_message shown) then err_message shown
     else captureFailedMessage) /\
  error (st w') <> [] /\
  status (st w') = Idle /\
  consoleErrors (obs w') = consoleErrors (obs w) ++ [shown] /\
  st w' = upd_status Idle (upd_error (error (st w')) (st w)) /\
  net w' = net w /\
  length (tracks (dom w')) = length (tracks (dom w)) /\
  (forall i, isLive (dom w') i = true -> isLive (dom w) i = true).
Proof.
  intros Hdisp. cbv zeta. unfold startCapture. cbv zeta. rewrite Hdisp.
  unfold captureSystemAudio, captureSystemAudio_catch.
  set (shown := if bool_decide _ then cancelledError else e).
  unfold startCapture_catch. cbv zeta.
  set (w1 := setStatus Idle _).
  rewrite cleanup_st, cleanup_net, cleanup_obs, cleanup_length.
  split; [reflexivity|].
  split; [subst w1; cbn; apply strTruthy_or_default; discriminate|].
  split; [reflexivity|]. split; [reflexivity|]. split; [reflexivity|].
  split; [reflexivity|]. split; [reflexivity|].
  intros i H. exact (cleanup_isLive w1 i H).
Qed.

Lemma refused_prompt_is_reported_witness :
  let w := step (clockAt 0) (SetMeetingTitle (js "Standup")) (initial true) in
  let e := {| err_name := js "NotAllowedError";
              err_message := js "Permission denied" |} in
  let o := {| so_display := DisplayFailed e; so_mic := MicGranted;
              so_reply := replyOk (JNum 7) JUndefined; so_level := [] |} in
  let w' := step (clockAt 1) (ClickStart o) w in
  so_display o = DisplayFailed e /\
  error (st w') = err_message cancelledError /\
  net w' = net w.
Proof.
  intros w e o w'. split; [reflexivity|].
  destruct (refused_prompt_is_reported (clockAt 1) (st w) o w e eq_refl)
    as (Herr & _ & _ & _ & _ & Hnet & _).
  split; [exact Herr | exact Hnet].
Defined.

(** ** The removal of the page *)

Lemma alive_reachable l :
  alive l ->
  match l with
  | Mounted w | Leaving w => reachable w
  | Gone _ => True
  end.
Proof.
  induction 1 as [encoder|clk e l _ IH]; [apply reachable_initial|].
  destruct l as [w|w|w]; cbn [live_step].
  - destruct e as [e|]; [|exact I]. cbv zeta.
    destruct (handedOver (step clk e w)); now apply reachable_step.
  - destruct e as [e|]; [|exact I].
    destruct e; cbn [isCallback]; first [exact I | assumption | idtac];
      now apply reachable_step.
  - destruct e as [e|]; [|exact I]. now destruct (isCallback e).
Qed.

(** X21. When the page is removed (the user navigates away, or the
    host replaces it), the effect cleanups leave nothing behind: no
    media track is live, no cycle timer is scheduled, no recorder is
    cycling, the archive recorder is inactive, the audio context is
    closed and the elapsed-time interval is cleared; state, request log
    and observations are as they were.  A page that is gone stays
    gone. *)
Theorem removal_releases_everything l clk :
  alive l ->
  match l with
  | Gone _ => live_step clk Navigate l = l
  | Mounted w | Leaving w =>
      let w' := unmount w in
      live_step clk Navigate l = Gone w' /\
      (forall i, isLive (dom w') i = false) /\
      timerScheduled w' = false /\
      cyclingRecorderActive w' = false /\
      recorderActive (dom w') (mediaRecorderRef (refs w)) = false /\
      contextOpen (dom w') (audioContextRef (refs w)) = false /\
      ticker (dom w') = false /\
      st w' = st w /\ net w' = net w /\ obs w' = obs w
  end.
Proof.
  intros Hl. pose proof (alive_reachable l Hl) as Hr.
  pose proof (life_invariant l Hl) as Hinv.
  assert (Hw : forall w, reachable w -> cyclesHeld w ->
            let w' := unmount w in
            (forall i, isLive (dom w') i = false) /\
            timerScheduled w' = false /\
            cyclingRecorderActive w' = false /\
            recorderActive (dom w') (mediaRecorderRef (refs w)) = false /\
            contextOpen (dom w') (audioContextRef (refs w)) = false /\
            ticker (dom w') = false /\
            st w' = st w /\ net w' = net w /\ obs w' = obs w).
  { clear. intros w Hr Hh w'.
    destruct (ownership_invariant w Hr) as (Hheld & _).
    pose proof (cleanup_quiet 0 w Hheld) as Hq.
    destruct (cleanup_spec w)
      as (_ & _ & _ & _ & _ & _ & _ & Hm & Hc & _ & Hst & Hnet & Hobs).
    destruct (proj1 (cyclesOff_spec _) (cyclesOff_unmount w Hh)) as [Ht Hcy].
    subst w'. unfold unmount in *.
    split_and!; try assumption; try reflexivity.
    intros i. apply (Hq i). lia. }
  destruct l as [w|w|w]; cbn [live_step lifeInv] in *.
  - destruct (Hw w Hr (proj1 (proj2 Hinv))) as (H1 & H2). cbv zeta.
    split; [reflexivity|]. split; [exact H1 | exact H2].
  - destruct (Hw w Hr Hinv) as (H1 & H2). cbv zeta.
    split; [reflexivity|]. split; [exact H1 | exact H2].
  - reflexivity.
Qed.

Lemma removal_releases_everything_witness :
  let l := live_run [(clockAt 0, Page (SetMeetingTitle (js "Standup")));
                     (clockAt 1, Page (ClickStart
                                         (systemShare [KVideo; KAudio] (JNum 7))));
                     (clockAt 2, Page Commit)]
             (Mounted (initial true)) in
  alive l /\
  exists w,
    l = Mounted w /\ timerScheduled w = true /\ ticker (dom w) = true /\
    isLive (dom w) 1 = true /\
    live_step (clockAt 3000) Navigate l = Gone (unmount w) /\
    timerScheduled (unmount w) = false /\
    ticker (dom (unmount w)) = false /\
    isLive (dom (unmount w)) 1 = false.
Proof.
  intros l.
  assert (Hl : alive l) by (apply alive_run, alive_initial).
  split; [exact Hl|].
  assert (Hw : exists w, l = Mounted w) by (vm_compute; eauto).
  destruct Hw as [w Hw]. exists w.
  assert (E : w = worldOf l) by now rewrite Hw.
  pose proof (removal_releases_everything l (clockAt 3000) Hl) as H.
  rewrite Hw in H. cbv zeta in H.
  destruct H as (Hnav & Hlive & Htimer & _ & _ & _ & Hticker & _).
  split; [exact Hw|].
  split; [rewrite E; vm_compute; reflexivity|].
  split; [rewrite E; vm_compute; reflexivity|].
  split; [rewrite E; vm_compute; reflexivity|].
  rewrite Hw. split; [exact Hnav|]. split; [exact Htimer|].
  split; [exact Hticker | apply Hlive].
Defined.

(** ** The three requests of a stop *)

(** X22. What the stop sequence sends.  With a meeting id in its
    render, [stopCapture] first issues POST /transcription/:id with the
    transcript text, the current speaker counted with the number of
    entries, the language and the same ISO time twice; once that is
    answered, PUT /meetings/:id with the title (or "Captured Meeting"
    and the date when it is empty), the description, the folder and the
    status "completed"; then POST /recording/stop/:id without a body;
    and once that is answered it calls [onMeetingCreated] with the id
    and issues nothing more.  A rejection at any of the three points
    issues nothing and notifies nobody. *)
Theorem stop_requests_in_full clk r w resp :
  truthy (meetingId r) = true ->
  calls (net (stopCapture clk r w)) =
    calls (net w) ++
    [{| c_method := POST; c_endpoint := Transcription (meetingId r);
        c_body := TranscriptBody (fullTranscript (liveTranscript r))
                    (currentSpeaker r, length (liveTranscript r))
                    (selectedLanguage r) (iso clk) (iso clk) |}] /\
  calls (net (stopCapture_resume clk (KStopTranscript r) (Resolved resp) w)) =
    calls (net w) ++
    [{| c_method := PUT; c_endpoint := Meetings (meetingId r);
        c_body := MeetingBody
                    (if strTruthy (meetingTitle r) then meetingTitle r
                     else js "Captured Meeting " ++ localeDate clk)
                    (meetingDescription r) (selectedFolder r)
                    (js "completed") |}] /\
  calls (net (stopCapture_resume clk (KStopMeeting r) (Resolved resp) w)) =
    calls (net w) ++
    [{| c_method := POST; c_endpoint := RecordingStop (meetingId r);
        c_body := NoBody |}] /\
  (let w' := stopCapture_resume clk (KStopRecording r) (Resolved resp) w in
   calls (net w') = calls (net w) /\
   notified (obs w') = notified (obs w) ++ [meetingId r]) /\
  (forall k e,
     let w' := stopCapture_resume clk k (Rejected e) w in
     calls (net w') = calls (net w) /\ notified (obs w') = notified (obs w) /\
     consoleErrors (obs w') = consoleErrors (obs w) ++ [e]).
Proof.
  intros Hid. split; [rewrite stopCapture_calls; now rewrite Hid|].
  split_and!; try reflexivity.
  all: cbv zeta; intros; split_and!; reflexivity.
Qed.

Lemma stop_requests_in_full_witness :
  let w := standup true in
  truthy (meetingId (st w)) = true /\
  map c_method (calls (net (run stopWith500 w))) = [POST; POST; PUT; POST] /\
  calls (net (stopCapture (clockAt 5000) (st w) w)) =
    calls (net w) ++
    [{| c_method := POST; c_endpoint := Transcription (JNum 7);
        c_body := TranscriptBody [] (js "Speaker", 0%nat) (js "en-US")
                    (js "2026-01-01T10:00:00.000Z")
                    (js "2026-01-01T10:00:00.000Z") |}].
Proof.
  intros w.
  assert (Hid : truthy (meetingId (st w)) = true) by (vm_compute; reflexivity).
  split; [exact Hid|]. split; [vm_compute; reflexivity|].
  exact (proj1 (stop_requests_in_full (clockAt 5000) (st w) w
                  {| resp_ok := true; resp_json := inl someError |} Hid)).
Defined.
